(** * trashAItool: session, storage and command dispatch

    A shallow embedding of [trashAItool.py] and [commands.py] and the
    properties of the session/command layer stated in the specification.

    Conventions of the embedding.
    - A Python [str] is a [string]; its characters are read as the code
      points U+0000..U+00FF.  [isspace], [lower] and [upper] follow CPython
      on that range ([upper] may leave it, so it returns code points).
    - The Python objects that the program mutates in place live in a heap:
      list objects, and the dict that [state.mem] becomes when a record's
      ["conversation"] is a JSON object.  [state.mem] and the list under
      ["conversation"] of a record are references into it.
    - The storage directory is a finite map from file names to contents; a
      content is the JSON value [json.load] would return, or [None] when
      opening or parsing the file raises.  [os.path.join(dir, f)] is
      represented by the directory entry [f] it designates.
    - [open(path, "w")] and [os.remove(path)] can fail: the file system
      decides, entry by entry.  When [open] succeeds, [json.dump] writes
      the whole record (it is made of strings and of values read from
      JSON).
    - [print] appends a line to the [stdout] component of the world.
    - The clock, the chat model and the file system's decisions are
      parameters of the operations. *)

From Stdlib Require Import ZArith NArith Ascii String List Bool Lia.
From stdpp Require Import base option list gmap strings pretty.

#[local] Set Warnings "-register-all".

Local Open Scope N_scope.

(** ** Python string primitives *)

Module Py.

(** [str.isspace] on one character. *)
Definition isspace (c : ascii) : bool :=
  let n := N_of_ascii c in
  ((9 <=? n) && (n <=? 13)) || ((28 <=? n) && (n <=? 32))
  || (n =? 133) || (n =? 160).

(** [str.lower] on one character: A-Z and the Latin-1 capitals. *)
Definition lower_char (c : ascii) : ascii :=
  let n := N_of_ascii c in
  if ((65 <=? n) && (n <=? 90))
     || ((192 <=? n) && (n <=? 222) && negb (n =? 215))
  then ascii_of_N (n + 32) else c.

(** [str.upper] on one character, as code points: the micro sign and y
    with diaeresis leave Latin-1, sharp s becomes two letters. *)
Definition upper_char (c : ascii) : list N :=
  let n := N_of_ascii c in
  if (97 <=? n) && (n <=? 122) then [n - 32]
  else if n =? 181 then [924]
  else if n =? 223 then [83; 83]
  else if (224 <=? n) && (n <=? 254) && negb (n =? 247) then [n - 32]
  else if n =? 255 then [376]
  else [n].

Fixpoint lower (s : string) : string :=
  match s with
  | EmptyString => EmptyString
  | String c s' => String (lower_char c) (lower s')
  end.

Fixpoint upper (s : string) : list N :=
  match s with
  | EmptyString => []
  | String c s' => upper_char c ++ upper s'
  end.

(** The code points of a string, to compare with [upper]. *)
Fixpoint codes (s : string) : list N :=
  match s with
  | EmptyString => []
  | String c s' => N_of_ascii c :: codes s'
  end.

Fixpoint lstrip (s : string) : string :=
  match s with
  | EmptyString => EmptyString
  | String c s' => if isspace c then lstrip s' else s
  end.

Fixpoint rstrip (s : string) : string :=
  match s with
  | EmptyString => EmptyString
  | String c s' =>
      match rstrip s' with
      | EmptyString => if isspace c then EmptyString else String c EmptyString
      | r => String c r
      end
  end.

(** [s.strip()] *)
Definition strip (s : string) : string := rstrip (lstrip s).

(** [s.replace(ch, empty)] for a one-character [ch]. *)
Fixpoint remove_char (ch : ascii) (s : string) : string :=
  match s with
  | EmptyString => EmptyString
  | String c s' =>
      if Ascii.eqb c ch then remove_char ch s' else String c (remove_char ch s')
  end.

(** The first word of [s] and what follows it, beginning at the first
    whitespace character. *)
Fixpoint break_space (s : string) : string * string :=
  match s with
  | EmptyString => (EmptyString, EmptyString)
  | String c s' =>
      if isspace c then (EmptyString, s)
      else let '(h, r) := break_space s' in (String c h, r)
  end.

(** [s.split(maxsplit=1)]: zero, one or two parts. *)
Definition split1 (s : string) : list string :=
  match lstrip s with
  | EmptyString => []
  | s0 =>
      let '(h, r) := break_space s0 in
      match lstrip r with
      | EmptyString => [h]
      | r' => [h; r']
      end
  end.

(** [s.endswith(suffix)]: some tail of [s] is [suffix]. *)
Fixpoint endswith (s suffix : string) : bool :=
  String.eqb s suffix
  || match s with
     | EmptyString => false
     | String _ s' => endswith s' suffix
     end.

(** [s in cs] for a one-character [s]. *)
Fixpoint char_in (c : ascii) (cs : string) : bool :=
  match cs with
  | EmptyString => false
  | String d cs' => Ascii.eqb c d || char_in c cs'
  end.

(** Truth value of a [str]. *)
Definition truthy (s : string) : bool := negb (String.eqb s EmptyString).

(** [f"{s:<16}"] *)
Fixpoint spaces (n : nat) : string :=
  match n with
  | O => EmptyString
  | S n' => String " " (spaces n')
  end.
Definition ljust (w : nat) (s : string) : string :=
  s +:+ spaces (w - String.length s).

End Py.

Local Close Scope N_scope.

(** ** JSON values and Python objects *)

(** What [json.load] returns.  Numbers are the integers; an object is its
    list of members in file order. *)
Inductive json :=
  | JNull
  | JBool (b : bool)
  | JNum (z : Z)
  | JStr (s : string)
  | JArr (l : list json)
  | JObj (m : list (string * json)).

(** [d[k]] on the dict built from the members [m]: a later member with the
    same key overrides an earlier one. *)
Definition obj_get (k : string) (m : list (string * json)) : option json :=
  foldl (λ acc kv, if String.eqb kv.1 k then Some kv.2 else acc) None m.

(** [{"role": role, "content": content}] *)
Definition message (role content : string) : json :=
  JObj [("role", JStr role); ("content", JStr content)].

(** Hashable values as dict keys; [True == 1] and [False == 0]. *)
Inductive pykey :=
  | KNone
  | KInt (z : Z)
  | KStr (s : string).

Global Instance pykey_eq_dec : EqDecision pykey.
Proof. solve_decision. Defined.

Global Instance pykey_countable : Countable pykey.
Proof.
  apply (inj_countable'
    (λ k, match k with
          | KNone => inl ()
          | KInt z => inr (inl z)
          | KStr s => inr (inr s)
          end)
    (λ x, match x with
          | inl _ => KNone
          | inr (inl z) => KInt z
          | inr (inr s) => KStr s
          end)).
  by intros [].
Defined.

(** [hash(v)] succeeds: lists and dicts are unhashable. *)
Definition hash_key (j : json) : option pykey :=
  match j with
  | JNull => Some KNone
  | JBool b => Some (KInt (if b then 1 else 0))
  | JNum z => Some (KInt z)
  | JStr s => Some (KStr s)
  | JArr _ | JObj _ => None
  end.

(** [v != s] for a [str] [s]. *)
Definition json_ne_str (v : json) (s : string) : bool :=
  match v with
  | JStr t => negb (String.eqb t s)
  | _ => true
  end.

(** A mutable object on the heap: a list by its items, a dict by its
    members. *)
Inductive pyobj :=
  | PList (items : list json)
  | PDict (members : list (string * json)).

(** The value under ["conversation"] of a record held in memory: a list
    object on the heap, or any other value (the program changes no such
    value in place, it only copies it). *)
Inductive pyref :=
  | RList (l : nat)
  | RVal (j : json).

(** A record held in memory: a dict with at least the keys ["name"],
    ["created"] and ["conversation"] (so it is never falsy); members under
    other keys are never read and are left out. *)
Record entry := Entry {
  e_name : json;
  e_created : json;
  e_conversation : pyref;
}.

(** A line written by [print].  [cmd_list] formats two arbitrary values
    with [str()]; the line keeps the values. *)
Inductive line :=
  | Line (s : string)
  | Listed (name created : json).

(** ** The world: [AppState], the heap, the directory and the terminal *)

Record world := World {
  mem : nat;                               (* state.mem *)
  current_name : option string;            (* state.current_name *)
  history : list entry;                    (* state.history *)
  history_by_name : gmap pykey entry;      (* state.history_by_name *)
  heap : list pyobj;                       (* list and dict objects *)
  files : gmap string (option json);       (* state.history_dir *)
  stdout : list line;
}.

Definition with_mem (l : nat) (w : world) : world :=
  World l (current_name w) (history w) (history_by_name w) (heap w)
    (files w) (stdout w).
Definition with_current_name (n : option string) (w : world) : world :=
  World (mem w) n (history w) (history_by_name w) (heap w) (files w)
    (stdout w).
Definition with_history (h : list entry) (w : world) : world :=
  World (mem w) (current_name w) h (history_by_name w) (heap w) (files w)
    (stdout w).
Definition with_history_by_name (m : gmap pykey entry) (w : world) : world :=
  World (mem w) (current_name w) (history w) m (heap w) (files w) (stdout w).
Definition with_heap (h : list pyobj) (w : world) : world :=
  World (mem w) (current_name w) (history w) (history_by_name w) h (files w)
    (stdout w).
Definition with_files (d : gmap string (option json)) (w : world) : world :=
  World (mem w) (current_name w) (history w) (history_by_name w) (heap w) d
    (stdout w).

Definition print (s : string) (w : world) : world :=
  World (mem w) (current_name w) (history w) (history_by_name w) (heap w)
    (files w) (stdout w ++ [Line s]).
Definition print_line (l : line) (w : world) : world :=
  World (mem w) (current_name w) (history w) (history_by_name w) (heap w)
    (files w) (stdout w ++ [l]).

(** *** Outcomes *)

Inductive exn :=
  | SystemExit          (* raised by [cmd_exit] *)
  | ModelCallFailure    (* the chat function raised *)
  | AttributeError      (* [.copy()] or [.append()] on a value without it *)
  | TypeError           (* [dict + list] *)
  | IOFailure           (* [open(path, "w")] or [os.remove(path)] raised *)
  | Exhausted.          (* the bound on [unique_path]'s loop ran out *)

Inductive result (A : Type) :=
  | Returns (a : A) (w : world)
  | Raises (e : exn) (w : world).
Arguments Returns {A} a w.
Arguments Raises {A} e w.

Definition bind {A B} (r : result A) (k : A → world → result B) : result B :=
  match r with
  | Returns a w => k a w
  | Raises e w => Raises e w
  end.

(** The world a call ends in, returning or raising. *)
Definition final {A} (r : result A) : world :=
  match r with
  | Returns _ w => w
  | Raises _ w => w
  end.

(** *** Objects *)

(** The items of the list object at [l]; a dict has none. *)
Definition deref (h : list pyobj) (l : nat) : list json :=
  match h !! l with
  | Some (PList v) => v
  | _ => []
  end.

(** The active conversation, message by message. *)
Definition conversation_of (w : world) : list json := deref (heap w) (mem w).

(** [bool(o)] for a list or a dict. *)
Definition obj_truthy (o : pyobj) : bool :=
  match o with
  | PList (_ :: _) | PDict (_ :: _) => true
  | _ => false
  end.

(** [bool(state.mem)] *)
Definition mem_truthy (w : world) : bool :=
  match heap w !! mem w with
  | Some o => obj_truthy o
  | None => false
  end.

(** A new object. *)
Definition alloc (o : pyobj) (w : world) : nat * world :=
  (length (heap w), with_heap (heap w ++ [o]) w).

(** [l.append(x)]: a list has it, a dict does not. *)
Definition list_push (l : nat) (x : json) (w : world) : world :=
  with_heap
    (alter (λ o, match o with
                 | PList v => PList (v ++ [x])
                 | PDict m => PDict m
                 end) l (heap w)) w.
Definition list_append (l : nat) (x : json) (w : world) : result unit :=
  match heap w !! l with
  | Some (PDict _) => Raises AttributeError w
  | _ => Returns tt (list_push l x w)
  end.

(** [o.clear()] and [o.copy()], which lists and dicts both have. *)
Definition obj_clear (l : nat) (w : world) : world :=
  with_heap
    (alter (λ o, match o with
                 | PList _ => PList []
                 | PDict _ => PDict []
                 end) l (heap w)) w.
Definition obj_copy (l : nat) (w : world) : nat * world :=
  alloc (default (PList []) (heap w !! l)) w.

(** The collaborators outside the program. *)
Record env := Env {
  (* [client.responses.create(model=..., input=messages).output_text];
     [None] when the call raises *)
  chat : list json → option string;
  (* [datetime.now().isoformat(timespec="seconds")] *)
  now_iso : string;
  (* [datetime.now().strftime("%Y-%m-%d_%H-%M-%S")] *)
  now_stamp : string;
  (* [open(path, "w")] creates the directory entry; it raises otherwise *)
  writable : string → bool;
  (* [os.remove(path)] removes the existing entry; it raises otherwise *)
  removable : string → bool;
}.

(** ** trashAItool.py *)

Definition YELLOW : string := String "027" "[33m".
Definition RESET : string := String "027" "[0m".

Definition TITLE_PROMPT : string :=
  "Summarize this conversation into a three word title. No punctuation.".
Definition INVALID_FILENAME_CHARS : string :=
  "<>:" +:+ String "034" "/\|?*".
Definition WINDOWS_RESERVED : list string :=
  ["CON"; "PRN"; "AUX"; "NUL";
   "COM1"; "COM2"; "COM3"; "COM4"; "COM5"; "COM6"; "COM7"; "COM8"; "COM9";
   "LPT1"; "LPT2"; "LPT3"; "LPT4"; "LPT5"; "LPT6"; "LPT7"; "LPT8"; "LPT9"].

(** [name.upper() in WINDOWS_RESERVED], on the code points of [name.upper()] *)
Definition in_reserved (u : list N) : bool :=
  existsb (λ r, bool_decide (Py.codes r = u)) WINDOWS_RESERVED.

Definition sanitize_filename (name : string) : string :=
  let name :=
    foldl (λ name ch, Py.remove_char ch name) name
      (list_ascii_of_string INVALID_FILENAME_CHARS) in
  let name := Py.strip name in
  if in_reserved (Py.upper name) then "_" +:+ name else name.

(** [f"{name}.json"], the directory entry of the record called [name] *)
Definition json_file (name : string) : string := name +:+ ".json".

(** [os.path.exists] on an entry of the directory *)
Definition path_exists (dir : gmap string (option json)) (path : string) : bool :=
  bool_decide (is_Some (dir !! path)).

(** [f"{base}-{i}"] *)
Definition suffixed (base : string) (i : nat) : string :=
  base +:+ "-" +:+ pretty i.

(** The [while True] loop of [unique_path], at most [fuel] rounds. *)
Fixpoint unique_path_loop (fuel : nat) (dir : gmap string (option json))
    (base : string) (i : nat) : option (string * string) :=
  match fuel with
  | O => None
  | S fuel' =>
      let candidate := suffixed base i in
      let path := json_file candidate in
      if negb (path_exists dir path) then Some (candidate, path)
      else unique_path_loop fuel' dir base (S i)
  end.

Definition unique_path_fuel (fuel : nat) (dir : gmap string (option json))
    (name : string) : option (string * string) :=
  let base := name in
  let path := json_file base in
  if negb (path_exists dir path) then Some (base, path)
  else unique_path_loop fuel dir base 2.

(** One round more than the directory has entries is always enough, as
    proved below for every directory. *)
Definition unique_path (dir : gmap string (option json)) (name : string)
    : option (string * string) :=
  unique_path_fuel (S (size dir)) dir name.

(** [isinstance(entry, dict) and {"name", "created", "conversation"} <=
    entry.keys()], with the three values. *)
Definition as_record (j : json) : option (json * json * json) :=
  match j with
  | JObj m =>
      match obj_get "name" m, obj_get "created" m, obj_get "conversation" m with
      | Some n, Some c, Some v => Some (n, c, v)
      | _, _, _ => None
      end
  | _ => None
  end.

(** The object [json.load] builds for the value under ["conversation"]. *)
Definition load_value (v : json) (w : world) : pyref * world :=
  match v with
  | JArr l => let '(r, w') := alloc (PList l) w in (RList r, w')
  | _ => (RVal v, w)
  end.

(** The body of the [for file in os.listdir(...)] loop of [load_history]. *)
Definition load_file (w : world) (fc : string * option json) : world :=
  let '(file, content) := fc in
  if negb (Py.endswith (Py.lower file) ".json") then w
  else
    match content with
    | None => w                         (* except Exception: pass *)
    | Some j =>
        match as_record j with
        | None => w
        | Some (n, c, v) =>
            let '(conv, w1) := load_value v w in
            let e := Entry n c conv in
            let w2 := with_history (history w1 ++ [e]) w1 in
            match hash_key n with
            | Some k =>
                with_history_by_name (<[k := e]> (history_by_name w2)) w2
            | None => w2                (* TypeError, caught: pass *)
            end
        end
    end.

Definition load_history (w : world) : world :=
  let w := with_history [] w in
  let w := with_history_by_name ∅ w in
  let w := foldl load_file w (map_to_list (files w)) in
  print ("Loaded " +:+ pretty (length (history w))
         +:+ " conversations from history.") w.

(** [v.copy()] for the value under ["conversation"]: a new list or a new
    dict; the other values have no [copy]. *)
Definition copy_value (r : pyref) (w : world) : result nat :=
  match r with
  | RList l => let '(l', w) := obj_copy l w in Returns l' w
  | RVal (JArr v) => let '(l', w) := alloc (PList v) w in Returns l' w
  | RVal (JObj m) => let '(l', w) := alloc (PDict m) w in Returns l' w
  | RVal _ => Raises AttributeError w
  end.

Definition load_conversation (name : string) (w : world) : result unit :=
  match history_by_name w !! KStr name with
  | None => Returns tt (print "No conversation found with that name." w)
  | Some e =>
      bind (copy_value (e_conversation e) w) (λ l' w,
        let w := with_mem l' w in
        let w := with_current_name (Some name) w in
        Returns tt (print ("Loaded conversation: " +:+ name) w))
  end.

(** [state.mem.copy()] as the value under ["conversation"] of the new
    record: a new list object, or the members of the dict. *)
Definition copy_mem (w : world) : pyref * world :=
  match heap w !! mem w with
  | Some (PDict m) => (RVal (JObj m), w)
  | _ => let '(c, w) := obj_copy (mem w) w in (RList c, w)
  end.

(** What [json.dump] writes for a value held in memory. *)
Definition dump_value (h : list pyobj) (r : pyref) : json :=
  match r with
  | RList l => JArr (deref h l)
  | RVal j => j
  end.

(** [json.dump(entry, f, indent=2)] read back by [json.load] *)
Definition dump_entry (name created : string) (conv : json) : json :=
  JObj [("name", JStr name); ("created", JStr created);
        ("conversation", conv)].

Definition save_conversation (E : env) (name : string) (w : world)
    : result unit :=
  if negb (mem_truthy w) then Returns tt w
  else
    let '(conv, w) := copy_mem w in
    match unique_path (files w) name with
    | None => Raises Exhausted w
    | Some (final_name, path) =>
        if negb (writable E path) then Raises IOFailure w
        else
          let e := Entry (JStr final_name) (JStr (now_iso E)) conv in
          let w :=
            with_files
              (<[path := Some (dump_entry final_name (now_iso E)
                                 (dump_value (heap w) conv))]> (files w)) w in
          let w := with_history (history w ++ [e]) w in
          let w :=
            with_history_by_name
              (<[KStr final_name := e]> (history_by_name w)) w in
          Returns tt (with_current_name (Some final_name) w)
    end.

Definition model_reply (E : env) (messages : list json) (w : world)
    : result string :=
  match chat E messages with
  | Some output_text => Returns (Py.strip output_text) w
  | None => Raises ModelCallFailure w
  end.

Definition generate_title_from_mem (E : env) (w : world) : result string :=
  match heap w !! mem w with
  | Some (PDict _) => Raises TypeError w      (* dict + list *)
  | _ =>
      let temp := conversation_of w ++ [message "user" TITLE_PROMPT] in
      model_reply E temp w
  end.

(** A row of the command table. *)
Record command := Command {
  command_name : string;                        (* "command" *)
  func : option string → world → result unit;   (* "func" *)
  description : string;                         (* "description" *)
  takes_arg : option bool;                      (* "takes_arg", if present *)
}.

Definition run_command (command_table : list command) (line : string)
    (w : world) : result bool :=
  let normalized := Py.strip line in
  if negb (Py.truthy normalized) then Returns false w
  else
    let parts := Py.split1 normalized in
    let name := Py.lower (hd EmptyString parts) in
    let arg :=
      match parts with
      | [_; rest] => Py.strip rest
      | _ => EmptyString
      end in
    match find (λ c, String.eqb (command_name c) name) command_table with
    | None => Returns false w
    | Some cmd =>
        if default false (takes_arg cmd)
        then bind (func cmd (Some arg) w) (λ _ w, Returns true w)
        else if Py.truthy arg then Returns false w
        else bind (func cmd None w) (λ _ w, Returns true w)
    end.

(** ** commands.py *)

Definition cmd_list (w : world) : result unit :=
  let w := print "Saved Conversations:" w in
  Returns tt
    (foldl (λ w entry, print_line (Listed (e_name entry) (e_created entry)) w)
       w (history w)).

Definition cmd_new (w : world) : result unit :=
  let w := obj_clear (mem w) w in
  let w := with_current_name None w in
  Returns tt (print "Started a new conversation." w).

(** [f"{state.current_name}"] *)
Definition show_name (n : option string) : string :=
  match n with
  | Some s => s
  | None => "None"
  end.

(** The name [state.current_name] when it is truthy. *)
Definition bound_name (w : world) : option string :=
  match current_name w with
  | Some n => if Py.truthy n then Some n else None
  | None => None
  end.

Definition cmd_exit (E : env)
    (generate_title_from_mem : world → result string)
    (sanitize_filename : string → string)
    (save_conversation : string → world → result unit)
    (w : world) : result unit :=
  if negb (mem_truthy w) then Raises SystemExit w
  else
    match bound_name w with
    | Some n =>
        bind (save_conversation n w) (λ _ w,
          let w := print ("Saved as: " +:+ show_name (current_name w)) w in
          Raises SystemExit w)
    | None =>
        bind (generate_title_from_mem w) (λ title w,
          let w := print title w in
          let name :=
            let s := sanitize_filename title in
            if Py.truthy s then s else now_stamp E in
          bind (save_conversation name w) (λ _ w,
            let w := print ("Saved as: " +:+ show_name (current_name w)) w in
            Raises SystemExit w))
    end.

Definition cmd_load (arg : string)
    (load_conversation : string → world → result unit)
    (w : world) : result unit :=
  if negb (Py.truthy arg) then Returns tt (print "Usage: load <name>" w)
  else load_conversation arg w.

Definition cmd_delete (E : env) (arg : string) (w : world) : result unit :=
  if negb (Py.truthy arg) then Returns tt (print "Usage: delete <name>" w)
  else
    match history_by_name w !! KStr arg with
    | None => Returns tt (print "No conversation found with that name." w)
    | Some entry =>
        let path := json_file arg in
        if negb (path_exists (files w) path)
        then Returns tt (print "Conversation file not found on disk." w)
        else if negb (removable E path) then Raises IOFailure w
        else
          let w := with_files (delete path (files w)) w in
          let w :=
            with_history
              (List.filter (λ item, json_ne_str (e_name item) arg) (history w))
              w in
          let w :=
            with_history_by_name (delete (KStr arg) (history_by_name w)) w in
          let w :=
            if bool_decide (current_name w = Some arg)
            then with_current_name None w else w in
          Returns tt (print ("Deleted conversation: " +:+ arg) w)
    end.

(** [cmd_help] reads the ["command"] and ["description"] of every row. *)
Definition cmd_help (command_table : list (string * string)) (w : world)
    : result unit :=
  let w := print "Commands:" w in
  Returns tt
    (foldl (λ w row, print ("  " +:+ Py.ljust 16 row.1 +:+ " " +:+ row.2) w)
       w command_table).

Definition cmd_reload (load_history : world → world) (w : world)
    : result unit :=
  Returns tt (load_history w).

Definition COMPRESS_PROMPT : string :=
  "Take all conversation context so far and condense it into a comprehensive summary "
  +:+ "that preserves key facts, decisions, constraints, and open tasks.".

Definition cmd_compress (model_reply : list json → world → result string)
    (w : world) : result unit :=
  if negb (mem_truthy w) then Returns tt (print "Nothing to compress." w)
  else
    bind (list_append (mem w) (message "user" COMPRESS_PROMPT) w) (λ _ w,
      bind (model_reply (conversation_of w) w) (λ summary w,
        let '(l, w) := alloc (PList [message "assistant" summary]) w in
        let w := with_mem l w in
        Returns tt (print "Conversation compressed." w))).

(** ** [main]: the command table and the loop *)

(** The ["command"] and ["description"] columns of the table. *)
Definition COMMANDS : list (string * string) :=
  [("help", "Show available commands");
   ("list", "List saved conversations");
   ("load", "Load a saved conversation");
   ("delete", "Delete a saved conversation");
   ("compress", "Compress current conversation into a summary");
   ("reload", "Reload saved conversations from disk");
   ("new", "Start a new conversation");
   ("exit", "Exit the application")].

(** [arg or EmptyString] for the [arg=None] of the two lambdas with an
    argument. *)
Definition arg_or_empty (arg : option string) : string :=
  match arg with
  | Some a => a
  | None => EmptyString
  end.

Definition command_table (E : env) : list command :=
  [Command "help" (λ _, cmd_help COMMANDS)
     "Show available commands" None;
   Command "list" (λ _, cmd_list)
     "List saved conversations" None;
   Command "load" (λ arg, cmd_load (arg_or_empty arg) load_conversation)
     "Load a saved conversation" (Some true);
   Command "delete" (λ arg, cmd_delete E (arg_or_empty arg))
     "Delete a saved conversation" (Some true);
   Command "compress" (λ _, cmd_compress (model_reply E))
     "Compress current conversation into a summary" None;
   Command "reload" (λ _, cmd_reload load_history)
     "Reload saved conversations from disk" None;
   Command "new" (λ _, cmd_new)
     "Start a new conversation" None;
   Command "exit"
     (λ _, cmd_exit E (generate_title_from_mem E) sanitize_filename
             (save_conversation E))
     "Exit the application" None].

(** The world when [main] reaches its loop, over the directory [dir]. *)
Definition boot (dir : gmap string (option json)) : world :=
  let w := World 0 None [] ∅ [PList []] dir [] in
  let w := print "trashAItool Enabled. CTRL+C to exit." w in
  let w := print "Type 'help' for a list of commands." w in
  load_history w.

(** One round of the [while True] loop on the input [user]. *)
Inductive round :=
  | Continue (w : world)             (* next prompt *)
  | Break (w : world)                (* [except SystemExit: break] *)
  | Crash (e : exn) (w : world).     (* any other exception leaves [main] *)

Definition chat_turn (E : env) (user : string) (w : world) : round :=
  let turn :=
    bind (list_append (mem w) (message "user" user) w) (λ _ w,
      bind (model_reply E (conversation_of w) w) (λ reply w,
        let w := print (YELLOW +:+ reply +:+ RESET) w in
        list_append (mem w) (message "assistant" reply) w)) in
  match turn with
  | Returns _ w => Continue w
  | Raises e w => Crash e w
  end.

Definition loop_round (E : env) (user : string) (w : world) : round :=
  match run_command (command_table E) user w with
  | Returns true w => Continue w
  | Raises SystemExit w => Break w
  | Raises e w => Crash e w
  | Returns false w => chat_turn E user w
  end.

Definition round_world (r : round) : world :=
  match r with
  | Continue w | Break w | Crash _ w => w
  end.

(** ** Vocabulary of the specification *)

(** The characters of a string. *)
Definition chars (s : string) : list ascii := list_ascii_of_string s.

(** The illegal set of the specification (less-than, greater-than, colon,
    double quote, slash, backslash, bar, question mark, asterisk),
    membership in it, and the removal of all its members. *)
Definition illegal_set : list ascii :=
  ["<"; ">"; ":"; "034"; "/"; "\"; "|"; "?"; "*"]%char.

Definition illegal (c : ascii) : bool := existsb (Ascii.eqb c) illegal_set.

Fixpoint strip_illegal (s : string) : string :=
  match s with
  | EmptyString => EmptyString
  | String c s' =>
      if illegal c then strip_illegal s' else String c (strip_illegal s')
  end.

(** Whitespace only; whitespace at neither end. *)
Definition all_space (s : string) : Prop :=
  Forall (λ c, Py.isspace c = true) (chars s).

Definition starts_space (s : string) : bool :=
  match s with
  | EmptyString => false
  | String c _ => Py.isspace c
  end.

Fixpoint ends_space (s : string) : bool :=
  match s with
  | EmptyString => false
  | String c EmptyString => Py.isspace c
  | String _ s' => ends_space s'
  end.

Definition trimmed (s : string) : Prop :=
  starts_space s = false ∧ ends_space s = false.

(** Equality up to case, and the names equal to a reserved one up to
    case. *)
Definition same_nocase (a b : string) : Prop := Py.lower a = Py.lower b.

Definition reserved_name (s : string) : Prop :=
  ∃ r, r ∈ WINDOWS_RESERVED ∧ same_nocase s r.

(** All 256 characters, and the characters of the reserved names. *)
Definition all_ascii : list ascii := ascii_of_nat <$> seq 0 256.

Definition reserved_char (a : ascii) : bool :=
  Py.char_in a "ACLMNOPRTUX123456789".

(** [upper] and [lower] agree on whether a character matches a character
    of a reserved name, and no character uppercases to more than that. *)
Definition case_table_ok (c a : ascii) : bool :=
  implb (reserved_char a)
    (eqb (bool_decide (Py.upper_char c = [N_of_ascii a]))
         (bool_decide (Py.lower_char c = Py.lower_char a))
     && bool_decide (hd_error (Py.upper_char c) = Some (N_of_ascii a)
                     → Py.upper_char c = [N_of_ascii a])).

(** The message sequence a record of the catalog holds, read through the
    heap. *)
Definition stored_conversation (w : world) (name : string)
    : option (list json) :=
  match history_by_name w !! KStr name with
  | Some e =>
      match e_conversation e with
      | RList l =>
          match heap w !! l with
          | Some (PList conv) => Some conv
          | _ => None
          end
      | RVal _ => None
      end
  | None => None
  end.

(** In-place changes of the active conversation: [state.mem.append(x)] as
    in the loop and in [cmd_compress], [state.mem.clear()] as in
    [cmd_new]. *)
Inductive mutation :=
  | Append (x : json)
  | Clear.

Definition mutate (m : mutation) (w : world) : world :=
  match m with
  | Append x => final (list_append (mem w) x w)
  | Clear => obj_clear (mem w) w
  end.

(** The worlds that [save_conversation] leaves: when it writes the record
    [final] of a conversation that is a list, when it writes the record of
    a dict with the members [m], and when [open] raises after the list was
    copied. *)
Definition saved (E : env) (final : string) (w : world) : world :=
  let conv := conversation_of w in
  let e := Entry (JStr final) (JStr (now_iso E)) (RList (length (heap w))) in
  World (mem w) (Some final) (history w ++ [e])
    (<[KStr final := e]> (history_by_name w))
    (heap w ++ [PList conv])
    (<[json_file final :=
         Some (dump_entry final (now_iso E) (JArr conv))]> (files w))
    (stdout w).

Definition saved_dict (E : env) (final : string)
    (m : list (string * json)) (w : world) : world :=
  let e := Entry (JStr final) (JStr (now_iso E)) (RVal (JObj m)) in
  World (mem w) (Some final) (history w ++ [e])
    (<[KStr final := e]> (history_by_name w))
    (heap w)
    (<[json_file final :=
         Some (dump_entry final (now_iso E) (JObj m))]> (files w))
    (stdout w).

Definition copied (w : world) : world :=
  with_heap (heap w ++ [PList (conversation_of w)]) w.

Definition mutations (ms : list mutation) (w : world) : world :=
  foldl (λ w m, mutate m w) w ms.

(** The world that [load_conversation] leaves when it finds [name] and
    copies the object [o]. *)
Definition loaded (name : string) (o : pyobj) (w : world) : world :=
  World (length (heap w)) (Some name) (history w) (history_by_name w)
    (heap w ++ [o]) (files w)
    (stdout w ++ [Line ("Loaded conversation: " +:+ name)]).

(** *** Sample inputs *)

(** A file system that takes a file name of at most 255 characters without
    a path separator. *)
Definition fs_accepts (f : string) : bool :=
  (String.length f <=? 255)%nat && negb (Py.char_in "/" f).

(** A model that answers every request with the same text, and one that
    is down; a file system that removes no file. *)
Definition E_title : env :=
  Env (λ _, Some "  Trip to Rome ") "2026-01-01T09:00:00"
    "2026-01-01_09-00-00" fs_accepts (λ _, true).
Definition E_down : env :=
  Env (λ _, None) "2026-01-01T09:00:00" "2026-01-01_09-00-00"
    fs_accepts (λ _, true).
Definition E_locked : env :=
  Env (λ _, Some "  Trip to Rome ") "2026-01-01T09:00:00"
    "2026-01-01_09-00-00" fs_accepts (λ _, false).

(** A model whose title is too long for a file name. *)
Definition long_title : string :=
  string_of_list_ascii (repeat "x"%char 300).
Definition E_long : env :=
  Env (λ _, Some long_title) "2026-01-01T09:00:00" "2026-01-01_09-00-00"
    fs_accepts (λ _, true).

(** The session after one exchange, nothing saved, over an empty
    directory. *)
Definition W_chat : world :=
  World 0 None [] ∅
    [PList [message "user" "hello"; message "assistant" "hi"]] ∅ [].

(** The session of [W_chat] bound to the record ["trip"], whose file
    exists. *)
Definition W_bound : world :=
  World 0 (Some "trip")
    [Entry (JStr "trip") (JStr "2025-12-31T08:00:00") (RList 1)]
    {[KStr "trip" :=
        Entry (JStr "trip") (JStr "2025-12-31T08:00:00") (RList 1)]}
    [PList [message "user" "hello"; message "assistant" "hi"];
     PList [message "user" "hello"]]
    {[json_file "trip" :=
        Some (dump_entry "trip" "2025-12-31T08:00:00"
                (JArr [message "user" "hello"]))]}
    [].

(** A directory with one record whose conversation is a JSON object. *)
Definition dir_object : gmap string (option json) :=
  {[json_file "r" :=
      Some (JObj [("name", JStr "r"); ("created", JStr "2025-12-31T08:00:00");
                  ("conversation", JObj [("role", JStr "user")])])]}.

(** The world that a successful [cmd_delete] leaves. *)
Definition deleted (arg : string) (w : world) : world :=
  World (mem w)
    (if bool_decide (current_name w = Some arg) then None
     else current_name w)
    (List.filter (λ item, json_ne_str (e_name item) arg) (history w))
    (delete (KStr arg) (history_by_name w))
    (heap w)
    (delete (json_file arg) (files w))
    (stdout w ++ [Line ("Deleted conversation: " +:+ arg)]).

(** The name [cmd_exit] saves an unbound conversation under, from the
    title the model returned. *)
Definition exit_name (E : env) (title : string) : string :=
  if Py.truthy (sanitize_filename title) then sanitize_filename title
  else now_stamp E.

(** *** Reading a line as a command *)

(** A word: not empty and free of whitespace. *)
Definition word (s : string) : Prop :=
  s ≠ EmptyString ∧ Forall (λ c, Py.isspace c = false) (chars s).

(** [parsed line head rest]: up to the whitespace around it, [line] is the
    word [head] alone ([rest] is empty), or [head], a run of whitespace and
    the trimmed, non-empty [rest]. *)
Inductive parsed (line : string) : string → string → Prop :=
  | parsed_bare pre head post :
      all_space pre → all_space post → word head →
      line = pre +:+ head +:+ post →
      parsed line head EmptyString
  | parsed_arg pre head sep rest post :
      all_space pre → all_space post → word head →
      all_space sep → sep ≠ EmptyString →
      trimmed rest → rest ≠ EmptyString →
      line = pre +:+ head +:+ sep +:+ rest +:+ post →
      parsed line head rest.

(** The row of the table for a head token: the first whose name is the
    lowercased token. *)
Definition lookup_command (table : list command) (head : string)
    : option command :=
  find (λ c, String.eqb (command_name c) (Py.lower head)) table.

(** [cmd.get("takes_arg", False)] *)
Definition wants_arg (cmd : command) : bool := default false (takes_arg cmd).

(** What [run_command] makes of its handler's outcome: [True] when the
    handler returns, the handler's exception when it raises. *)
Definition handled (r : result unit) : result bool :=
  match r with
  | Returns _ w => Returns true w
  | Raises e w => Raises e w
  end.

(** *** The catalog and the directory *)

(** A directory written by this program alone: every entry is the file
    [<name>.json] of a record that declares that name. *)
Definition tidy (dir : gmap string (option json)) : Prop :=
  ∀ f c, dir !! f = Some c →
    ∃ n j created conv,
      f = json_file n ∧ c = Some j
      ∧ as_record j = Some (JStr n, created, conv).

(** The keys of the catalog are the names that have a record file. *)
Definition consistent (w : world) : Prop :=
  (∀ n, is_Some (history_by_name w !! KStr n)
        ↔ is_Some (files w !! json_file n))
  ∧ (∀ k, is_Some (history_by_name w !! k) → ∃ n, k = KStr n).

(** What can happen to a session: the operations of the program, a round
    of its loop on any input, and a new start of the process over the
    directory as it is (after [exit], a crash or an interrupt). *)
Inductive op :=
  | Save (E : env) (name : string)
  | Delete (E : env) (arg : string)
  | Reload
  | Load (name : string)
  | New
  | Compress (E : env)
  | Exit (E : env)
  | Input (E : env) (line : string)
  | Restart.

Definition apply_op (o : op) (w : world) : world :=
  match o with
  | Save E name => final (save_conversation E name w)
  | Delete E arg => final (cmd_delete E arg w)
  | Reload => final (cmd_reload load_history w)
  | Load name => final (load_conversation name w)
  | New => final (cmd_new w)
  | Compress E => final (cmd_compress (model_reply E) w)
  | Exit E =>
      final (cmd_exit E (generate_title_from_mem E) sanitize_filename
               (save_conversation E) w)
  | Input E line => round_world (loop_round E line w)
  | Restart => boot (files w)
  end.

Definition run (ops : list op) (w : world) : world :=
  foldl (λ w o, apply_op o w) w ops.

(** The invariant behind [consistent]. *)
Definition in_step (w : world) : Prop := tidy (files w) ∧ consistent w.

(** An operation that touches neither the catalog nor the directory. *)
Definition same_store (w w' : world) : Prop :=
  files w' = files w ∧ history_by_name w' = history_by_name w.

(** *** Vocabulary for the rest of the code *)

(** Nothing but the terminal differs. *)
Definition same_session (w w' : world) : Prop :=
  mem w' = mem w ∧ current_name w' = current_name w
  ∧ history w' = history w ∧ history_by_name w' = history_by_name w
  ∧ heap w' = heap w ∧ files w' = files w.

(** A directory entry [load_history] takes for a record: the name ends in
    [.json] whatever the case, the file parses, and the value is an object
    with the three keys. *)
Definition record_file (fc : string * option json) : bool :=
  Py.endswith (Py.lower fc.1) ".json"
  && match fc.2 with
     | Some j => bool_decide (is_Some (as_record j))
     | None => false
     end.

(** The lines [cmd_list] prints for the records. *)
Definition listing (h : list entry) : list line :=
  (λ e, Listed (e_name e) (e_created e)) <$> h.

(** *** The state of a session that only the program has touched *)

(** The value held in memory for the ["conversation"] member [cv] of a
    record file: a list object with the same messages for an array, the
    value itself otherwise. *)
Definition mirrors (h : list pyobj) (cv : json) (r : pyref) : Prop :=
  match cv with
  | JArr conv => ∃ l, r = RList l ∧ h !! l = Some (PList conv)
  | _ => r = RVal cv
  end.

(** The active conversation is a live object; [history] lists the
    records of the catalog and no others; every record of the catalog
    carries its key as name, keeps its messages in a live list object that
    is not the active conversation, and mirrors its file. *)
Definition mirrored (w : world) : Prop :=
  mem w < length (heap w)
  ∧ (∀ e, e ∈ history w ↔ ∃ n, history_by_name w !! KStr n = Some e)
  ∧ (∀ n e, history_by_name w !! KStr n = Some e →
       e_name e = JStr n
       ∧ (∀ l, e_conversation e = RList l →
               l < length (heap w) ∧ l ≠ mem w)
       ∧ ∃ j cv,
           files w !! json_file n = Some (Some j)
           ∧ as_record j = Some (JStr n, e_created e, cv)
           ∧ mirrors (heap w) cv (e_conversation e)).

Definition settled (w : world) : Prop :=
  in_step w
  ∧ (∀ n, current_name w = Some n →
          is_Some (history_by_name w !! KStr n))
  ∧ mirrored w.

(** A step that leaves catalog and directory alone, keeps every object
    other than the active conversation, and binds no name that the catalog
    lacks. *)
Definition gentle (w w' : world) : Prop :=
  files w' = files w ∧ history w' = history w
  ∧ history_by_name w' = history_by_name w
  ∧ length (heap w) ≤ length (heap w')
  ∧ (∀ l, l < length (heap w) → l ≠ mem w → heap w' !! l = heap w !! l)
  ∧ (mem w' = mem w ∨ length (heap w) ≤ mem w')
  ∧ mem w' < length (heap w')
  ∧ (current_name w' = current_name w ∨ current_name w' = None
     ∨ ∃ n, current_name w' = Some n
         ∧ is_Some (history_by_name w !! KStr n)).

(** The world that [load_file] leaves for the file of the record [n]. *)
Definition with_record (n : string) (created cv : json) (w : world)
    : world :=
  match cv with
  | JArr conv =>
      let e := Entry (JStr n) created (RList (length (heap w))) in
      World (mem w) (current_name w) (history w ++ [e])
        (<[KStr n := e]> (history_by_name w)) (heap w ++ [PList conv])
        (files w) (stdout w)
  | _ =>
      let e := Entry (JStr n) created (RVal cv) in
      World (mem w) (current_name w) (history w ++ [e])
        (<[KStr n := e]> (history_by_name w)) (heap w) (files w) (stdout w)
  end.

(** * Properties *)

(** ** Strings *)

#[local] Arguments String.append !_ _ / : simpl nomatch.

Section strings.
Implicit Types (s t u : string) (c : ascii).

Lemma chars_app s t : chars (s +:+ t) = chars s ++ chars t.
Proof. induction s as [|c s IH]; simpl; [done | by rewrite IH]. Qed.

Lemma chars_inj s t : chars s = chars t → s = t.
Proof.
  intros H. rewrite <- (string_of_list_ascii_of_string s),
    <- (string_of_list_ascii_of_string t). unfold chars in H. by rewrite H.
Qed.

Lemma app_assoc_s s t u : (s +:+ t) +:+ u = s +:+ (t +:+ u).
Proof. induction s as [|c s IH]; simpl; [done | by rewrite IH]. Qed.

Lemma app_nil_r_s s : s +:+ EmptyString = s.
Proof. induction s as [|c s IH]; simpl; [done | by rewrite IH]. Qed.

Lemma app_inj_r s t u : s +:+ u = t +:+ u → s = t.
Proof.
  intros H. apply chars_inj. apply (f_equal chars) in H.
  rewrite !chars_app in H. by apply app_inv_tail in H.
Qed.

Lemma json_file_inj s t : json_file s = json_file t → s = t.
Proof. apply app_inj_r. Qed.

Lemma suffixed_inj s i j : suffixed s i = suffixed s j → i = j.
Proof.
  unfold suffixed. intros H.
  apply (inj (String.app s)), (inj (String.app "-")) in H.
  by apply (inj pretty) in H.
Qed.

Lemma lower_app s t : Py.lower (s +:+ t) = Py.lower s +:+ Py.lower t.
Proof. induction s as [|c s IH]; simpl; [done | by rewrite IH]. Qed.

Lemma endswith_app s t : Py.endswith (s +:+ t) t = true.
Proof.
  induction s as [|c s IH]; simpl.
  - destruct t; [done|]. cbn [Py.endswith]. by rewrite String.eqb_refl.
  - cbn [Py.endswith]. rewrite IH. apply orb_true_r.
Qed.

Lemma truthy_false s : Py.truthy s = false ↔ s = EmptyString.
Proof. unfold Py.truthy. by destruct s. Qed.

Lemma truthy_true s : Py.truthy s = true ↔ s ≠ EmptyString.
Proof. unfold Py.truthy. by destruct s. Qed.

(** *** [strip] *)

Lemma lstrip_split s :
  ∃ pre, all_space pre ∧ s = pre +:+ Py.lstrip s.
Proof.
  induction s as [|c s (pre & Hpre & IH)].
  - exists EmptyString. split; [constructor | done].
  - simpl. destruct (Py.isspace c) eqn:Hc.
    + exists (String c pre). split; [by constructor | simpl; by f_equal].
    + exists EmptyString. split; [constructor | done].
Qed.

Lemma rstrip_split s :
  ∃ post, all_space post ∧ s = Py.rstrip s +:+ post.
Proof.
  induction s as [|c s (post & Hpost & IH)].
  - exists EmptyString. split; [constructor | done].
  - simpl. destruct (Py.rstrip s) eqn:Hr.
    + destruct (Py.isspace c) eqn:Hc.
      * exists (String c post). split; [by constructor|]. simpl in IH.
        by rewrite IH.
      * exists post. split; [done|]. simpl in *. by f_equal.
    + exists post. split; [done|]. simpl in *. by f_equal.
Qed.

Lemma starts_space_lstrip s : starts_space (Py.lstrip s) = false.
Proof.
  induction s as [|c s IH]; simpl; [done|].
  destruct (Py.isspace c) eqn:Hc; [done | by simpl].
Qed.

Lemma ends_space_rstrip s : ends_space (Py.rstrip s) = false.
Proof.
  induction s as [|c s IH]; simpl; [done|].
  destruct (Py.rstrip s) eqn:Hr.
  - destruct (Py.isspace c) eqn:Hc; simpl; done.
  - simpl in *. done.
Qed.

Lemma starts_space_rstrip s :
  starts_space s = false → starts_space (Py.rstrip s) = false.
Proof.
  destruct s as [|c s]; simpl; [done|]. intros Hc.
  destruct (Py.rstrip s); [by rewrite Hc | done].
Qed.

Lemma lstrip_id s : starts_space s = false → Py.lstrip s = s.
Proof. destruct s as [|c s]; simpl; [done|]. by intros ->. Qed.

Lemma rstrip_id s : ends_space s = false → Py.rstrip s = s.
Proof.
  induction s as [|c s IH]; simpl; [done|].
  destruct s as [|d s].
  - simpl. by intros ->.
  - intros H. rewrite (IH H). done.
Qed.

Lemma strip_trimmed s : trimmed (Py.strip s).
Proof.
  split.
  - apply starts_space_rstrip, starts_space_lstrip.
  - apply ends_space_rstrip.
Qed.

Lemma strip_id s : trimmed s → Py.strip s = s.
Proof.
  intros [H1 H2]. unfold Py.strip. rewrite (lstrip_id _ H1).
  by apply rstrip_id.
Qed.

Lemma strip_split s :
  ∃ pre post,
    all_space pre ∧ all_space post ∧ s = pre +:+ Py.strip s +:+ post.
Proof.
  destruct (lstrip_split s) as (pre & Hpre & H1).
  destruct (rstrip_split (Py.lstrip s)) as (post & Hpost & H2).
  exists pre, post. repeat split; [done..|].
  unfold Py.strip. by rewrite <- H2.
Qed.

Lemma strip_chars s c : c ∈ chars (Py.strip s) → c ∈ chars s.
Proof.
  destruct (strip_split s) as (pre & post & _ & _ & H). intros Hc.
  rewrite H, !chars_app, !elem_of_app. tauto.
Qed.

Lemma trimmed_cons c s :
  Py.isspace c = false → s ≠ EmptyString → ends_space s = false →
  trimmed (String c s).
Proof.
  intros Hc Hs He. split; [done|]. simpl. by destruct s.
Qed.

(** *** Removing the illegal characters *)

Lemma remove_char_strip_illegal ch s :
  illegal ch = true →
  Py.remove_char ch (strip_illegal s) = strip_illegal s.
Proof.
  intros Hch. induction s as [|c s IH]; simpl; [done|].
  destruct (illegal c) eqn:Hc; [done|]. simpl.
  destruct (Ascii.eqb_spec c ch) as [->|]; [congruence | by rewrite IH].
Qed.

Lemma chars_cons c s : chars (String c s) = c :: chars s.
Proof. done. Qed.

Lemma strip_illegal_spec s c :
  c ∈ chars (strip_illegal s) ↔ c ∈ chars s ∧ illegal c = false.
Proof.
  induction s as [|d s IH]; cbn [strip_illegal].
  - split; [intros H | intros [H _]]; by apply elem_of_nil in H.
  - rewrite chars_cons.
    destruct (illegal d) eqn:Hd; rewrite ?chars_cons, ?elem_of_cons, IH.
    + split; [tauto|]. intros [[->|?] ?]; [congruence | tauto].
    + split; [intros [->|?]; tauto | tauto].
Qed.

Lemma strip_illegal_id s :
  (∀ c, c ∈ chars s → illegal c = false) → strip_illegal s = s.
Proof.
  induction s as [|d s IH]; cbn [strip_illegal]; [done|]. intros H.
  rewrite (H d) by (rewrite chars_cons, elem_of_cons; by left).
  f_equal. apply IH. intros c Hc.
  apply H. rewrite chars_cons, elem_of_cons. by right.
Qed.

(** The loop over [INVALID_FILENAME_CHARS] removes exactly the illegal
    characters. *)
Lemma replace_loop_nil (cs : list ascii) :
  foldl (λ name ch, Py.remove_char ch name) EmptyString cs = EmptyString.
Proof. induction cs as [|ch cs IH]; [done | exact IH]. Qed.

Lemma replace_loop_cons (cs : list ascii) c s :
  foldl (λ name ch, Py.remove_char ch name) (String c s) cs =
  if existsb (Ascii.eqb c) cs
  then foldl (λ name ch, Py.remove_char ch name) s cs
  else String c (foldl (λ name ch, Py.remove_char ch name) s cs).
Proof.
  revert s. induction cs as [|ch cs IH]; intros s; [done|].
  cbn [foldl existsb Py.remove_char].
  destruct (Ascii.eqb c ch); cbn [orb]; [done | apply IH].
Qed.

Lemma char_in_existsb c s : Py.char_in c s = existsb (Ascii.eqb c) (chars s).
Proof. induction s as [|d s IH]; [done|]. simpl. by rewrite IH. Qed.

(** The constant of the source lists the illegal set of the
    specification. *)
Lemma invalid_filename_chars :
  list_ascii_of_string INVALID_FILENAME_CHARS = illegal_set.
Proof. reflexivity. Qed.

Lemma illegal_spec c : illegal c = true ↔ c ∈ illegal_set.
Proof.
  unfold illegal. rewrite existsb_exists. split.
  - intros (d & Hd & E). apply Ascii.eqb_eq in E as ->.
    by apply list_elem_of_In.
  - intros H. exists c. split; [by apply list_elem_of_In|].
    apply Ascii.eqb_refl.
Qed.

Lemma replace_loop_strip_illegal s :
  foldl (λ name ch, Py.remove_char ch name) s
    (list_ascii_of_string INVALID_FILENAME_CHARS) = strip_illegal s.
Proof.
  rewrite invalid_filename_chars.
  induction s as [|c s IH]; [apply replace_loop_nil|].
  rewrite replace_loop_cons, IH. cbn [strip_illegal]. by unfold illegal.
Qed.
End strings.

(** ** [sanitize_filename] *)

Section sanitize.
Implicit Types (s t : string) (c a : ascii).

Lemma all_ascii_complete c : c ∈ all_ascii.
Proof.
  unfold all_ascii. apply list_elem_of_fmap.
  exists (nat_of_ascii c). split; [by rewrite ascii_nat_embedding|].
  apply elem_of_seq. pose proof (nat_ascii_bounded c). lia.
Qed.

Lemma case_table_checked :
  forallb (λ c, forallb (case_table_ok c) all_ascii) all_ascii = true.
Proof. vm_compute. reflexivity. Qed.

Lemma case_table c a :
  reserved_char a = true →
  (Py.upper_char c = [N_of_ascii a] ↔ Py.lower_char c = Py.lower_char a)
  ∧ (hd_error (Py.upper_char c) = Some (N_of_ascii a) →
     Py.upper_char c = [N_of_ascii a]).
Proof.
  intros Ha. pose proof case_table_checked as H.
  rewrite forallb_forall in H.
  specialize (H c (proj1 (list_elem_of_In _ _) (all_ascii_complete c))).
  rewrite forallb_forall in H.
  specialize (H a (proj1 (list_elem_of_In _ _) (all_ascii_complete a))).
  unfold case_table_ok in H. rewrite Ha in H. cbn [implb] in H.
  apply andb_prop in H as [H1 H2].
  apply bool_decide_eq_true in H2. split; [|done].
  apply Bool.eqb_prop in H1.
  split; intros E.
- apply (bool_decide_eq_true_1 _). rewrite <- H1.
  by apply bool_decide_eq_true_2.
- apply (bool_decide_eq_true_1 _). rewrite H1.
  by apply bool_decide_eq_true_2.
Qed.

Lemma upper_char_cons c : ∃ n l, Py.upper_char c = n :: l.
Proof. unfold Py.upper_char. repeat case_match; eauto. Qed.

(** On the characters of the reserved names, comparing [upper] with the
    name is comparing up to case. *)
Lemma upper_codes_lower r y :
  Forall (λ a, reserved_char a = true) (chars r) →
  Py.upper y = Py.codes r ↔ Py.lower y = Py.lower r.
Proof.
  revert y. induction r as [|a r IH]; intros y Hr.
  - destruct y as [|c y]; [done|]. cbn [Py.upper Py.codes Py.lower].
    destruct (upper_char_cons c) as (n & l & ->). done.
  - rewrite chars_cons in Hr. apply Forall_cons in Hr as [Ha Hr].
    destruct y as [|c y]; [done|]. cbn [Py.upper Py.codes Py.lower].
    destruct (case_table c a Ha) as [H1 H2]. split.
    + intros E.
      assert (Py.upper_char c = [N_of_ascii a]) as Hc.
      { apply H2. destruct (upper_char_cons c) as (n & l & Hn).
        rewrite Hn in E |- *. simpl in E. by injection E as -> _. }
      rewrite Hc in E. simpl in E. injection E as E.
      f_equal; [by apply H1 | by apply IH].
    + intros E. injection E as Ec Ey.
      apply H1 in Ec. rewrite Ec. simpl. f_equal. by apply IH.
Qed.

Lemma reserved_chars r :
  r ∈ WINDOWS_RESERVED → Forall (λ a, reserved_char a = true) (chars r).
Proof.
  intros Hr.
  assert (Forall (λ r, Forall (λ a, reserved_char a = true) (chars r))
            WINDOWS_RESERVED) as H by (repeat constructor).
  rewrite Forall_forall in H. by apply H.
Qed.

(** The test of the source is the specification's case-insensitive
    match. *)
Lemma in_reserved_spec s :
  in_reserved (Py.upper s) = true ↔ reserved_name s.
Proof.
  unfold in_reserved, reserved_name, same_nocase.
  rewrite existsb_exists. split.
  - intros (r & Hr & E). apply bool_decide_eq_true in E.
    apply list_elem_of_In in Hr. exists r. split; [done|].
    apply upper_codes_lower; [by apply reserved_chars | done].
  - intros (r & Hr & E). exists r. split; [by apply list_elem_of_In|].
    apply bool_decide_eq_true. symmetry.
    apply upper_codes_lower; [by apply reserved_chars | done].
Qed.

Lemma in_reserved_underscore s : in_reserved (Py.upper ("_" +:+ s)) = false.
Proof.
  apply not_true_is_false. intros H.
  unfold in_reserved in H. apply existsb_exists in H as (r & Hr & E).
  apply bool_decide_eq_true in E. simpl in Hr.
  repeat (destruct Hr as [<- | Hr]; [discriminate E|]). done.
Qed.

Lemma reserved_name_nonempty s : reserved_name s → s ≠ EmptyString.
Proof.
  intros (r & Hr & E) ->. unfold same_nocase in E.
  apply list_elem_of_In in Hr. simpl in Hr.
  repeat (destruct Hr as [<- | Hr]; [discriminate E|]). done.
Qed.

Lemma sanitize_filename_eq s :
  sanitize_filename s =
  let y := Py.strip (strip_illegal s) in
  if in_reserved (Py.upper y) then "_" +:+ y else y.
Proof. unfold sanitize_filename. by rewrite replace_loop_strip_illegal. Qed.

Lemma strip_illegal_strip_legal s c :
  c ∈ chars (Py.strip (strip_illegal s)) → illegal c = false.
Proof.
  intros H. apply strip_chars in H. apply strip_illegal_spec in H. tauto.
Qed.

Lemma sanitize_filename_legal s c :
  c ∈ chars (sanitize_filename s) → illegal c = false.
Proof.
  rewrite sanitize_filename_eq. cbv zeta.
  destruct (in_reserved _).
  - change ("_" +:+ ?y) with (String "_" y). rewrite chars_cons, elem_of_cons.
    intros [->|H]; [done | by eapply strip_illegal_strip_legal].
  - apply strip_illegal_strip_legal.
Qed.

Lemma strip_illegal_app s t :
  strip_illegal (s +:+ t) = strip_illegal s +:+ strip_illegal t.
Proof.
  induction s as [|c s IH]; [done|]. cbn [String.append strip_illegal].
  destruct (illegal c); [done|]. cbn [String.append]. by rewrite IH.
Qed.

Lemma sanitize_filename_idem s :
  sanitize_filename (sanitize_filename s) = sanitize_filename s.
Proof.
  rewrite (sanitize_filename_eq s). cbv zeta.
  set (y := Py.strip (strip_illegal s)).
  assert (strip_illegal y = y) as Hy.
  { apply strip_illegal_id. intros c. apply strip_illegal_strip_legal. }
  destruct (strip_trimmed (strip_illegal s)) as [Hs He]. fold y in Hs, He.
  destruct (in_reserved (Py.upper y)) eqn:Hres.
  - assert (y ≠ EmptyString) as Hne
      by (by apply reserved_name_nonempty, in_reserved_spec).
    rewrite sanitize_filename_eq. cbv zeta.
    change ("_" +:+ y) with (String "_" y). cbn [strip_illegal].
    change (illegal "_") with false. cbv iota. rewrite Hy.
    rewrite (strip_id (String "_" y)) by (by apply trimmed_cons).
    change (String "_" y) with ("_" +:+ y).
    by rewrite in_reserved_underscore.
  - rewrite sanitize_filename_eq. cbv zeta. rewrite Hy.
    rewrite (strip_id y) by done. by rewrite Hres.
Qed.
End sanitize.

(** C5. [sanitize_filename] removes every character of the illegal set
    (less-than, greater-than, colon, double quote, slash, backslash, bar,
    question mark, asterisk: none of the nine is left in the result, and
    the other characters keep their order), trims the whitespace around
    what is left and, when that equals a reserved device name up to case,
    puts an underscore in front; [sanitize_filename "CON"] is ["_CON"],
    [sanitize_filename "con"] starts with an underscore, and sanitizing
    twice is sanitizing once. *)
Theorem sanitize_contract (x : string) :
  let y := Py.strip (strip_illegal x) in
  (∀ c, c ∈ illegal_set → c ∉ chars (sanitize_filename x))
  ∧ (∀ c, c ∈ chars (strip_illegal x) ↔ c ∈ chars x ∧ c ∉ illegal_set)
  ∧ (∀ a b, strip_illegal (a +:+ b) = strip_illegal a +:+ strip_illegal b)
  ∧ (∀ c, strip_illegal (String c EmptyString)
          = if bool_decide (c ∈ illegal_set) then EmptyString
            else String c EmptyString)
  ∧ sanitize_filename
      (" a<b>c:d" +:+ String "034" "e/f\g|h?i*j ") = "abcdefghij"
  ∧ (∃ pre post, all_space pre ∧ all_space post
       ∧ strip_illegal x = pre +:+ y +:+ post ∧ trimmed y)
  ∧ (reserved_name y → sanitize_filename x = "_" +:+ y)
  ∧ (¬ reserved_name y → sanitize_filename x = y)
  ∧ sanitize_filename "CON" = "_CON"
  ∧ sanitize_filename "con" = "_con"
  ∧ sanitize_filename (sanitize_filename x) = sanitize_filename x.
Proof.
  intros y.
  split.
  { intros c Hc Hin. apply illegal_spec in Hc.
    apply sanitize_filename_legal in Hin. congruence. }
  split.
  { intros c. rewrite strip_illegal_spec, <- illegal_spec.
    split; intros [H1 H2]; (split; [done|]).
    - congruence.
    - by apply not_true_is_false. }
  split; [apply strip_illegal_app|].
  split.
  { intros c. cbn [strip_illegal]. pose proof (illegal_spec c) as [H1 H2].
    destruct (illegal c); case_bool_decide as Hc; try done.
    - exfalso. by apply Hc, H1.
    - by apply H2 in Hc. }
  split; [reflexivity|].
  split.
  { destruct (strip_split (strip_illegal x)) as (pre & post & H1 & H2 & H3).
    exists pre, post. repeat split; try done; apply strip_trimmed. }
  split.
  { intros H%in_reserved_spec. rewrite sanitize_filename_eq. cbv zeta.
    fold y. by rewrite H. }
  split.
  { intros H. rewrite sanitize_filename_eq. cbv zeta. fold y.
    destruct (in_reserved (Py.upper y)) eqn:E; [|done].
    by apply in_reserved_spec in E. }
  split; [reflexivity|]. split; [reflexivity|].
  apply sanitize_filename_idem.
Qed.

(** ** [unique_path] *)

Section unique_path.
Context (dir : gmap string (option json)) (base : string).

Lemma path_exists_true path :
  path_exists dir path = true ↔ path ∈ dom dir.
Proof.
  unfold path_exists. rewrite bool_decide_eq_true. symmetry.
  apply elem_of_dom.
Qed.

Lemma path_exists_false path :
  path_exists dir path = false ↔ dir !! path = None.
Proof.
  unfold path_exists. rewrite bool_decide_eq_false.
  by rewrite eq_None_not_Some.
Qed.

(** The loop stops at the first free candidate within its rounds. *)
Lemma unique_path_loop_first fuel i k :
  k < fuel →
  path_exists dir (json_file (suffixed base (i + k))) = false →
  (∀ j, j < k →
     path_exists dir (json_file (suffixed base (i + j))) = true) →
  unique_path_loop fuel dir base i =
  Some (suffixed base (i + k), json_file (suffixed base (i + k))).
Proof.
  revert i k. induction fuel as [|fuel IH]; intros i k Hk Hfree Hbusy;
    [lia|].
  cbn [unique_path_loop]. destruct k as [|k].
  - rewrite Nat.add_0_r in Hfree |- *. by rewrite Hfree.
  - specialize (Hbusy 0 ltac:(lia)) as H0. rewrite Nat.add_0_r in H0.
    rewrite H0. cbn [negb].
    replace (i + S k) with (S i + k) in * by lia.
    apply IH; [lia | done |]. intros j Hj.
    replace (S i + j) with (i + S j) by lia. apply Hbusy. lia.
Qed.

(** Among the first [n] candidates from [i] on, one is free or none is. *)
Lemma free_or_busy i n :
  (∃ k, k ∈ seq 0 n
     ∧ path_exists dir (json_file (suffixed base (i + k))) = false)
  ∨ ¬ (∃ k, k ∈ seq 0 n
     ∧ path_exists dir (json_file (suffixed base (i + k))) = false).
Proof.
  destruct (decide (Exists
      (λ k, path_exists dir (json_file (suffixed base (i + k))) = false)
      (seq 0 n))) as [H|H].
  - left. by apply Exists_exists in H.
  - right. intros H'. apply H. by apply Exists_exists.
Qed.

(** There are more candidates than entries in the directory. *)
Lemma free_candidate i :
  ∃ k, k ≤ size dir
    ∧ path_exists dir (json_file (suffixed base (i + k))) = false.
Proof.
  destruct (free_or_busy i (S (size dir))) as [(k & Hk & Hfree)|Hnone].
  { exists k. apply elem_of_seq in Hk. split; [lia | done]. }
  exfalso.
  set (names := (λ k, json_file (suffixed base (i + k)))
                  <$> seq 0 (S (size dir))).
  assert (NoDup names) as Hnd.
  { apply NoDup_fmap_2; [|apply NoDup_seq].
    intros k1 k2 E%json_file_inj%suffixed_inj. lia. }
  assert (list_to_set names ⊆ dom dir) as Hsub.
  { intros f Hf. apply elem_of_list_to_set in Hf.
    apply list_elem_of_fmap in Hf as (k & -> & Hk).
    apply path_exists_true.
    destruct (path_exists dir (json_file (suffixed base (i + k)))) eqn:E;
      [done|].
    destruct Hnone. eauto. }
  apply subseteq_size in Hsub.
  rewrite size_list_to_set, size_dom in Hsub by done.
  unfold names in Hsub. rewrite length_fmap, length_seq in Hsub. lia.
Qed.

(** The least free candidate from [i] on. *)
Lemma least_free_candidate i :
  ∃ k, k ≤ size dir
    ∧ path_exists dir (json_file (suffixed base (i + k))) = false
    ∧ ∀ j, j < k →
        path_exists dir (json_file (suffixed base (i + j))) = true.
Proof.
  destruct (free_candidate i) as (k0 & Hk0 & Hfree0).
  clear Hk0. revert Hfree0.
  induction k0 as [k0 IH] using lt_wf_ind. intros Hfree0.
  destruct (free_or_busy i k0) as [(j & Hj & Hfree)|Hnone].
  - apply elem_of_seq in Hj. apply (IH j); [lia | done].
  - destruct (free_candidate i) as (k1 & Hk1 & Hfree1).
    exists k0. split; [|split; [done|]].
    + destruct (decide (k0 ≤ size dir)); [done|].
      destruct Hnone. exists k1. split; [|done]. apply elem_of_seq. lia.
    + intros j Hj.
      destruct (path_exists dir (json_file (suffixed base (i + j)))) eqn:E;
        [done|].
      destruct Hnone. exists j. split; [|done]. apply elem_of_seq. lia.
Qed.
End unique_path.

(** What [unique_path] returns, for the proofs about its callers. *)
Lemma unique_path_resolves (dir : gmap string (option json)) (n : string) :
  ∃ final,
    unique_path dir n = Some (final, json_file final)
    ∧ path_exists dir (json_file final) = false
    ∧ (path_exists dir (json_file n) = false → final = n)
    ∧ (path_exists dir (json_file n) = true →
       ∃ i, 2 ≤ i ∧ final = suffixed n i
         ∧ ∀ j, 2 ≤ j < i →
             path_exists dir (json_file (suffixed n j)) = true).
Proof.
  unfold unique_path, unique_path_fuel.
  destruct (path_exists dir (json_file n)) eqn:Hn; cbn [negb].
  - destruct (least_free_candidate dir n 2) as (k & Hk & Hfree & Hbusy).
    exists (suffixed n (2 + k)).
    split; [apply unique_path_loop_first; [lia | done..]|].
    split; [done|]. split; [done|].
    intros _. exists (2 + k). split; [lia|]. split; [done|].
    intros j Hj. replace j with (2 + (j - 2)) by lia. apply Hbusy. lia.
  - exists n. repeat split; try done.
Qed.

(** C4. [unique_path] ends on every directory: it returns the name itself
    and its path when the name has no file, and otherwise the name with the
    suffix [-i] for the least [i >= 2] whose file does not exist.  More
    rounds than the directory has entries never change the result. *)
Theorem unique_path_total (dir : gmap string (option json)) (n : string) :
  ∃ final,
    unique_path dir n = Some (final, json_file final)
    ∧ path_exists dir (json_file final) = false
    ∧ (path_exists dir (json_file n) = false → final = n)
    ∧ (path_exists dir (json_file n) = true →
       ∃ i, 2 ≤ i ∧ final = suffixed n i
         ∧ ∀ j, 2 ≤ j < i →
             path_exists dir (json_file (suffixed n j)) = true)
    ∧ ∀ fuel, size dir < fuel →
        unique_path_fuel fuel dir n = Some (final, json_file final).
Proof.
  unfold unique_path, unique_path_fuel.
  destruct (path_exists dir (json_file n)) eqn:Hn; cbn [negb].
  - destruct (least_free_candidate dir n 2) as (k & Hk & Hfree & Hbusy).
    exists (suffixed n (2 + k)).
    split; [apply unique_path_loop_first; [lia | done..]|].
    split; [done|]. split; [done|]. split.
    + intros _. exists (2 + k). split; [lia|]. split; [done|].
      intros j Hj. replace j with (2 + (j - 2)) by lia. apply Hbusy. lia.
    + intros fuel Hfuel. apply unique_path_loop_first; [lia | done..].
  - exists n. repeat split; try done.
Qed.

(** ** The heap of objects *)

Section heap.
Implicit Types (w : world) (l : nat) (v : list json) (o : pyobj).

Lemma deref_alloc w v : deref (heap w ++ [PList v]) (length (heap w)) = v.
Proof.
  unfold deref. rewrite lookup_app_r by lia.
  by rewrite Nat.sub_diag.
Qed.

Lemma deref_alloc_old w o l :
  l < length (heap w) → deref (heap w ++ [o]) l = deref (heap w) l.
Proof. intros Hl. unfold deref. by rewrite lookup_app_l. Qed.

Lemma conversation_lookup w :
  conversation_of w ≠ [] →
  heap w !! mem w = Some (PList (conversation_of w)).
Proof.
  unfold conversation_of, deref. intros H.
  by destruct (heap w !! mem w) as [[v|m]|] eqn:E.
Qed.

Lemma conversation_allocated w :
  conversation_of w ≠ [] → mem w < length (heap w).
Proof. intros H%conversation_lookup. by apply lookup_lt_Some in H. Qed.

Lemma conversation_truthy w :
  conversation_of w ≠ [] → mem_truthy w = true.
Proof.
  intros H. unfold mem_truthy. rewrite (conversation_lookup w H). cbn.
  by destruct (conversation_of w).
Qed.

(** [bool(state.mem)]: a list with a message, or a dict with a member. *)
Lemma mem_truthy_cases w :
  mem_truthy w = true ↔
  conversation_of w ≠ []
  ∨ ∃ m, m ≠ [] ∧ heap w !! mem w = Some (PDict m).
Proof.
  unfold mem_truthy, conversation_of, deref.
  destruct (heap w !! mem w) as [[v|m]|]; cbn.
  - destruct v as [|x v].
    + split; [done | intros [?|(? & ? & ?)]; done].
    + split; [intros _; by left | done].
  - destruct m as [|kv m].
    + split; [done | intros [?|(? & ? & [= <-])]; done].
    + split; [|done]. intros _. right. by exists (kv :: m).
  - split; [done | intros [?|(? & ? & ?)]; done].
Qed.

Lemma list_append_list w l v x :
  heap w !! l = Some (PList v) →
  list_append l x w = Returns tt (list_push l x w).
Proof. unfold list_append. by intros ->. Qed.

Lemma list_append_dict w l m x :
  heap w !! l = Some (PDict m) →
  list_append l x w = Raises AttributeError w.
Proof. unfold list_append. by intros ->. Qed.

Lemma list_push_lookup w l v x :
  heap w !! l = Some (PList v) →
  heap (list_push l x w) !! l = Some (PList (v ++ [x])).
Proof. intros H. cbn. by rewrite list_lookup_alter_eq, H. Qed.

Lemma conversation_append w x :
  conversation_of w ≠ [] →
  list_append (mem w) x w = Returns tt (list_push (mem w) x w)
  ∧ conversation_of (list_push (mem w) x w) = conversation_of w ++ [x].
Proof.
  intros H. pose proof (conversation_lookup w H) as E.
  split; [by eapply list_append_list|].
  unfold conversation_of at 1, deref. cbn [mem list_push with_heap].
  by rewrite (list_push_lookup w _ _ x E).
Qed.

Lemma list_push_other w l l' x :
  l' ≠ l → heap (list_push l x w) !! l' = heap w !! l'.
Proof. intros H. cbn. by rewrite list_lookup_alter_ne. Qed.

Lemma list_push_length w l x :
  length (heap (list_push l x w)) = length (heap w).
Proof. cbn. by rewrite length_alter. Qed.

Lemma obj_clear_other w l l' :
  l' ≠ l → heap (obj_clear l w) !! l' = heap w !! l'.
Proof. intros H. cbn. by rewrite list_lookup_alter_ne. Qed.

Lemma obj_clear_length w l :
  length (heap (obj_clear l w)) = length (heap w).
Proof. cbn. by rewrite length_alter. Qed.

Lemma obj_clear_falsy w : mem_truthy (obj_clear (mem w) w) = false.
Proof.
  unfold mem_truthy. cbn. rewrite list_lookup_alter_eq.
  by destruct (heap w !! mem w) as [[v|m]|].
Qed.

Lemma obj_clear_conversation w : conversation_of (obj_clear (mem w) w) = [].
Proof.
  unfold conversation_of, deref. cbn. rewrite list_lookup_alter_eq.
  by destruct (heap w !! mem w) as [[v|m]|].
Qed.

(** The world [state.mem.append(x)] ends in, returning or raising. *)
Lemma final_list_append w l x :
  final (list_append l x w) = list_push l x w
  ∨ final (list_append l x w) = w.
Proof.
  unfold list_append. destruct (heap w !! l) as [[v|m]|]; cbn; auto.
Qed.

(** A change of the object at [mem w] leaves every other object as it
    is. *)
Lemma mutate_other m w l :
  l ≠ mem w → heap (mutate m w) !! l = heap w !! l.
Proof.
  intros Hl. destruct m as [x|]; cbn [mutate].
  - destruct (final_list_append w (mem w) x) as [-> | ->]; [|done].
    by apply list_push_other.
  - by apply obj_clear_other.
Qed.

Lemma mutate_frame m w :
  mem (mutate m w) = mem w
  ∧ current_name (mutate m w) = current_name w
  ∧ history (mutate m w) = history w
  ∧ history_by_name (mutate m w) = history_by_name w
  ∧ files (mutate m w) = files w
  ∧ stdout (mutate m w) = stdout w.
Proof.
  destruct m as [x|]; cbn [mutate]; [|done].
  by destruct (final_list_append w (mem w) x) as [-> | ->].
Qed.
End heap.

(** ** [save_conversation] and [load_conversation] *)

Section save_load.
Context (E : env).
Implicit Types (w : world) (name final : string).

Lemma save_conversation_empty name w :
  mem_truthy w = false → save_conversation E name w = Returns tt w.
Proof. unfold save_conversation. by intros ->. Qed.

Lemma copy_mem_list w :
  conversation_of w ≠ [] →
  copy_mem w = (RList (length (heap w)), copied w).
Proof.
  intros H. unfold copy_mem, obj_copy, alloc, copied.
  by rewrite (conversation_lookup w H).
Qed.

Lemma copy_mem_dict w m :
  heap w !! mem w = Some (PDict m) → copy_mem w = (RVal (JObj m), w).
Proof. unfold copy_mem. by intros ->. Qed.

Lemma save_conversation_writes name final w :
  conversation_of w ≠ [] →
  unique_path (files w) name = Some (final, json_file final) →
  writable E (json_file final) = true →
  save_conversation E name w = Returns tt (saved E final w).
Proof.
  intros Hc Hu Hw. unfold save_conversation.
  rewrite (conversation_truthy w Hc), (copy_mem_list w Hc). cbn.
  rewrite Hu, Hw. cbn. unfold saved. by rewrite deref_alloc.
Qed.

Lemma save_conversation_refused name final w :
  conversation_of w ≠ [] →
  unique_path (files w) name = Some (final, json_file final) →
  writable E (json_file final) = false →
  save_conversation E name w = Raises IOFailure (copied w).
Proof.
  intros Hc Hu Hw. unfold save_conversation.
  rewrite (conversation_truthy w Hc), (copy_mem_list w Hc). cbn.
  by rewrite Hu, Hw.
Qed.

Lemma save_conversation_writes_dict name final w m :
  heap w !! mem w = Some (PDict m) → m ≠ [] →
  unique_path (files w) name = Some (final, json_file final) →
  writable E (json_file final) = true →
  save_conversation E name w = Returns tt (saved_dict E final m w).
Proof.
  intros Hm Hne Hu Hw. unfold save_conversation.
  assert (mem_truthy w = true) as ->
    by (apply mem_truthy_cases; right; by exists m).
  rewrite (copy_mem_dict w m Hm). cbn. by rewrite Hu, Hw.
Qed.

Lemma save_conversation_refused_dict name final w m :
  heap w !! mem w = Some (PDict m) → m ≠ [] →
  unique_path (files w) name = Some (final, json_file final) →
  writable E (json_file final) = false →
  save_conversation E name w = Raises IOFailure w.
Proof.
  intros Hm Hne Hu Hw. unfold save_conversation.
  assert (mem_truthy w = true) as ->
    by (apply mem_truthy_cases; right; by exists m).
  rewrite (copy_mem_dict w m Hm). cbn. by rewrite Hu, Hw.
Qed.

(** The name [unique_path] resolves to, and that no file has it. *)
Lemma resolved name w :
  ∃ final,
    unique_path (files w) name = Some (final, json_file final)
    ∧ files w !! json_file final = None.
Proof.
  destruct (unique_path_resolves (files w) name) as (final & Hu & Hfree & _).
  exists final. split; [done | by apply path_exists_false].
Qed.

Lemma save_conversation_returns name w :
  conversation_of w ≠ [] →
  ∃ final,
    unique_path (files w) name = Some (final, json_file final)
    ∧ files w !! json_file final = None
    ∧ (writable E (json_file final) = true →
       save_conversation E name w = Returns tt (saved E final w))
    ∧ (writable E (json_file final) = false →
       save_conversation E name w = Raises IOFailure (copied w)).
Proof.
  intros Hc. destruct (resolved name w) as (final & Hu & Hf).
  exists final. split; [done|]. split; [done|].
  split; intros Hw;
    [by apply save_conversation_writes | by eapply save_conversation_refused].
Qed.

(** Every outcome of [save_conversation]. *)
Lemma save_conversation_cases name w :
  (mem_truthy w = false ∧ save_conversation E name w = Returns tt w)
  ∨ ∃ final,
      unique_path (files w) name = Some (final, json_file final)
      ∧ files w !! json_file final = None
      ∧ ((conversation_of w ≠ []
          ∧ ((writable E (json_file final) = true
              ∧ save_conversation E name w = Returns tt (saved E final w))
             ∨ (writable E (json_file final) = false
                ∧ save_conversation E name w = Raises IOFailure (copied w))))
         ∨ ∃ m, m ≠ [] ∧ heap w !! mem w = Some (PDict m)
             ∧ ((writable E (json_file final) = true
                 ∧ save_conversation E name w
                   = Returns tt (saved_dict E final m w))
                ∨ (writable E (json_file final) = false
                   ∧ save_conversation E name w = Raises IOFailure w))).
Proof.
  destruct (mem_truthy w) eqn:Ht.
  - right. destruct (resolved name w) as (final & Hu & Hf).
    exists final. split; [done|]. split; [done|].
    apply mem_truthy_cases in Ht as [Hc | (m & Hne & Hm)].
    + left. split; [done|].
      destruct (writable E (json_file final)) eqn:Hw; [left | right];
        (split; [done|]);
        [by apply save_conversation_writes
        | by eapply save_conversation_refused].
    + right. exists m. split; [done|]. split; [done|].
      destruct (writable E (json_file final)) eqn:Hw; [left | right];
        (split; [done|]);
        [by apply save_conversation_writes_dict
        | by eapply save_conversation_refused_dict].
  - left. split; [done | by apply save_conversation_empty].
Qed.
End save_load.

(** C6, as the code has it.  On an empty active conversation
    [save_conversation] changes nothing: no file, no catalog entry, no
    bound name.  On a non-empty one
    it resolves a unique name from the desired one and opens a file of
    that name, which no file had.  When the file system creates the file,
    the record written has the final name, the current time as [created]
    and the messages of the active conversation; the record is appended to
    [history], entered in [history_by_name] under the final name, and that
    name is bound; the record holds a copy of the message list, a list
    object of its own.  When the file system refuses the file, the error
    leaves [save_conversation] and no file, catalog entry or binding has
    changed.  An active conversation that is a dict (the copy of a record
    whose conversation is a JSON object) is saved in the same way, with
    its members as the conversation. *)
Theorem save_contract (E : env) (name : string) (w : world) :
  (mem_truthy w = false → save_conversation E name w = Returns tt w)
  ∧ (mem_truthy w = false ↔
     conversation_of w = []
     ∧ ∀ m, heap w !! mem w = Some (PDict m) → m = [])
  ∧ (conversation_of w ≠ [] →
     ∃ final,
       unique_path (files w) name = Some (final, json_file final)
       ∧ files w !! json_file final = None
       ∧ (writable E (json_file final) = true →
          ∃ w',
            save_conversation E name w = Returns tt w'
            ∧ files w' =
                <[json_file final :=
                    Some (JObj [("name", JStr final);
                                ("created", JStr (now_iso E));
                                ("conversation", JArr (conversation_of w))])]>
                  (files w)
            ∧ (∃ e,
                 e_name e = JStr final ∧ e_created e = JStr (now_iso E)
                 ∧ history w' = history w ++ [e]
                 ∧ history_by_name w'
                   = <[KStr final := e]> (history_by_name w)
                 ∧ ∃ c, e_conversation e = RList c ∧ c ≠ mem w
                     ∧ heap w !! c = None
                     ∧ heap w' !! c = Some (PList (conversation_of w)))
            ∧ (∀ l, l < length (heap w) → heap w' !! l = heap w !! l)
            ∧ stored_conversation w' final = Some (conversation_of w)
            ∧ current_name w' = Some final
            ∧ mem w' = mem w
            ∧ conversation_of w' = conversation_of w
            ∧ stdout w' = stdout w)
       ∧ (writable E (json_file final) = false →
          ∃ w',
            save_conversation E name w = Raises IOFailure w'
            ∧ files w' = files w
            ∧ history w' = history w
            ∧ history_by_name w' = history_by_name w
            ∧ current_name w' = current_name w
            ∧ mem w' = mem w
            ∧ (∀ l, l < length (heap w) → heap w' !! l = heap w !! l)
            ∧ conversation_of w' = conversation_of w
            ∧ stdout w' = stdout w))
  ∧ (∀ m, heap w !! mem w = Some (PDict m) → m ≠ [] →
     ∃ final,
       unique_path (files w) name = Some (final, json_file final)
       ∧ files w !! json_file final = None
       ∧ (writable E (json_file final) = true →
          ∃ w',
            save_conversation E name w = Returns tt w'
            ∧ files w' =
                <[json_file final :=
                    Some (JObj [("name", JStr final);
                                ("created", JStr (now_iso E));
                                ("conversation", JObj m)])]> (files w)
            ∧ history w'
              = history w
                ++ [Entry (JStr final) (JStr (now_iso E)) (RVal (JObj m))]
            ∧ history_by_name w'
              = <[KStr final :=
                    Entry (JStr final) (JStr (now_iso E)) (RVal (JObj m))]>
                  (history_by_name w)
            ∧ current_name w' = Some final
            ∧ mem w' = mem w ∧ heap w' = heap w ∧ stdout w' = stdout w)
       ∧ (writable E (json_file final) = false →
          save_conversation E name w = Raises IOFailure w)).
Proof.
  split; [apply save_conversation_empty|].
  split.
  { pose proof (mem_truthy_cases w) as Hc.
    destruct (mem_truthy w); split; try done.
    - intros [H1 H2]. exfalso.
      destruct (proj1 Hc eq_refl) as [H | (m & Hne & Hm)]; [done|].
      by apply Hne, H2.
    - intros _. split.
      + destruct (conversation_of w) eqn:Hconv; [done|]. exfalso.
        assert (false = true) as H by (apply Hc; left; congruence). done.
      + intros m Hm. destruct m as [|kv m]; [done|]. exfalso.
        assert (false = true) as H
          by (apply Hc; right; by exists (kv :: m)). done. }
  split.
  { intros Hc.
    destruct (save_conversation_returns E name w Hc)
      as (final & Hu & Hf & Hs & Hr).
    pose proof (conversation_allocated w Hc) as Hm.
    exists final. split; [done|]. split; [done|]. split; intros Hw.
    - exists (saved E final w). split; [by apply Hs|]. split; [done|].
      split.
      { exists (Entry (JStr final) (JStr (now_iso E))
                  (RList (length (heap w)))).
        repeat (split; [reflexivity|]).
        exists (length (heap w)). split; [done|]. split; [lia|]. cbn.
        split; [apply lookup_ge_None; lia|].
        rewrite lookup_app_r by lia. by rewrite Nat.sub_diag. }
      split; [intros l Hl; cbn; by rewrite lookup_app_l|].
      split.
      { unfold stored_conversation. cbn. rewrite lookup_insert_eq. cbn.
        rewrite lookup_app_r by lia. by rewrite Nat.sub_diag. }
      repeat (split; [done|]). split; [|done].
      unfold conversation_of at 1. cbn. by rewrite deref_alloc_old.
    - exists (copied w). split; [by apply Hr|].
      repeat (split; [done|]).
      split; [intros l Hl; cbn; by rewrite lookup_app_l|].
      split; [|done].
      unfold conversation_of at 1. cbn. by rewrite deref_alloc_old. }
  intros m Hm Hne. destruct (resolved name w) as (final & Hu & Hf).
  exists final. split; [done|]. split; [done|]. split; intros Hw.
  - exists (saved_dict E final m w).
    split; [by apply save_conversation_writes_dict|]. done.
  - by eapply save_conversation_refused_dict.
Qed.

Section load.
Implicit Types (w : world) (name : string).

Lemma load_conversation_missing name w :
  history_by_name w !! KStr name = None →
  load_conversation name w =
  Returns tt (print "No conversation found with that name." w).
Proof. unfold load_conversation. by intros ->. Qed.

Lemma load_conversation_hit name w e l :
  history_by_name w !! KStr name = Some e →
  e_conversation e = RList l →
  load_conversation name w =
  Returns tt (loaded name (default (PList []) (heap w !! l)) w).
Proof. unfold load_conversation. by intros -> ->. Qed.

Lemma load_conversation_hit_list name w e l conv :
  history_by_name w !! KStr name = Some e →
  e_conversation e = RList l →
  heap w !! l = Some (PList conv) →
  load_conversation name w = Returns tt (loaded name (PList conv) w).
Proof.
  intros He Hl Hc. rewrite (load_conversation_hit name w e l He Hl).
  by rewrite Hc.
Qed.

(** A record whose conversation is a JSON object: the copy is a dict. *)
Lemma load_conversation_hit_dict name w e m :
  history_by_name w !! KStr name = Some e →
  e_conversation e = RVal (JObj m) →
  load_conversation name w = Returns tt (loaded name (PDict m) w).
Proof. unfold load_conversation. by intros -> ->. Qed.

Lemma mutations_frame ms w :
  mem (mutations ms w) = mem w
  ∧ current_name (mutations ms w) = current_name w
  ∧ history (mutations ms w) = history w
  ∧ history_by_name (mutations ms w) = history_by_name w
  ∧ files (mutations ms w) = files w
  ∧ stdout (mutations ms w) = stdout w.
Proof.
  revert w. induction ms as [|m ms IH]; intros w; [done|].
  cbn [mutations foldl]. fold (mutations ms (mutate m w)).
  destruct (IH (mutate m w)) as (-> & -> & -> & -> & -> & ->).
  apply mutate_frame.
Qed.

Lemma mutations_other ms w l :
  l ≠ mem w → heap (mutations ms w) !! l = heap w !! l.
Proof.
  revert w. induction ms as [|m ms IH]; intros w Hl; [done|].
  cbn [mutations foldl]. fold (mutations ms (mutate m w)).
  rewrite IH by (by destruct (mutate_frame m w) as (-> & _)).
  by apply mutate_other.
Qed.

(** Whatever is done in place to the active conversation, a record whose
    list object is another one keeps its messages. *)
Lemma stored_conversation_mutations ms w name e l :
  history_by_name w !! KStr name = Some e →
  e_conversation e = RList l →
  l ≠ mem w →
  stored_conversation (mutations ms w) name = stored_conversation w name.
Proof.
  intros He Hl Hne. unfold stored_conversation.
  destruct (mutations_frame ms w) as (_ & _ & _ & -> & _).
  rewrite He, Hl. by rewrite mutations_other.
Qed.
End load.

(** C7. Saving a non-empty conversation (the file system creating the
    file) binds the final name; whatever is then appended to or cleared
    from the active conversation, and also after [new], loading by the
    final name makes the active conversation the saved sequence, message
    for message, in a list object of its own, and binds that name.  The
    load copies the record's list: whatever is appended to or cleared from
    the active conversation afterwards, the record in the catalog and the
    file keep the saved messages. *)
Theorem save_load_roundtrip (E : env) (name final : string) (w : world)
    (ms : list mutation) :
  conversation_of w ≠ [] →
  unique_path (files w) name = Some (final, json_file final) →
  writable E (json_file final) = true →
  ∃ w1,
    save_conversation E name w = Returns tt w1
    ∧ current_name w1 = Some final
    ∧ ∀ w1',
        w1' = mutations ms w1 ∨ cmd_new (mutations ms w1) = Returns tt w1' →
        ∃ w2,
          load_conversation final w1' = Returns tt w2
          ∧ conversation_of w2 = conversation_of w
          ∧ current_name w2 = Some final
          ∧ mem w2 ≠ mem w1'
          ∧ heap w1' !! mem w2 = None
          ∧ stdout w2
            = stdout w1' ++ [Line ("Loaded conversation: " +:+ final)]
          ∧ stored_conversation w2 final = Some (conversation_of w)
          ∧ files w2 !! json_file final =
              Some (Some (JObj [("name", JStr final);
                                ("created", JStr (now_iso E));
                                ("conversation",
                                 JArr (conversation_of w))]))
          ∧ ∀ ms',
              stored_conversation (mutations ms' w2) final
                = Some (conversation_of w)
              ∧ files (mutations ms' w2) = files w2.
Proof.
  intros Hc Hu Hw.
  pose proof (save_conversation_writes E name final w Hc Hu Hw) as Hs.
  pose proof (conversation_allocated w Hc) as Hlive.
  set (conv := conversation_of w) in *.
  set (w1 := saved E final w) in *.
  set (e := Entry (JStr final) (JStr (now_iso E)) (RList (length (heap w)))).
  assert (history_by_name w1 !! KStr final = Some e) as He
    by apply lookup_insert_eq.
  assert (heap w1 !! length (heap w) = Some (PList conv)) as Hd.
  { cbn. rewrite lookup_app_r by lia. by rewrite Nat.sub_diag. }
  assert (length (heap w) ≠ mem w1) as Hne by (cbn; lia).
  destruct (mutations_frame ms w1) as (Hm1 & Hn1 & Hh1 & Hk1 & Hf1 & Ho1).
  pose proof (mutations_other ms w1 _ Hne) as Hcell.
  exists w1. split; [done|]. split; [done|].
  intros w1' Hw1'.
  assert (history_by_name w1' = history_by_name w1
          ∧ files w1' = files w1
          ∧ mem w1' = mem w
          ∧ heap w1' !! length (heap w) = Some (PList conv)) as (Hk & Hf & Hm & Hl).
  { destruct Hw1' as [-> | Hnew].
    - by rewrite Hk1, Hf1, Hm1, Hcell.
    - unfold cmd_new in Hnew. injection Hnew as <-.
      split; [exact Hk1|]. split; [exact Hf1|]. split; [exact Hm1|].
      change (heap (obj_clear (mem (mutations ms w1)) (mutations ms w1))
                !! length (heap w) = Some (PList conv)).
      rewrite obj_clear_other by (rewrite Hm1; cbn; lia).
      by rewrite Hcell. }
  rewrite <- Hk in He.
  exists (loaded final (PList conv) w1').
  split; [by eapply load_conversation_hit_list|].
  pose proof (lookup_lt_Some _ _ _ Hl) as Hlen.
  split.
  { unfold conversation_of. cbn [loaded mem heap]. apply deref_alloc. }
  split; [done|].
  split; [cbn; lia|].
  split; [cbn; apply lookup_ge_None; lia|].
  split; [done|].
  assert (stored_conversation (loaded final (PList conv) w1') final
          = Some conv) as Hst.
  { unfold stored_conversation. cbn [loaded history_by_name heap].
    rewrite He. cbn [e e_conversation]. by rewrite lookup_app_l, Hl. }
  split; [done|].
  split; [cbn; rewrite Hf; apply lookup_insert_eq|].
  intros ms'. split.
  - rewrite <- Hst.
    eapply stored_conversation_mutations; [exact He | done |].
    cbn [loaded mem]. lia.
  - apply mutations_frame.
Qed.

Lemma save_load_roundtrip_witness :
  (conversation_of W_chat ≠ []
   ∧ unique_path (files W_chat) "trip" = Some ("trip", json_file "trip")
   ∧ writable E_title (json_file "trip") = true)
  ∧ ∃ w1 w1' w2,
      save_conversation E_title "trip" W_chat = Returns tt w1
      ∧ cmd_new (mutations [Append (message "user" "more")] w1)
        = Returns tt w1'
      ∧ conversation_of w1' = []
      ∧ load_conversation "trip" w1' = Returns tt w2
      ∧ conversation_of w2 = conversation_of W_chat.
Proof.
  assert (conversation_of W_chat ≠ []) as H by discriminate.
  assert (unique_path (files W_chat) "trip" = Some ("trip", json_file "trip"))
    as Hu by (vm_compute; reflexivity).
  assert (writable E_title (json_file "trip") = true) as Hw
    by (vm_compute; reflexivity).
  split; [by repeat split|].
  destruct (save_load_roundtrip E_title "trip" "trip" W_chat
              [Append (message "user" "more")] H Hu Hw)
    as (w1 & H1 & _ & H2).
  destruct (cmd_new (mutations [Append (message "user" "more")] w1))
    as [[] w1'|] eqn:Hn; [|discriminate Hn].
  destruct (H2 w1' (or_intror eq_refl)) as (w2 & H3 & H4 & _).
  exists w1, w1', w2. repeat (split; [done|]). split; [|done].
  unfold cmd_new in Hn. injection Hn as <-.
  apply obj_clear_conversation.
Defined.

Lemma save_contract_witness :
  (conversation_of W_chat ≠ []
   ∧ writable E_title (json_file "trip") = true
   ∧ writable E_title (json_file "a/b") = false)
  ∧ (∃ w',
       save_conversation E_title "trip" W_chat = Returns tt w'
       ∧ current_name w' = Some "trip"
       ∧ stored_conversation w' "trip" = Some (conversation_of W_chat))
  ∧ ∃ w',
      save_conversation E_title "a/b" W_chat = Raises IOFailure w'
      ∧ files w' = files W_chat
      ∧ current_name w' = current_name W_chat.
Proof.
  assert (conversation_of W_chat ≠ []) as H by discriminate.
  assert (writable E_title (json_file "trip") = true) as Hw
    by (vm_compute; reflexivity).
  assert (writable E_title (json_file "a/b") = false) as Hw'
    by (vm_compute; reflexivity).
  split; [by repeat split|].
  split.
  - destruct (proj1 (proj2 (proj2 (save_contract E_title "trip" W_chat))) H)
      as (final & Hu & _ & Hs & _).
    assert (final = "trip") as ->.
    { assert (unique_path (files W_chat) "trip"
              = Some ("trip", json_file "trip")) as Hu'
        by (vm_compute; reflexivity).
      rewrite Hu' in Hu. by injection Hu as <-. }
    destruct (Hs Hw) as (w' & H1 & _ & _ & _ & H2 & H3 & _).
    by exists w'.
  - destruct (proj1 (proj2 (proj2 (save_contract E_title "a/b" W_chat))) H)
      as (final & Hu & _ & _ & Hr).
    assert (final = "a/b") as ->.
    { assert (unique_path (files W_chat) "a/b"
              = Some ("a/b", json_file "a/b")) as Hu'
        by (vm_compute; reflexivity).
      rewrite Hu' in Hu. by injection Hu as <-. }
    destruct (Hr Hw') as (w' & H1 & H2 & _ & _ & H3 & _).
    by exists w'.
Defined.

(** C6 as stated fails when the file system refuses the file: the desired
    name [a/b] is free, the conversation is not empty, and
    [save_conversation] ends in the error of [open] with no file written,
    nothing entered in the catalog and no name bound. *)
Lemma save_refused_writes_nothing :
  conversation_of W_chat ≠ []
  ∧ unique_path (files W_chat) "a/b" = Some ("a/b", json_file "a/b")
  ∧ writable E_title (json_file "a/b") = false
  ∧ save_conversation E_title "a/b" W_chat
    = Raises IOFailure (copied W_chat)
  ∧ files (copied W_chat) = files W_chat
  ∧ files (copied W_chat) !! json_file "a/b" = None
  ∧ history (copied W_chat) = history W_chat
  ∧ history_by_name (copied W_chat) = history_by_name W_chat
  ∧ current_name (copied W_chat) = None.
Proof.
  split; [discriminate|]. split; [vm_compute; reflexivity|].
  split; [vm_compute; reflexivity|]. split; [vm_compute; reflexivity|].
  repeat split.
Qed.

(** ** [cmd_compress] *)

Section compress.
Context (E : env).
Implicit Types (w : world).

Lemma compress_sends w :
  conversation_of w ≠ [] →
  cmd_compress (model_reply E) w =
  let w1 := list_push (mem w) (message "user" COMPRESS_PROMPT) w in
  match chat E (conversation_of w ++ [message "user" COMPRESS_PROMPT]) with
  | Some text =>
      Returns tt
        (print "Conversation compressed."
           (with_mem (length (heap w1))
              (with_heap
                 (heap w1 ++ [PList [message "assistant" (Py.strip text)]])
                 w1)))
  | None => Raises ModelCallFailure w1
  end.
Proof.
  intros Hc. unfold cmd_compress.
  rewrite (conversation_truthy w Hc). cbn [negb].
  destruct (conversation_append w (message "user" COMPRESS_PROMPT) Hc)
    as [-> Hconv].
  cbn [bind]. rewrite Hconv. unfold model_reply. cbv zeta.
  by destruct (chat E _).
Qed.

(** On a dict, [append] raises before the model is asked. *)
Lemma compress_dict w m (reply : list json → world → result string) :
  heap w !! mem w = Some (PDict m) → m ≠ [] →
  cmd_compress reply w = Raises AttributeError w.
Proof.
  intros Hm Hne. unfold cmd_compress.
  assert (mem_truthy w = true) as ->
    by (apply mem_truthy_cases; right; by exists m).
  cbn [negb]. by rewrite (list_append_dict w _ m _ Hm).
Qed.

Lemma compress_empty w (reply : list json → world → result string) :
  mem_truthy w = false →
  cmd_compress reply w = Returns tt (print "Nothing to compress." w).
Proof. unfold cmd_compress. by intros ->. Qed.
End compress.

(** C2, as the code has it.  When the model call raises during
    [cmd_compress], the error leaves the command with the instruction
    message appended to the active conversation: the messages it had are
    all there, in order, followed by the instruction.  Bound name, catalog,
    files and terminal are as before. *)
Theorem compress_failure (E : env) (w : world) :
  conversation_of w ≠ [] →
  chat E (conversation_of w ++ [message "user" COMPRESS_PROMPT]) = None →
  ∃ w',
    cmd_compress (model_reply E) w = Raises ModelCallFailure w'
    ∧ conversation_of w' =
        conversation_of w ++ [message "user" COMPRESS_PROMPT]
    ∧ mem w' = mem w
    ∧ current_name w' = current_name w
    ∧ history w' = history w
    ∧ history_by_name w' = history_by_name w
    ∧ files w' = files w
    ∧ stdout w' = stdout w.
Proof.
  intros Hc Hchat. rewrite compress_sends by done. cbv zeta. rewrite Hchat.
  eexists. split; [reflexivity|]. split; [by apply conversation_append|].
  done.
Qed.

Lemma compress_failure_witness :
  conversation_of W_chat ≠ []
  ∧ chat E_down (conversation_of W_chat ++ [message "user" COMPRESS_PROMPT])
    = None
  ∧ ∃ w',
      cmd_compress (model_reply E_down) W_chat = Raises ModelCallFailure w'
      ∧ conversation_of w' =
          conversation_of W_chat ++ [message "user" COMPRESS_PROMPT].
Proof.
  assert (conversation_of W_chat ≠ []) as H by discriminate.
  split; [exact H|]. split; [reflexivity|].
  destruct (compress_failure E_down W_chat H eq_refl) as (w' & H1 & H2 & _).
  by exists w'.
Defined.

(** C2 as stated fails: with the model down, [cmd_compress] leaves a
    conversation of three messages where there were two. *)
Lemma compress_not_atomic :
  conversation_of W_chat ≠ []
  ∧ ∃ w',
      cmd_compress (model_reply E_down) W_chat = Raises ModelCallFailure w'
      ∧ conversation_of W_chat =
          [message "user" "hello"; message "assistant" "hi"]
      ∧ conversation_of w' =
          [message "user" "hello"; message "assistant" "hi";
           message "user" COMPRESS_PROMPT]
      ∧ conversation_of w' ≠ conversation_of W_chat.
Proof.
  split; [discriminate|]. eexists. split; [reflexivity|].
  split; [reflexivity|]. split; [reflexivity|]. discriminate.
Qed.

(** ** [cmd_delete] *)

Section delete.
Implicit Types (w : world) (n : string) (e : entry).

Lemma json_ne_str_true (v : json) n : json_ne_str v n = true ↔ v ≠ JStr n.
Proof.
  destruct v; cbn; try (split; [discriminate | done]).
  destruct (String.eqb_spec s n) as [->|Hne]; cbn.
  - split; [discriminate | by intros []].
  - split; [congruence | done].
Qed.

Lemma filter_kept {A} (f : A → bool) (l : list A) x :
  x ∈ List.filter f l ↔ x ∈ l ∧ f x = true.
Proof. rewrite !list_elem_of_In. apply filter_In. Qed.

Lemma filter_sublist {A} (f : A → bool) (l : list A) :
  sublist (List.filter f l) l.
Proof.
  induction l as [|x l IH]; cbn; [constructor|].
  destruct (f x); by constructor.
Qed.

Lemma cmd_delete_usage E w :
  cmd_delete E EmptyString w = Returns tt (print "Usage: delete <name>" w).
Proof. done. Qed.

Lemma cmd_delete_not_found E n w :
  n ≠ EmptyString →
  history_by_name w !! KStr n = None →
  cmd_delete E n w =
  Returns tt (print "No conversation found with that name." w).
Proof.
  intros Hn Hk. unfold cmd_delete.
  apply truthy_true in Hn. rewrite Hn, Hk. done.
Qed.

Lemma cmd_delete_file_missing E n w :
  n ≠ EmptyString →
  is_Some (history_by_name w !! KStr n) →
  files w !! json_file n = None →
  cmd_delete E n w =
  Returns tt (print "Conversation file not found on disk." w).
Proof.
  intros Hn [e Hk] Hf. unfold cmd_delete.
  apply truthy_true in Hn. rewrite Hn, Hk. cbn [negb].
  apply path_exists_false in Hf. by rewrite Hf.
Qed.

Lemma cmd_delete_refused E n w :
  n ≠ EmptyString →
  is_Some (history_by_name w !! KStr n) →
  is_Some (files w !! json_file n) →
  removable E (json_file n) = false →
  cmd_delete E n w = Raises IOFailure w.
Proof.
  intros Hn [e Hk] Hf Hr. unfold cmd_delete.
  apply truthy_true in Hn. rewrite Hn, Hk. cbn [negb].
  assert (path_exists (files w) (json_file n) = true) as ->.
  { apply path_exists_true. by apply elem_of_dom. }
  by rewrite Hr.
Qed.

Lemma cmd_delete_deletes E n w :
  n ≠ EmptyString →
  is_Some (history_by_name w !! KStr n) →
  is_Some (files w !! json_file n) →
  removable E (json_file n) = true →
  cmd_delete E n w = Returns tt (deleted n w).
Proof.
  intros Hn [e Hk] Hf Hr. unfold cmd_delete.
  apply truthy_true in Hn. rewrite Hn, Hk. cbn [negb].
  assert (path_exists (files w) (json_file n) = true) as ->.
  { apply path_exists_true. by apply elem_of_dom. }
  rewrite Hr. cbn. unfold deleted. by destruct (bool_decide _).
Qed.

(** Every outcome of [cmd_delete]: a printed line, the record removed, or
    the error of [os.remove] with nothing changed. *)
Lemma cmd_delete_cases E n w :
  (∃ s, cmd_delete E n w = Returns tt (print s w))
  ∨ cmd_delete E n w = Returns tt (deleted n w)
    ∧ n ≠ EmptyString
    ∧ is_Some (history_by_name w !! KStr n)
    ∧ is_Some (files w !! json_file n)
  ∨ cmd_delete E n w = Raises IOFailure w.
Proof.
  destruct (decide (n = EmptyString)) as [-> | Hn];
    [left; eexists; apply cmd_delete_usage|].
  destruct (history_by_name w !! KStr n) as [e|] eqn:Hk;
    [|left; eexists; by apply cmd_delete_not_found].
  destruct (files w !! json_file n) as [c|] eqn:Hf;
    [|left; eexists; by apply cmd_delete_file_missing].
  destruct (removable E (json_file n)) eqn:Hr.
  - right. left. split; [by apply cmd_delete_deletes|]. by repeat split.
  - right. right. by apply cmd_delete_refused.
Qed.
End delete.

(** C8, as the code has it.  With no argument [cmd_delete] prints its
    usage line.  For a non-empty name: absent from the catalog, it reports
    that no conversation has that name; in the catalog without a file, it
    reports the missing file and keeps the catalog entry; in both cases
    nothing but the terminal changes.  Otherwise it asks the file system
    to remove the file.  When that fails, the error leaves [cmd_delete]
    and nothing has changed.  When the file is removed, every entry of
    [history] with that name and the key of [history_by_name] are removed
    too, the bound name is cleared exactly when it is that name, the
    active conversation is left alone, and a second delete of the name
    reports that no conversation has it. *)
Theorem delete_contract (E : env) (n : string) (w : world) :
  (n = EmptyString →
   cmd_delete E n w = Returns tt (print "Usage: delete <name>" w))
  ∧ (n ≠ EmptyString → history_by_name w !! KStr n = None →
     cmd_delete E n w =
     Returns tt (print "No conversation found with that name." w))
  ∧ (n ≠ EmptyString → is_Some (history_by_name w !! KStr n) →
     files w !! json_file n = None →
     cmd_delete E n w =
     Returns tt (print "Conversation file not found on disk." w))
  ∧ (n ≠ EmptyString → is_Some (history_by_name w !! KStr n) →
     is_Some (files w !! json_file n) →
     removable E (json_file n) = false →
     cmd_delete E n w = Raises IOFailure w)
  ∧ (n ≠ EmptyString → is_Some (history_by_name w !! KStr n) →
     is_Some (files w !! json_file n) →
     removable E (json_file n) = true →
     ∃ w',
       cmd_delete E n w = Returns tt w'
       ∧ files w' = delete (json_file n) (files w)
       ∧ history_by_name w' = delete (KStr n) (history_by_name w)
       ∧ (∀ e, e ∈ history w' ↔ e ∈ history w ∧ e_name e ≠ JStr n)
       ∧ sublist (history w') (history w)
       ∧ (current_name w = Some n → current_name w' = None)
       ∧ (current_name w ≠ Some n → current_name w' = current_name w)
       ∧ mem w' = mem w ∧ heap w' = heap w
       ∧ conversation_of w' = conversation_of w
       ∧ stdout w' = stdout w ++ [Line ("Deleted conversation: " +:+ n)]
       ∧ cmd_delete E n w' =
           Returns tt (print "No conversation found with that name." w')).
Proof.
  split; [intros ->; apply cmd_delete_usage|].
  split; [apply cmd_delete_not_found|].
  split; [apply cmd_delete_file_missing|].
  split; [apply cmd_delete_refused|].
  intros Hn Hk Hf Hr. exists (deleted n w).
  split; [by apply cmd_delete_deletes|].
  split; [done|]. split; [done|].
  split.
  { intros e. cbn [deleted history]. rewrite filter_kept.
    by rewrite json_ne_str_true. }
  split; [apply filter_sublist|].
  split; [intros H; cbn; by rewrite bool_decide_eq_true_2|].
  split; [intros H; cbn; by rewrite bool_decide_eq_false_2|].
  split; [done|]. split; [done|]. split; [done|]. split; [done|].
  apply cmd_delete_not_found; [done|]. apply lookup_delete_eq.
Qed.

Lemma delete_contract_witness :
  ("trip" ≠ EmptyString ∧ is_Some (history_by_name W_bound !! KStr "trip")
   ∧ is_Some (files W_bound !! json_file "trip")
   ∧ removable E_title (json_file "trip") = true
   ∧ removable E_locked (json_file "trip") = false)
  ∧ (∃ w',
       cmd_delete E_title "trip" W_bound = Returns tt w'
       ∧ current_name w' = None
       ∧ conversation_of w' = conversation_of W_bound)
  ∧ cmd_delete E_locked "trip" W_bound = Raises IOFailure W_bound.
Proof.
  assert ("trip" ≠ EmptyString) as H1 by discriminate.
  assert (is_Some (history_by_name W_bound !! KStr "trip")) as H2
    by (by eexists).
  assert (is_Some (files W_bound !! json_file "trip")) as H3 by (by eexists).
  split; [done|]. split.
  - destruct (proj2 (proj2 (proj2 (proj2
                (delete_contract E_title "trip" W_bound)))) H1 H2 H3 eq_refl)
      as (w' & Hd & _ & _ & _ & _ & Hb & _ & _ & _ & Hc & _).
    exists w'. split; [done|]. split; [by apply Hb | done].
  - exact (proj1 (proj2 (proj2 (proj2
             (delete_contract E_locked "trip" W_bound)))) H1 H2 H3 eq_refl).
Defined.

(** C8 as stated fails at the empty name: it is absent from the catalog
    and [cmd_delete] answers with the usage line, not with the report that
    no conversation has that name. *)
Lemma delete_empty_name_is_usage :
  history_by_name (boot ∅) !! KStr EmptyString = None
  ∧ cmd_delete E_title EmptyString (boot ∅) =
      Returns tt (print "Usage: delete <name>" (boot ∅))
  ∧ cmd_delete E_title EmptyString (boot ∅) ≠
      Returns tt (print "No conversation found with that name." (boot ∅)).
Proof.
  split; [reflexivity|]. split; [reflexivity|].
  rewrite cmd_delete_usage. intros H.
  apply (f_equal final) in H. apply (f_equal stdout) in H.
  cbn in H. apply app_inv_head in H. discriminate H.
Qed.

(** ** [cmd_exit] *)

Section exit.
Context (E : env).
Implicit Types (w : world) (n : string).

Abbreviation exit :=
  (cmd_exit E (generate_title_from_mem E) sanitize_filename
     (save_conversation E)).

Lemma bound_name_Some w n :
  current_name w = Some n → n ≠ EmptyString → bound_name w = Some n.
Proof.
  unfold bound_name. intros -> Hn. apply truthy_true in Hn. by rewrite Hn.
Qed.

Lemma cmd_exit_empty w :
  mem_truthy w = false → exit w = Raises SystemExit w.
Proof. unfold cmd_exit. by intros ->. Qed.

Lemma cmd_exit_bound w n final :
  conversation_of w ≠ [] →
  bound_name w = Some n →
  unique_path (files w) n = Some (final, json_file final) →
  writable E (json_file final) = true →
  exit w =
  Raises SystemExit (print ("Saved as: " +:+ final) (saved E final w)).
Proof.
  intros Hc Hb Hu Hw. unfold cmd_exit.
  rewrite (conversation_truthy w Hc), Hb. cbn [negb].
  by rewrite (save_conversation_writes E n final).
Qed.

Lemma cmd_exit_bound_refused w n final :
  conversation_of w ≠ [] →
  bound_name w = Some n →
  unique_path (files w) n = Some (final, json_file final) →
  writable E (json_file final) = false →
  exit w = Raises IOFailure (copied w).
Proof.
  intros Hc Hb Hu Hw. unfold cmd_exit.
  rewrite (conversation_truthy w Hc), Hb. cbn [negb].
  by rewrite (save_conversation_refused E n final).
Qed.

Lemma generate_title_list w :
  conversation_of w ≠ [] →
  generate_title_from_mem E w
  = model_reply E (conversation_of w ++ [message "user" TITLE_PROMPT]) w.
Proof.
  intros Hc. unfold generate_title_from_mem.
  by rewrite (conversation_lookup w Hc).
Qed.

Lemma cmd_exit_unbound w text final :
  conversation_of w ≠ [] →
  bound_name w = None →
  chat E (conversation_of w ++ [message "user" TITLE_PROMPT]) = Some text →
  unique_path (files w) (exit_name E (Py.strip text))
    = Some (final, json_file final) →
  writable E (json_file final) = true →
  exit w =
  Raises SystemExit
    (print ("Saved as: " +:+ final)
       (saved E final (print (Py.strip text) w))).
Proof.
  intros Hc Hb Hchat Hu Hw. unfold cmd_exit.
  rewrite (conversation_truthy w Hc), Hb. cbn [negb].
  rewrite (generate_title_list w Hc). unfold model_reply. rewrite Hchat.
  cbn [bind]. fold (exit_name E (Py.strip text)).
  by rewrite (save_conversation_writes E _ final).
Qed.

Lemma cmd_exit_unbound_refused w text final :
  conversation_of w ≠ [] →
  bound_name w = None →
  chat E (conversation_of w ++ [message "user" TITLE_PROMPT]) = Some text →
  unique_path (files w) (exit_name E (Py.strip text))
    = Some (final, json_file final) →
  writable E (json_file final) = false →
  exit w = Raises IOFailure (copied (print (Py.strip text) w)).
Proof.
  intros Hc Hb Hchat Hu Hw. unfold cmd_exit.
  rewrite (conversation_truthy w Hc), Hb. cbn [negb].
  rewrite (generate_title_list w Hc). unfold model_reply. rewrite Hchat.
  cbn [bind]. fold (exit_name E (Py.strip text)).
  by rewrite (save_conversation_refused E _ final).
Qed.

Lemma cmd_exit_unbound_down w :
  conversation_of w ≠ [] →
  bound_name w = None →
  chat E (conversation_of w ++ [message "user" TITLE_PROMPT]) = None →
  exit w = Raises ModelCallFailure w.
Proof.
  intros Hc Hb Hchat. unfold cmd_exit.
  rewrite (conversation_truthy w Hc), Hb. cbn [negb].
  rewrite (generate_title_list w Hc). unfold model_reply.
  by rewrite Hchat.
Qed.

(** [cmd_exit] never returns: it ends in [SystemExit], or the error of the
    model call or of the save leaves it. *)
Lemma cmd_exit_raises w : ∃ e w', exit w = Raises e w'.
Proof.
  unfold cmd_exit. destruct (mem_truthy w); cbn [negb]; [|by eauto].
  destruct (bound_name w) as [n|].
  - destruct (save_conversation E n w) as [[] w1|e w1]; cbn [bind]; eauto.
  - destruct (generate_title_from_mem E w) as [title w1|e w1]; cbn [bind];
      [|by eauto].
    destruct (save_conversation E _ _) as [[] w2|e w2]; cbn [bind]; eauto.
Qed.
End exit.

(** C9, as the code has it.  [cmd_exit] on an empty conversation raises
    [SystemExit] and changes nothing.  On a non-empty conversation bound
    to a name whose
    file exists it saves again from that name: the record goes to a new
    file with the least free suffix, the existing file stays as it is, and
    [SystemExit] follows.  On a non-empty unbound conversation it asks the
    model for a title over the conversation plus the title instruction,
    leaves the conversation as it was, saves under the sanitized title, or
    under the timestamp when that is empty, and raises [SystemExit].  In
    both cases the save is the one of [save_conversation]: when the file
    system refuses the new file, its error leaves [cmd_exit] in place of
    [SystemExit] and no file, catalog entry or binding has changed; and
    when the model call for the title raises, that error leaves [cmd_exit]
    with nothing changed. *)
Theorem exit_contract (E : env) (w : world) :
  (mem_truthy w = false →
   cmd_exit E (generate_title_from_mem E) sanitize_filename
     (save_conversation E) w = Raises SystemExit w)
  ∧ (∀ n,
       conversation_of w ≠ [] → current_name w = Some n →
       n ≠ EmptyString → is_Some (files w !! json_file n) →
       ∃ i,
         2 ≤ i
         ∧ (∀ j, 2 ≤ j < i → is_Some (files w !! json_file (suffixed n j)))
         ∧ files w !! json_file (suffixed n i) = None
         ∧ (writable E (json_file (suffixed n i)) = true →
            ∃ w',
              cmd_exit E (generate_title_from_mem E) sanitize_filename
                (save_conversation E) w = Raises SystemExit w'
              ∧ files w' =
                  <[json_file (suffixed n i) :=
                      Some (JObj [("name", JStr (suffixed n i));
                                  ("created", JStr (now_iso E));
                                  ("conversation",
                                   JArr (conversation_of w))])]> (files w)
              ∧ files w' !! json_file n = files w !! json_file n
              ∧ is_Some (history_by_name w' !! KStr (suffixed n i))
              ∧ current_name w' = Some (suffixed n i)
              ∧ conversation_of w' = conversation_of w
              ∧ stdout w' = stdout w ++ [Line ("Saved as: " +:+ suffixed n i)])
         ∧ (writable E (json_file (suffixed n i)) = false →
            ∃ w',
              cmd_exit E (generate_title_from_mem E) sanitize_filename
                (save_conversation E) w = Raises IOFailure w'
              ∧ files w' = files w
              ∧ history w' = history w
              ∧ history_by_name w' = history_by_name w
              ∧ current_name w' = current_name w
              ∧ conversation_of w' = conversation_of w
              ∧ stdout w' = stdout w))
  ∧ (∀ text,
       conversation_of w ≠ [] → bound_name w = None →
       chat E (conversation_of w ++ [message "user" TITLE_PROMPT])
         = Some text →
       ∃ final,
         unique_path (files w)
           (if Py.truthy (sanitize_filename (Py.strip text))
            then sanitize_filename (Py.strip text) else now_stamp E)
         = Some (final, json_file final)
         ∧ files w !! json_file final = None
         ∧ (writable E (json_file final) = true →
            ∃ w',
              cmd_exit E (generate_title_from_mem E) sanitize_filename
                (save_conversation E) w = Raises SystemExit w'
              ∧ files w' =
                  <[json_file final :=
                      Some (JObj [("name", JStr final);
                                  ("created", JStr (now_iso E));
                                  ("conversation",
                                   JArr (conversation_of w))])]> (files w)
              ∧ is_Some (history_by_name w' !! KStr final)
              ∧ current_name w' = Some final
              ∧ mem w' = mem w
              ∧ conversation_of w' = conversation_of w
              ∧ stdout w'
                = stdout w
                  ++ [Line (Py.strip text); Line ("Saved as: " +:+ final)])
         ∧ (writable E (json_file final) = false →
            ∃ w',
              cmd_exit E (generate_title_from_mem E) sanitize_filename
                (save_conversation E) w = Raises IOFailure w'
              ∧ files w' = files w
              ∧ history w' = history w
              ∧ history_by_name w' = history_by_name w
              ∧ current_name w' = current_name w
              ∧ mem w' = mem w
              ∧ conversation_of w' = conversation_of w
              ∧ stdout w' = stdout w ++ [Line (Py.strip text)]))
  ∧ (conversation_of w ≠ [] → bound_name w = None →
     chat E (conversation_of w ++ [message "user" TITLE_PROMPT]) = None →
     cmd_exit E (generate_title_from_mem E) sanitize_filename
       (save_conversation E) w = Raises ModelCallFailure w).
Proof.
  split; [apply cmd_exit_empty|]. split; [|split].
  - intros n Hc Hn Hne Hfile.
    destruct (unique_path_resolves (files w) n)
      as (final & Hu & Hfree & _ & Hsuf).
    destruct Hsuf as (i & Hi & -> & Hbusy).
    { apply path_exists_true. by apply elem_of_dom. }
    apply path_exists_false in Hfree.
    pose proof (conversation_allocated w Hc) as Hm.
    exists i. split; [done|]. split.
    { intros j Hj. apply elem_of_dom, path_exists_true. by apply Hbusy. }
    split; [done|]. split; intros Hw.
    + eexists. split.
      { apply (cmd_exit_bound E w n);
          [done | by apply bound_name_Some | done | done]. }
      split; [done|]. split.
      { cbn. apply lookup_insert_ne. intros Heq. rewrite Heq in Hfree.
        rewrite Hfree in Hfile. by destruct Hfile. }
      split; [cbn; rewrite lookup_insert_eq; by eexists|].
      split; [done|]. split; [|done].
      unfold conversation_of at 1. cbn. by rewrite deref_alloc_old.
    + eexists. split.
      { apply (cmd_exit_bound_refused E w n (suffixed n i));
          [done | by apply bound_name_Some | done | done]. }
      repeat (split; [done|]). split; [|done].
      unfold conversation_of at 1. cbn. by rewrite deref_alloc_old.
  - intros text Hc Hb Hchat.
    destruct (unique_path_resolves (files w) (exit_name E (Py.strip text)))
      as (final & Hu & Hfree & _).
    apply path_exists_false in Hfree.
    pose proof (conversation_allocated w Hc) as Hm.
    exists final. split; [exact Hu|]. split; [done|]. split; intros Hw.
    + eexists. split; [by apply (cmd_exit_unbound E w text final)|].
      split; [done|].
      split; [cbn; rewrite lookup_insert_eq; by eexists|].
      split; [done|]. split; [done|]. split.
      * unfold conversation_of at 1. cbn. by rewrite deref_alloc_old.
      * cbn. by rewrite <- app_assoc.
    + eexists. split; [by apply (cmd_exit_unbound_refused E w text final)|].
      repeat (split; [done|]). split; [|done].
      unfold conversation_of at 1. cbn. by rewrite deref_alloc_old.
  - apply cmd_exit_unbound_down.
Qed.

Lemma exit_contract_witness :
  (conversation_of W_bound ≠ [] ∧ current_name W_bound = Some "trip"
   ∧ "trip" ≠ EmptyString ∧ is_Some (files W_bound !! json_file "trip")
   ∧ writable E_title (json_file (suffixed "trip" 2)) = true)
  ∧ ∃ w',
      cmd_exit E_title (generate_title_from_mem E_title) sanitize_filename
        (save_conversation E_title) W_bound = Raises SystemExit w'
      ∧ current_name w' = Some (suffixed "trip" 2)
      ∧ files w' !! json_file "trip" = files W_bound !! json_file "trip".
Proof.
  assert (conversation_of W_bound ≠ []) as H1 by discriminate.
  assert ("trip" ≠ EmptyString) as H3 by discriminate.
  assert (is_Some (files W_bound !! json_file "trip")) as H4 by (by eexists).
  assert (writable E_title (json_file (suffixed "trip" 2)) = true) as H5
    by (vm_compute; reflexivity).
  split; [done|].
  destruct (proj1 (proj2 (exit_contract E_title W_bound)) "trip"
              H1 eq_refl H3 H4)
    as (i & Hi & Hbusy & Hfree & Hs & _).
  assert (i = 2) as ->.
  { destruct (decide (i = 2)) as [|Hne]; [done|]. exfalso.
    assert (2 ≤ 2 < i) as Hj by lia.
    destruct (Hbusy 2 Hj) as [c Hc]. vm_compute in Hc. discriminate Hc. }
  destruct (Hs H5) as (w' & He & _ & Hf & _ & Hn & _).
  by exists w'.
Defined.

(** C9 as stated fails when the title does not fit a file name: the
    conversation is not empty and unbound, the model answers with a title
    of 300 letters, and [cmd_exit] ends in the error of [open] in place of
    [SystemExit], with no file written and no name bound. *)
Lemma exit_title_too_long :
  conversation_of W_chat ≠ []
  ∧ bound_name W_chat = None
  ∧ chat E_long (conversation_of W_chat ++ [message "user" TITLE_PROMPT])
    = Some long_title
  ∧ String.length (sanitize_filename (Py.strip long_title)) = 300
  ∧ writable E_long (json_file (sanitize_filename (Py.strip long_title)))
    = false
  ∧ cmd_exit E_long (generate_title_from_mem E_long) sanitize_filename
      (save_conversation E_long) W_chat
    = Raises IOFailure (copied (print long_title W_chat))
  ∧ files (copied (print long_title W_chat)) = files W_chat
  ∧ history_by_name (copied (print long_title W_chat))
    = history_by_name W_chat
  ∧ current_name (copied (print long_title W_chat)) = None.
Proof.
  split; [discriminate|]. split; [reflexivity|]. split; [reflexivity|].
  split; [vm_compute; reflexivity|]. split; [vm_compute; reflexivity|].
  split; [vm_compute; reflexivity|]. repeat split.
Qed.

(** ** [run_command] *)

Section split.
Implicit Types (s t pre post sep head rest : string) (c : ascii).

Lemma all_space_nil : all_space EmptyString.
Proof. constructor. Qed.

Lemma all_space_cons c s :
  all_space (String c s) ↔ Py.isspace c = true ∧ all_space s.
Proof.
  unfold all_space. rewrite chars_cons.
  apply (Forall_cons (λ c, Py.isspace c = true)).
Qed.

Lemma lstrip_all_space s : all_space s → Py.lstrip s = EmptyString.
Proof.
  induction s as [|c s IH]; [done|]. intros [Hc Hs]%all_space_cons.
  cbn. rewrite Hc. by apply IH.
Qed.

Lemma lstrip_app_all_space pre s :
  all_space pre → Py.lstrip (pre +:+ s) = Py.lstrip s.
Proof.
  induction pre as [|c pre IH]; [done|]. intros [Hc Hs]%all_space_cons.
  cbn. rewrite Hc. by apply IH.
Qed.

Lemma rstrip_all_space s : all_space s → Py.rstrip s = EmptyString.
Proof.
  induction s as [|c s IH]; [done|]. intros [Hc Hs]%all_space_cons.
  cbn. rewrite (IH Hs). by rewrite Hc.
Qed.

Lemma rstrip_app_all_space s post :
  all_space post → Py.rstrip (s +:+ post) = Py.rstrip s.
Proof.
  intros Hp. induction s as [|c s IH]; cbn.
  - by apply rstrip_all_space.
  - by rewrite IH.
Qed.

Lemma strip_all_space s : all_space s → Py.strip s = EmptyString.
Proof. intros H. unfold Py.strip. by rewrite lstrip_all_space. Qed.

Lemma strip_sandwich pre s post :
  all_space pre → all_space post → trimmed s →
  Py.strip (pre +:+ s +:+ post) = s.
Proof.
  intros Hpre Hpost [Hs He]. unfold Py.strip.
  rewrite lstrip_app_all_space by done.
  destruct s as [|c s].
  - cbn. by rewrite lstrip_all_space.
  - cbn in Hs. cbn [String.append Py.lstrip]. rewrite Hs.
    change (String c (s +:+ post)) with (String c s +:+ post).
    rewrite rstrip_app_all_space by done. by apply rstrip_id.
Qed.

Lemma ends_space_app s t :
  t ≠ EmptyString → ends_space (s +:+ t) = ends_space t.
Proof.
  intros Ht. induction s as [|c s IH]; [done|].
  cbn [String.append ends_space]. rewrite IH.
  destruct (s +:+ t) eqn:E; [|done].
  destruct s; [by cbn in E | discriminate E].
Qed.

Lemma word_not_space head :
  word head → starts_space head = false ∧ ends_space head = false.
Proof.
  intros [Hne Hw]. split.
  - destruct head as [|c s]; [done|]. cbn. unfold chars in Hw. cbn in Hw.
    by apply Forall_cons in Hw as [].
  - clear Hne. induction head as [|c s IH]; [done|].
    rewrite chars_cons in Hw. apply Forall_cons in Hw as [Hc Hs].
    cbn. destruct s; [done | by apply IH].
Qed.

Lemma word_trimmed head : word head → trimmed head.
Proof. apply word_not_space. Qed.

Lemma starts_space_app s t :
  s ≠ EmptyString → starts_space (s +:+ t) = starts_space s.
Proof. by destruct s. Qed.

Lemma all_space_starts sep :
  all_space sep → sep ≠ EmptyString → starts_space sep = true.
Proof.
  destruct sep as [|c s]; [done|]. by intros [Hc _]%all_space_cons _.
Qed.

Lemma app_not_empty_l s t : s ≠ EmptyString → s +:+ t ≠ EmptyString.
Proof. by destruct s. Qed.

Lemma app_not_empty_r s t : t ≠ EmptyString → s +:+ t ≠ EmptyString.
Proof. by destruct s, t. Qed.

Lemma command_trimmed head sep rest :
  word head → trimmed rest → rest ≠ EmptyString →
  trimmed (head +:+ sep +:+ rest).
Proof.
  intros Hw [_ Hr] Hne. destruct (word_not_space head Hw) as [Hs _].
  destruct Hw as [Hh _]. split.
  - by rewrite starts_space_app.
  - rewrite !ends_space_app; [done | done | by apply app_not_empty_r].
Qed.

(** The first word is cut where the whitespace begins. *)
Lemma break_space_word head t :
  Forall (λ c, Py.isspace c = false) (chars head) →
  t = EmptyString ∨ starts_space t = true →
  Py.break_space (head +:+ t) = (head, t).
Proof.
  intros Hw Ht. induction head as [|c s IH].
  - cbn. destruct t as [|d t]; [done|]. destruct Ht as [|Hd]; [done|].
    cbn in Hd |- *. by rewrite Hd.
  - rewrite chars_cons in Hw. apply Forall_cons in Hw as [Hc Hs].
    cbn. rewrite Hc, (IH Hs). done.
Qed.

Lemma break_space_spec s h r :
  Py.break_space s = (h, r) →
  s = h +:+ r
  ∧ Forall (λ c, Py.isspace c = false) (chars h)
  ∧ (r = EmptyString ∨ starts_space r = true).
Proof.
  revert h r. induction s as [|c s IH]; intros h r; cbn.
  - intros [= <- <-]. split; [done|]. split; [constructor | by left].
  - destruct (Py.isspace c) eqn:Hc.
    + intros [= <- <-]. split; [done|]. split; [constructor|].
      right. done.
    + destruct (Py.break_space s) as [h' r'] eqn:Hb.
      intros [= <- <-]. destruct (IH h' r' eq_refl) as (-> & Hh & Hr).
      split; [done|]. split; [|done]. rewrite chars_cons. by constructor.
Qed.

Lemma split1_bare head :
  word head → Py.split1 head = [head].
Proof.
  intros Hw. destruct (word_not_space head Hw) as [Hs _].
  destruct Hw as [Hne Hw].
  assert (Py.break_space head = (head, EmptyString)) as Hb.
  { pose proof (break_space_word head EmptyString Hw (or_introl eq_refl))
      as H. by rewrite app_nil_r_s in H. }
  unfold Py.split1. rewrite (lstrip_id _ Hs).
  destruct head as [|c h]; [done|]. by rewrite Hb.
Qed.

Lemma split1_arg head sep rest :
  word head → all_space sep → sep ≠ EmptyString →
  trimmed rest → rest ≠ EmptyString →
  Py.split1 (head +:+ sep +:+ rest) = [head; rest].
Proof.
  intros Hw Hsep Hne [Hrs _] Hrest.
  destruct (word_not_space head Hw) as [Hs _].
  destruct Hw as [Hh Hw].
  assert (Py.break_space (head +:+ sep +:+ rest) = (head, sep +:+ rest))
    as Hb.
  { apply break_space_word; [done|]. right.
    rewrite starts_space_app by done. by apply all_space_starts. }
  assert (Py.lstrip (sep +:+ rest) = rest) as Hl
    by (by rewrite lstrip_app_all_space, (lstrip_id _ Hrs)).
  unfold Py.split1.
  rewrite lstrip_id by (by rewrite starts_space_app).
  destruct (head +:+ sep +:+ rest) eqn:E.
  - by apply (app_not_empty_l head (sep +:+ rest)) in Hh.
  - rewrite Hb, Hl. by destruct rest.
Qed.

(** Every line is whitespace only, or reads as a command. *)
Lemma line_parses line :
  all_space line ∨ ∃ head rest, parsed line head rest.
Proof.
  destruct (strip_split line) as (pre & post & Hpre & Hpost & Hline).
  destruct (strip_trimmed line) as [Hs He].
  destruct (Py.strip line) as [|c0 s0] eqn:Hstrip.
  { left. rewrite Hline. unfold all_space in *. rewrite chars_app.
    apply Forall_app. split; [done|]. by rewrite chars_app. }
  right. set (s := String c0 s0) in *.
  destruct (Py.break_space s) as [h r] eqn:Hb.
  destruct (break_space_spec s h r Hb) as (Hsplit & Hh & Hr).
  assert (h ≠ EmptyString) as Hhne.
  { intros ->. cbn in Hsplit. subst r. destruct Hr as [|Hr]; [done|].
    congruence. }
  assert (word h) as Hw by done.
  destruct Hr as [->|Hr].
  - exists h, EmptyString. apply (parsed_bare line pre h post); try done.
    rewrite Hline, Hsplit. by rewrite app_nil_r_s.
  - destruct (lstrip_split r) as (sep & Hsep & Hrr).
    set (rest := Py.lstrip r) in *.
    assert (r ≠ EmptyString) as Hrne by (by destruct r).
    assert (ends_space r = false) as Her.
    { rewrite Hsplit in He. by rewrite ends_space_app in He. }
    assert (rest ≠ EmptyString) as Hrest.
    { intros Hempty. rewrite Hempty, app_nil_r_s in Hrr. subst sep.
      clear -Hsep Her Hrne. induction r as [|c r IH]; [done|].
      apply all_space_cons in Hsep as [Hc Hsep].
      cbn in Her. destruct r; [congruence | by apply IH]. }
    assert (sep ≠ EmptyString) as Hsepne.
    { intros ->. cbn in Hrr.
      pose proof (starts_space_lstrip r) as Hl. fold rest in Hl.
      congruence. }
    exists h, rest.
    apply (parsed_arg line pre h sep rest post); try done.
    + split; [apply starts_space_lstrip|].
      rewrite Hrr in Her. by rewrite ends_space_app in Her.
    + rewrite Hline, Hsplit, Hrr. by rewrite !app_assoc_s.
Qed.
End split.

Section run_command.
Context (table : list command).
Implicit Types (line head rest : string) (w : world).

Lemma bind_handled (r : result unit) :
  bind r (λ _ w, Returns true w) = handled r.
Proof. by destruct r. Qed.

Lemma run_command_blank line w :
  all_space line → run_command table line w = Returns false w.
Proof.
  intros H. unfold run_command. by rewrite strip_all_space.
Qed.

Lemma parsed_strip line head rest :
  parsed line head rest →
  Py.strip line ≠ EmptyString
  ∧ Py.split1 (Py.strip line) =
      (if Py.truthy rest then [head; rest] else [head])
  ∧ Py.strip rest = rest.
Proof.
  intros [pre h post Hpre Hpost Hw ->
         |pre h sep r post Hpre Hpost Hw Hsep Hne Hr Hrne ->].
  - rewrite strip_sandwich by (done || by apply word_trimmed).
    split; [by destruct Hw|]. split; [by apply split1_bare | done].
  - assert (pre +:+ h +:+ sep +:+ r +:+ post
            = pre +:+ (h +:+ sep +:+ r) +:+ post) as ->
      by (by rewrite !app_assoc_s).
    rewrite strip_sandwich by (done || by apply command_trimmed).
    split; [apply app_not_empty_l; by destruct Hw|].
    apply truthy_true in Hrne as Ht. rewrite Ht.
    split; [by apply split1_arg | by apply strip_id].
Qed.

Lemma run_command_parsed line head rest w :
  parsed line head rest →
  run_command table line w =
  match lookup_command table head with
  | None => Returns false w
  | Some cmd =>
      if wants_arg cmd then handled (func cmd (Some rest) w)
      else if Py.truthy rest then Returns false w
      else handled (func cmd None w)
  end.
Proof.
  intros Hp. destruct (parsed_strip line head rest Hp) as (Hne & Hsplit & Hr).
  unfold run_command. apply truthy_true in Hne. rewrite Hne. cbn [negb].
  rewrite Hsplit. unfold lookup_command, wants_arg.
  destruct (Py.truthy rest) eqn:Ht.
  - cbn [hd]. rewrite Hr.
    destruct (find _ table) as [cmd|]; [|done].
    rewrite !bind_handled. by rewrite Ht.
  - apply truthy_false in Ht as ->. cbn [hd].
    destruct (find _ table) as [cmd|]; [|done].
    by rewrite !bind_handled.
Qed.

(** [run_command] answers [False] only before any handler runs. *)
Lemma run_command_false line w w' :
  run_command table line w = Returns false w' →
  w' = w
  ∧ (all_space line
     ∨ ∃ head rest,
         parsed line head rest
         ∧ (lookup_command table head = None
            ∨ ∃ cmd, lookup_command table head = Some cmd
                ∧ wants_arg cmd = false ∧ rest ≠ EmptyString)).
Proof.
  destruct (line_parses line) as [Hb|(head & rest & Hp)].
  { rewrite run_command_blank by done. intros [= <-]. by split; [|left]. }
  rewrite (run_command_parsed line head rest) by done.
  destruct (lookup_command table head) as [cmd|] eqn:Hl.
  - destruct (wants_arg cmd) eqn:Ha.
    { destruct (func cmd (Some rest) w); discriminate. }
    destruct (Py.truthy rest) eqn:Ht.
    + intros [= <-]. split; [done|]. right. exists head, rest.
      split; [done|]. right. exists cmd. by apply truthy_true in Ht.
    + destruct (func cmd None w); discriminate.
  - intros [= <-]. split; [done|]. right. exists head, rest. eauto.
Qed.
End run_command.

(** C3, as the code has it.  A line of whitespace is no command.
    Otherwise the first word, lowercased, selects the first row of the
    table with that name; none: no command.  A row that takes an argument
    has its handler called with the trimmed remainder, empty or not (the
    handlers of [load] and [delete] then print their usage line and do
    nothing else); a row that takes none is no command when a remainder is
    there, and has its handler called otherwise.  When the handler returns,
    [run_command] returns [True]; when it raises, the exception leaves
    [run_command].  The handler of [exit] never returns: on an empty
    conversation it raises [SystemExit] at once. *)
Theorem dispatch_contract (table : list command) (line : string)
    (w : world) :
  (all_space line ∨ ∃ head rest, parsed line head rest)
  ∧ (all_space line → run_command table line w = Returns false w)
  ∧ (∀ head rest,
       parsed line head rest →
       (lookup_command table head = None →
        run_command table line w = Returns false w)
       ∧ (∀ cmd, lookup_command table head = Some cmd →
            (wants_arg cmd = true →
             run_command table line w = handled (func cmd (Some rest) w))
            ∧ (wants_arg cmd = false → rest ≠ EmptyString →
               run_command table line w = Returns false w)
            ∧ (wants_arg cmd = false → rest = EmptyString →
               run_command table line w = handled (func cmd None w))))
  ∧ (∀ E head,
       table = command_table E → parsed line head EmptyString →
       (Py.lower head = "load" →
        run_command table line w =
        Returns true (print "Usage: load <name>" w))
       ∧ (Py.lower head = "delete" →
          run_command table line w =
          Returns true (print "Usage: delete <name>" w)))
  ∧ (∀ E head,
       table = command_table E → parsed line head EmptyString →
       Py.lower head = "exit" →
       (∃ e w', run_command table line w = Raises e w')
       ∧ (mem_truthy w = false →
          run_command table line w = Raises SystemExit w)).
Proof.
  split; [apply line_parses|]. split; [apply run_command_blank|].
  split; [|split].
  - intros head rest Hp. rewrite (run_command_parsed table line head rest w Hp).
    split; [by intros ->|]. intros cmd ->.
    split; [by intros ->|]. split.
    + intros -> Hr. apply truthy_true in Hr. by rewrite Hr.
    + by intros -> ->.
  - intros E head -> Hp.
    rewrite (run_command_parsed _ line head EmptyString w Hp).
    unfold lookup_command. split; intros ->; reflexivity.
  - intros E head -> Hp Hh.
    rewrite (run_command_parsed _ line head EmptyString w Hp).
    unfold lookup_command. rewrite Hh.
    change (find _ (command_table E))
      with (Some (Command "exit"
                    (λ _, cmd_exit E (generate_title_from_mem E)
                            sanitize_filename (save_conversation E))
                    "Exit the application" None)).
    cbn [wants_arg takes_arg default func].
    change (Py.truthy EmptyString) with false. cbv iota.
    split.
    + destruct (cmd_exit_raises E w) as (e & w' & ->). by exists e, w'.
    + intros Ht. by rewrite (cmd_exit_empty E w Ht).
Qed.

Lemma dispatch_contract_witness :
  parsed "  Load " "Load" EmptyString
  ∧ Py.lower "Load" = "load"
  ∧ run_command (command_table E_title) "  Load " W_chat =
      Returns true (print "Usage: load <name>" W_chat).
Proof.
  assert (parsed "  Load " "Load" EmptyString) as Hp.
  { apply (parsed_bare _ "  " "Load" " "); try done.
    - by repeat constructor.
    - by repeat constructor.
    - split; [done | by repeat constructor]. }
  split; [exact Hp|]. split; [reflexivity|].
  apply (proj1 (proj2 (proj2 (proj2
           (dispatch_contract (command_table E_title) "  Load " W_chat))))
           E_title "Load" eq_refl Hp).
  reflexivity.
Defined.

(** C3 as stated fails on the line [exit]: the row is found, its handler
    is called, and [run_command] does not return: [SystemExit] leaves
    it. *)
Lemma exit_is_not_handled :
  parsed "exit" "exit" EmptyString
  ∧ (∃ cmd, lookup_command (command_table E_title) "exit" = Some cmd
       ∧ wants_arg cmd = false
       ∧ func cmd None (boot ∅) = Raises SystemExit (boot ∅))
  ∧ run_command (command_table E_title) "exit" (boot ∅) =
      Raises SystemExit (boot ∅).
Proof.
  split.
  { apply (parsed_bare _ EmptyString "exit" EmptyString); try done.
    - constructor.
    - constructor.
    - split; [done | by repeat constructor]. }
  split; [|reflexivity].
  eexists. split; [reflexivity|]. split; reflexivity.
Qed.

(** C10. When [run_command] answers that the line is no command, no
    handler has run and the world is the one before the call: the line was
    blank, its first word names no row, or the row takes no argument and a
    remainder is there.  The loop then runs the chat turn on the raw line
    in that same world. *)
Theorem failed_dispatch_pure (table : list command) (line : string)
    (w w' : world) :
  run_command table line w = Returns false w' →
  w' = w
  ∧ (all_space line
     ∨ ∃ head rest,
         parsed line head rest
         ∧ (lookup_command table head = None
            ∨ ∃ cmd, lookup_command table head = Some cmd
                ∧ wants_arg cmd = false ∧ rest ≠ EmptyString))
  ∧ ∀ E, table = command_table E →
      loop_round E line w = chat_turn E line w.
Proof.
  intros H. destruct (run_command_false table line w w' H) as [-> Hwhy].
  split; [done|]. split; [done|].
  intros E ->. unfold loop_round. by rewrite H.
Qed.

Lemma failed_dispatch_pure_witness :
  run_command (command_table E_title) "list extra text" W_chat
    = Returns false W_chat
  ∧ loop_round E_title "list extra text" W_chat
    = chat_turn E_title "list extra text" W_chat.
Proof.
  assert (run_command (command_table E_title) "list extra text" W_chat
          = Returns false W_chat) as H by reflexivity.
  split; [exact H|].
  by apply (failed_dispatch_pure _ _ _ _ H).
Defined.

(** ** The catalog and the directory *)

Section invariant.
Implicit Types (w : world) (n : string) (dir : gmap string (option json)).

Lemma json_file_endswith n :
  Py.endswith (Py.lower (json_file n)) ".json" = true.
Proof. unfold json_file. rewrite lower_app. apply endswith_app. Qed.

Lemma as_record_dump n created (conv : json) :
  as_record (dump_entry n created conv) = Some (JStr n, JStr created, conv).
Proof. reflexivity. Qed.

Lemma in_step_same_store w w' :
  same_store w w' → in_step w → in_step w'.
Proof.
  intros [Hf Hm] [Ht [Hc Hk]]. unfold in_step, consistent.
  rewrite Hf, Hm. done.
Qed.

(** *** [load_history] *)

Lemma load_file_files w fc : files (load_file w fc) = files w.
Proof.
  destruct fc as [f c]. unfold load_file.
  destruct (negb _); [done|]. destruct c as [j|]; [|done].
  destruct (as_record j) as [[[nm cr] cv]|]; [|done].
  destruct cv; cbn; destruct (hash_key nm); done.
Qed.

Lemma load_file_record w n j created conv :
  as_record j = Some (JStr n, created, conv) →
  ∃ e, history_by_name (load_file w (json_file n, Some j))
       = <[KStr n := e]> (history_by_name w).
Proof.
  intros Hj. unfold load_file. rewrite json_file_endswith, Hj. cbn [negb].
  destruct conv; cbn; eauto.
Qed.

Lemma load_files_spec (l : list (string * option json)) w :
  (∀ f c, (f, c) ∈ l →
     ∃ n j created conv,
       f = json_file n ∧ c = Some j
       ∧ as_record j = Some (JStr n, created, conv)) →
  files (foldl load_file w l) = files w
  ∧ ∀ k, is_Some (history_by_name (foldl load_file w l) !! k)
         ↔ is_Some (history_by_name w !! k)
           ∨ ∃ n c, k = KStr n ∧ (json_file n, c) ∈ l.
Proof.
  revert w. induction l as [|[f c] l IH]; intros w Hl.
  - split; [done|]. intros k. split; [by left|].
    intros [H|(n & c & _ & H)]; [done | by apply elem_of_nil in H].
  - destruct (Hl f c) as (n & j & cr & cv & -> & -> & Hj);
      [apply elem_of_cons; by left|].
    cbn [foldl].
    destruct (IH (load_file w (json_file n, Some j))) as [Hf Hk].
    { intros f' c' H. apply Hl. apply elem_of_cons. by right. }
    split; [by rewrite Hf, load_file_files|].
    intros k. rewrite Hk.
    destruct (load_file_record w n j cr cv Hj) as [e ->].
    split.
    + intros [H|(n' & c' & -> & H)].
      * destruct (decide (k = KStr n)) as [->|Hne].
        -- right. exists n, (Some j). split; [done|].
           apply elem_of_cons. by left.
        -- left. by rewrite lookup_insert_ne in H.
      * right. exists n', c'. split; [done|]. apply elem_of_cons. by right.
    + intros [H|(n' & c' & -> & H)].
      * left. destruct (decide (k = KStr n)) as [->|Hne].
        -- rewrite lookup_insert_eq. by eexists.
        -- by rewrite lookup_insert_ne.
      * apply elem_of_cons in H as [[= Hn%json_file_inj ->]|H].
        -- left. subst n'. rewrite lookup_insert_eq. by eexists.
        -- right. eauto.
Qed.

Lemma load_files_files (l : list (string * option json)) w :
  files (foldl load_file w l) = files w.
Proof.
  revert w. induction l as [|fc l IH]; intros w; [done|].
  cbn [foldl]. by rewrite IH, load_file_files.
Qed.

Lemma load_history_files w : files (load_history w) = files w.
Proof. unfold load_history. cbn. by rewrite load_files_files. Qed.

Lemma load_history_in_step w : tidy (files w) → in_step (load_history w).
Proof.
  intros Ht. split; [by rewrite load_history_files|].
  unfold consistent. rewrite load_history_files.
  unfold load_history. cbn.
  destruct (load_files_spec (map_to_list (files w))
              (with_history_by_name ∅ (with_history [] w))) as [_ Hk].
  { intros f c H. apply elem_of_map_to_list in H. by apply Ht. }
  split.
  - intros n. rewrite Hk. cbn. split.
    + intros [H|(n' & c & [= ->] & H)].
      * rewrite lookup_empty in H. by destruct H.
      * apply elem_of_map_to_list in H. by eexists.
    + intros [c H]. right. exists n, c. split; [done|].
      by apply elem_of_map_to_list.
  - intros k. rewrite Hk. cbn. intros [H|(n & c & -> & H)]; [|eauto].
    rewrite lookup_empty in H. by destruct H.
Qed.

Lemma boot_in_step dir : tidy dir → in_step (boot dir).
Proof. intros Ht. unfold boot. by apply load_history_in_step. Qed.

(** *** [save_conversation] and [cmd_delete] *)

(** A world with one record more, in the directory and in the catalog. *)
Lemma written_in_step final (j : json) (e : entry) created cv w w' :
  files w' = <[json_file final := Some j]> (files w) →
  history_by_name w' = <[KStr final := e]> (history_by_name w) →
  as_record j = Some (JStr final, created, cv) →
  in_step w → in_step w'.
Proof.
  intros Hf Hm Hj [Ht [Hc Hk]]. unfold in_step, consistent.
  rewrite Hf, Hm. split; [|split].
  - intros f c H.
    apply lookup_insert_Some in H as [[<- <-]|[_ H]]; [|by apply Ht].
    exists final, j, created, cv. done.
  - intros n. destruct (decide (n = final)) as [->|Hne].
    + rewrite !lookup_insert_eq. split; by eexists.
    + rewrite !lookup_insert_ne; [apply Hc | | congruence].
      intros H. by apply json_file_inj in H.
  - intros k. destruct (decide (k = KStr final)) as [->|Hne]; [eauto|].
    rewrite lookup_insert_ne by done. apply Hk.
Qed.

Lemma saved_in_step E final w :
  in_step w → in_step (saved E final w).
Proof.
  apply (written_in_step final
           (dump_entry final (now_iso E) (JArr (conversation_of w)))
           (Entry (JStr final) (JStr (now_iso E)) (RList (length (heap w))))
           (JStr (now_iso E)) (JArr (conversation_of w))); done.
Qed.

Lemma saved_dict_in_step E final m w :
  in_step w → in_step (saved_dict E final m w).
Proof.
  apply (written_in_step final
           (dump_entry final (now_iso E) (JObj m))
           (Entry (JStr final) (JStr (now_iso E)) (RVal (JObj m)))
           (JStr (now_iso E)) (JObj m)); done.
Qed.

Lemma copied_same_store w : same_store w (copied w).
Proof. done. Qed.

Lemma save_conversation_in_step E name w :
  in_step w → in_step (final (save_conversation E name w)).
Proof.
  intros H.
  destruct (save_conversation_cases E name w)
    as [[_ ->] | (fin & _ & _ & [[_ [[_ ->]|[_ ->]]]
                                |(m & _ & _ & [[_ ->]|[_ ->]])])];
    cbn [final]; try done.
  - by apply saved_in_step.
  - by apply saved_dict_in_step.
Qed.

Lemma deleted_in_step arg w : in_step w → in_step (deleted arg w).
Proof.
  intros [Ht [Hc Hk]]. split; [|split].
  - intros f c. cbn. intros H.
    apply lookup_delete_Some in H as [_ H]. by apply Ht.
  - intros n. cbn. destruct (decide (n = arg)) as [->|Hne].
    + rewrite !lookup_delete_eq. split; intros [? ?]; done.
    + rewrite !lookup_delete_ne; [apply Hc | | congruence].
      intros H. by apply json_file_inj in H.
  - intros k. cbn. destruct (decide (k = KStr arg)) as [->|Hne]; [eauto|].
    rewrite lookup_delete_ne by done. apply Hk.
Qed.

Lemma print_same_store s w : same_store w (print s w).
Proof. done. Qed.

Lemma cmd_delete_in_step E arg w :
  in_step w → in_step (final (cmd_delete E arg w)).
Proof.
  intros H.
  destruct (cmd_delete_cases E arg w) as [[s ->] | [[-> _] | ->]];
    cbn [final]; [|by apply deleted_in_step | done].
  by eapply in_step_same_store; [apply print_same_store|].
Qed.

(** *** The operations that leave catalog and directory alone *)

Lemma same_store_refl w : same_store w w.
Proof. done. Qed.

Lemma same_store_trans w1 w2 w3 :
  same_store w1 w2 → same_store w2 w3 → same_store w1 w3.
Proof. intros [H1 H2] [H3 H4]. split; congruence. Qed.

Lemma load_conversation_same_store name w :
  same_store w (final (load_conversation name w)).
Proof.
  unfold load_conversation.
  destruct (history_by_name w !! KStr name) as [e|]; [|done].
  by destruct (e_conversation e) as [l|[]].
Qed.

Lemma list_append_same_store l x w :
  same_store w (final (list_append l x w)).
Proof. unfold list_append. by destruct (heap w !! l) as [[]|]. Qed.

Lemma cmd_new_same_store w : same_store w (final (cmd_new w)).
Proof. done. Qed.

Lemma cmd_compress_same_store E w :
  same_store w (final (cmd_compress (model_reply E) w)).
Proof.
  unfold cmd_compress. destruct (mem_truthy w); [|done]. cbn [negb].
  unfold list_append. destruct (heap w !! mem w) as [[]|]; [|done|];
    cbn [bind]; unfold model_reply; by destruct (chat E _).
Qed.

Lemma foldl_same_store {A} (f : world → A → world) (l : list A) w :
  (∀ w a, same_store w (f w a)) → same_store w (foldl f w l).
Proof.
  intros Hf. revert w. induction l as [|a l IH]; intros w; [done|].
  cbn [foldl]. eapply same_store_trans; [apply Hf | apply IH].
Qed.

Lemma cmd_list_same_store w : same_store w (final (cmd_list w)).
Proof.
  unfold cmd_list. cbn [final].
  eapply same_store_trans; [apply (print_same_store "Saved Conversations:")|].
  by apply foldl_same_store.
Qed.

Lemma cmd_help_same_store rows w : same_store w (final (cmd_help rows w)).
Proof.
  unfold cmd_help. cbn [final].
  eapply same_store_trans; [apply (print_same_store "Commands:")|].
  by apply foldl_same_store.
Qed.

Lemma chat_turn_same_store E user w :
  same_store w (round_world (chat_turn E user w)).
Proof.
  unfold chat_turn. cbv zeta. unfold list_append at 1.
  destruct (heap w !! mem w) as [[]|]; [|done|];
    cbn [bind]; unfold model_reply; (destruct (chat E _); [|done]);
    cbn [bind]; match goal with
                | |- context [list_append ?l ?x ?w'] =>
                    pose proof (list_append_same_store l x w') as Hs;
                    destruct (list_append l x w')
                end; done.
Qed.

(** *** [cmd_exit], the table and the loop *)

(** [generate_title_from_mem] touches nothing. *)
Lemma generate_title_cases E w :
  (∃ e, generate_title_from_mem E w = Raises e w)
  ∨ ∃ title, generate_title_from_mem E w = Returns title w.
Proof.
  unfold generate_title_from_mem, model_reply.
  destruct (heap w !! mem w) as [[]|]; [|by left; eauto|];
    (destruct (chat E _); [right | left]; eauto).
Qed.

Lemma cmd_exit_in_step E w :
  in_step w →
  in_step (final (cmd_exit E (generate_title_from_mem E) sanitize_filename
                    (save_conversation E) w)).
Proof.
  intros H. unfold cmd_exit. destruct (mem_truthy w); [|done]. cbn [negb].
  destruct (bound_name w) as [n|] eqn:Hb.
  - pose proof (save_conversation_in_step E n w H) as Hs.
    destruct (save_conversation E n w) as [[] w1|e w1]; cbn [bind final] in *;
      [|done].
    by eapply in_step_same_store; [apply print_same_store|].
  - destruct (generate_title_cases E w) as [[e ->] | [title ->]];
      cbn [bind final]; [done|].
    match goal with
    | |- context [save_conversation E ?n ?w'] =>
        assert (in_step (final (save_conversation E n w'))) as Hs
          by (apply save_conversation_in_step;
              by eapply in_step_same_store; [apply print_same_store|]);
        destruct (save_conversation E n w') as [[] w1|e w1]
    end; cbn [bind final] in *; [|done].
    by eapply in_step_same_store; [apply print_same_store|].
Qed.

Lemma command_table_in_step E cmd arg w :
  In cmd (command_table E) →
  in_step w → in_step (final (func cmd arg w)).
Proof.
  intros Hin H. cbn in Hin.
  destruct Hin as [<-|[<-|[<-|[<-|[<-|[<-|[<-|[<-|[]]]]]]]]]; cbn [func].
  - eapply in_step_same_store; [apply cmd_help_same_store | done].
  - eapply in_step_same_store; [apply cmd_list_same_store | done].
  - unfold cmd_load. destruct (negb _).
    + eapply in_step_same_store; [apply print_same_store | done].
    + eapply in_step_same_store; [apply load_conversation_same_store | done].
  - by apply cmd_delete_in_step.
  - eapply in_step_same_store; [apply cmd_compress_same_store | done].
  - apply load_history_in_step, H.
  - eapply in_step_same_store; [apply cmd_new_same_store | done].
  - by apply cmd_exit_in_step.
Qed.

Lemma final_handled (r : result unit) : final (handled r) = final r.
Proof. by destruct r. Qed.

Lemma run_command_in_step E line w :
  in_step w → in_step (final (run_command (command_table E) line w)).
Proof.
  intros H. destruct (line_parses line) as [Hb|(head & rest & Hp)].
  { by rewrite run_command_blank. }
  rewrite (run_command_parsed _ line head rest w Hp).
  destruct (lookup_command (command_table E) head) as [cmd|] eqn:Hl; [|done].
  apply find_some in Hl as [Hin _].
  destruct (wants_arg cmd).
  { rewrite final_handled. by apply (command_table_in_step E). }
  destruct (Py.truthy rest); [done|].
  rewrite final_handled. by apply (command_table_in_step E).
Qed.

Lemma loop_round_in_step E line w :
  in_step w → in_step (round_world (loop_round E line w)).
Proof.
  intros H. pose proof (run_command_in_step E line w H) as Hr.
  unfold loop_round.
  destruct (run_command (command_table E) line w) as [[] w'|[] w'];
    cbn [final round_world] in *; try done.
  eapply in_step_same_store; [apply chat_turn_same_store | done].
Qed.

Lemma apply_op_in_step o w : in_step w → in_step (apply_op o w).
Proof.
  intros H. destruct o; cbn [apply_op].
  - by apply save_conversation_in_step.
  - by apply cmd_delete_in_step.
  - apply load_history_in_step, H.
  - eapply in_step_same_store; [apply load_conversation_same_store | done].
  - eapply in_step_same_store; [apply cmd_new_same_store | done].
  - eapply in_step_same_store; [apply cmd_compress_same_store | done].
  - by apply cmd_exit_in_step.
  - by apply loop_round_in_step.
  - apply boot_in_step, H.
Qed.

Lemma run_in_step ops w : in_step w → in_step (run ops w).
Proof.
  revert w. induction ops as [|o ops IH]; intros w H; [done|].
  cbn [run foldl]. apply IH. by apply apply_op_in_step.
Qed.

Lemma tidy_empty : tidy ∅.
Proof. intros f c H. by rewrite lookup_empty in H. Qed.
End invariant.

(** C1. Over a directory that only this program writes (every entry the
    file [<name>.json] of a record declaring that name; the empty
    directory is one), after the refresh at process start and after every
    save, delete, reload, any other operation, any round of the loop and
    any new start of the process, a name is a key of the catalog exactly
    when its record file exists, and the directory is still of that kind.
    Save and delete are single steps here: each changes file and catalog
    before it returns. *)
Theorem catalog_matches_files (dir : gmap string (option json))
    (ops : list op) :
  tidy dir →
  (∀ n, is_Some (history_by_name (run ops (boot dir)) !! KStr n)
        ↔ is_Some (files (run ops (boot dir)) !! json_file n))
  ∧ (∀ k, is_Some (history_by_name (run ops (boot dir)) !! k) →
        ∃ n, k = KStr n)
  ∧ tidy (files (run ops (boot dir))).
Proof.
  intros Ht. destruct (run_in_step ops (boot dir)) as (H1 & H2 & H3).
  { by apply boot_in_step. }
  done.
Qed.

Lemma catalog_matches_files_witness :
  tidy ∅
  ∧ ∀ n,
      is_Some (history_by_name
                 (run [Input E_title "hello"; Exit E_title; Restart;
                       Delete E_title "Trip to Rome"] (boot ∅)) !! KStr n)
      ↔ is_Some (files
                   (run [Input E_title "hello"; Exit E_title; Restart;
                         Delete E_title "Trip to Rome"] (boot ∅))
                   !! json_file n).
Proof.
  split; [exact tidy_empty|].
  exact (proj1 (catalog_matches_files ∅ _ tidy_empty)).
Defined.

(** * Further properties of the code *)

(** ** Saving *)

Section saving.
Implicit Types (w : world) (n name : string).

Lemma suffixed_ne n i : suffixed n i ≠ n.
Proof.
  unfold suffixed. intros H.
  rewrite <- (app_nil_r_s n) in H at 2.
  apply (inj (String.app n)) in H. discriminate H.
Qed.

Lemma unique_path_second dir n :
  is_Some (dir !! json_file n) →
  dir !! json_file (suffixed n 2) = None →
  unique_path dir n = Some (suffixed n 2, json_file (suffixed n 2)).
Proof.
  intros Hn H2.
  destruct (unique_path_resolves dir n) as (fin & Hu & _ & _ & Hsuf).
  destruct Hsuf as (i & Hi & -> & Hbusy).
  { apply path_exists_true. by apply elem_of_dom. }
  destruct (decide (i = 2)) as [->|Hne]; [done|].
  specialize (Hbusy 2 ltac:(lia)).
  apply path_exists_false in H2. congruence.
Qed.

Lemma unique_path_first dir n :
  dir !! json_file n = None → unique_path dir n = Some (n, json_file n).
Proof.
  intros Hn. destruct (unique_path_resolves dir n) as (fin & Hu & _ & Hid & _).
  rewrite (Hid ltac:(by apply path_exists_false)) in Hu. done.
Qed.
End saving.

(** [save_conversation] never overwrites or removes a file: whatever the
    directory held it still holds.  On an empty conversation, and when the
    file system refuses the new file, the directory is as before; a save
    that writes adds exactly one file, the one of the resolved name. *)
Theorem save_keeps_files (E : env) (name : string) (w : world) :
  (∀ f c, files w !! f = Some c →
          files (final (save_conversation E name w)) !! f = Some c)
  ∧ (mem_truthy w = false →
     files (final (save_conversation E name w)) = files w)
  ∧ (∀ fin,
       mem_truthy w = true →
       unique_path (files w) name = Some (fin, json_file fin) →
       (writable E (json_file fin) = true →
        size (files (final (save_conversation E name w)))
        = S (size (files w))
        ∧ is_Some (files (final (save_conversation E name w))
                     !! json_file fin)
        ∧ ∀ f, f ≠ json_file fin →
            files (final (save_conversation E name w)) !! f = files w !! f)
       ∧ (writable E (json_file fin) = false →
          files (final (save_conversation E name w)) = files w)).
Proof.
  destruct (save_conversation_cases E name w)
    as [[Ht ->] | (fin & Hu & Hf & Hcases)].
  { cbn [final]. split; [done|]. split; [done|]. intros fin' Ht'. congruence. }
  assert (mem_truthy w = true) as Ht.
  { apply mem_truthy_cases.
    destruct Hcases as [[Hc _] | (m & Hne & Hm & _)]; [by left|].
    right. by exists m. }
  assert (files (final (save_conversation E name w))
          = (if writable E (json_file fin)
             then <[json_file fin :=
                      files (final (save_conversation E name w))
                        !!! json_file fin]> (files w)
             else files w)
          ∧ (writable E (json_file fin) = true →
             is_Some (files (final (save_conversation E name w))
                        !! json_file fin))) as [Hfiles Hnew].
  { destruct Hcases as [[_ [[Hw ->]|[Hw ->]]]
                       |(m & _ & _ & [[Hw ->]|[Hw ->]])];
      rewrite Hw; cbn [final saved saved_dict copied with_heap files];
      (split; [|try done]);
      try done;
      try (by rewrite lookup_total_insert_eq);
      try (intros _; rewrite lookup_insert_eq; by eexists). }
  split.
  { intros f c H. rewrite Hfiles. destruct (writable E _); [|done].
    rewrite lookup_insert_ne; [done|]. congruence. }
  split; [intros Ht'; congruence|].
  intros fin' _ Hu'. rewrite Hu in Hu'. injection Hu' as <-.
  split; intros Hw.
  - split; [|split; [by apply Hnew|]].
    + rewrite Hfiles, Hw. by apply map_size_insert_None.
    + intros f Hne. rewrite Hfiles, Hw. by rewrite lookup_insert_ne.
  - by rewrite Hfiles, Hw.
Qed.

(** Two saves in a row from the same desired name, over a directory that
    has neither [name.json] nor [name-2.json] and a file system that
    creates both: the first record is called [name], the second
    [name-2], both files and both catalog keys are there afterwards, and
    each file holds the conversation with its own time of creation. *)
Theorem save_twice (E1 E2 : env) (name : string) (w : world) :
  conversation_of w ≠ [] →
  files w !! json_file name = None →
  files w !! json_file (suffixed name 2) = None →
  writable E1 (json_file name) = true →
  writable E2 (json_file (suffixed name 2)) = true →
  suffixed name 2 = name +:+ "-2"
  ∧ ∃ w1 w2,
      save_conversation E1 name w = Returns tt w1
      ∧ save_conversation E2 name w1 = Returns tt w2
      ∧ current_name w1 = Some name
      ∧ current_name w2 = Some (suffixed name 2)
      ∧ files w2 !! json_file name
        = Some (Some (JObj [("name", JStr name);
                            ("created", JStr (now_iso E1));
                            ("conversation", JArr (conversation_of w))]))
      ∧ files w2 !! json_file (suffixed name 2)
        = Some (Some (JObj [("name", JStr (suffixed name 2));
                            ("created", JStr (now_iso E2));
                            ("conversation", JArr (conversation_of w))]))
      ∧ (∀ f, f ≠ json_file name → f ≠ json_file (suffixed name 2) →
              files w2 !! f = files w !! f)
      ∧ is_Some (history_by_name w2 !! KStr name)
      ∧ is_Some (history_by_name w2 !! KStr (suffixed name 2))
      ∧ length (history w2) = S (S (length (history w))).
Proof.
  intros Hc H1 H2 Hw1 Hw2. split; [reflexivity|].
  pose proof (conversation_allocated w Hc) as Hm.
  assert (json_file (suffixed name 2) ≠ json_file name) as Hne.
  { intros H%json_file_inj. by apply suffixed_ne in H. }
  assert (conversation_of (saved E1 name w) = conversation_of w) as Hc1.
  { unfold conversation_of at 1. cbn. by rewrite deref_alloc_old. }
  exists (saved E1 name w), (saved E2 (suffixed name 2) (saved E1 name w)).
  split.
  { apply save_conversation_writes; [done | by apply unique_path_first | done]. }
  split.
  { apply save_conversation_writes; [by rewrite Hc1| |done].
    apply unique_path_second; cbn.
    - rewrite lookup_insert_eq. by eexists.
    - by rewrite lookup_insert_ne. }
  split; [done|]. split; [done|]. split.
  { cbn [saved files]. rewrite lookup_insert_ne by done.
    by rewrite lookup_insert_eq. }
  split.
  { cbn [saved files]. rewrite lookup_insert_eq. by rewrite Hc1. }
  split.
  { intros f Hf1 Hf2. cbn [saved files].
    by rewrite !lookup_insert_ne. }
  split.
  { cbn [saved history_by_name].
    rewrite lookup_insert_ne, lookup_insert_eq; [by eexists|].
    intros [= H]. by apply suffixed_ne in H. }
  split.
  { cbn [saved history_by_name]. rewrite lookup_insert_eq. by eexists. }
  cbn [saved history]. rewrite !length_app. cbn. lia.
Qed.

Lemma save_twice_witness :
  (conversation_of W_chat ≠ []
   ∧ files W_chat !! json_file "x" = None
   ∧ files W_chat !! json_file (suffixed "x" 2) = None
   ∧ writable E_title (json_file "x") = true
   ∧ writable E_title (json_file (suffixed "x" 2)) = true)
  ∧ ∃ w1 w2,
      save_conversation E_title "x" W_chat = Returns tt w1
      ∧ save_conversation E_title "x" w1 = Returns tt w2
      ∧ current_name w2 = Some "x-2"
      ∧ is_Some (files w2 !! "x.json")
      ∧ is_Some (files w2 !! "x-2.json").
Proof.
  assert (conversation_of W_chat ≠ []) as H by discriminate.
  assert (writable E_title (json_file "x") = true) as Hw1
    by (vm_compute; reflexivity).
  assert (writable E_title (json_file (suffixed "x" 2)) = true) as Hw2
    by (vm_compute; reflexivity).
  split; [done|].
  destruct (save_twice E_title E_title "x" W_chat H eq_refl eq_refl Hw1 Hw2)
    as (_ & w1 & w2 & H1 & H2 & _ & H3 & H4 & H5 & _).
  exists w1, w2. split; [done|]. split; [done|]. split; [exact H3|].
  split; eexists; [exact H4 | exact H5].
Defined.

(** ** The commands that the claims leave out *)

Section printing.
Implicit Types (w : world).

Lemma same_session_refl w : same_session w w.
Proof. done. Qed.

Lemma same_session_trans w1 w2 w3 :
  same_session w1 w2 → same_session w2 w3 → same_session w1 w3.
Proof.
  intros (?&?&?&?&?&?) (?&?&?&?&?&?). repeat split; congruence.
Qed.

Lemma foldl_print_line {A} (g : A → line) (l : list A) w :
  same_session w (foldl (λ w a, print_line (g a) w) w l)
  ∧ stdout (foldl (λ w a, print_line (g a) w) w l) = stdout w ++ (g <$> l).
Proof.
  revert w. induction l as [|a l IH]; intros w.
  - split; [done|]. cbn. by rewrite app_nil_r.
  - cbn [foldl]. destruct (IH (print_line (g a) w)) as [Hs Ho]. split.
    + eapply same_session_trans; [|exact Hs]. done.
    + rewrite Ho. cbn. by rewrite <- app_assoc.
Qed.

Lemma conversation_append_live w x :
  heap w !! mem w = Some (PList (conversation_of w)) →
  list_append (mem w) x w = Returns tt (list_push (mem w) x w)
  ∧ heap (list_push (mem w) x w) !! mem w
    = Some (PList (conversation_of w ++ [x]))
  ∧ conversation_of (list_push (mem w) x w) = conversation_of w ++ [x].
Proof.
  intros Hv. split; [by eapply list_append_list|].
  pose proof (list_push_lookup w _ _ x Hv) as Hp. split; [done|].
  unfold conversation_of at 1, deref. cbn [mem list_push with_heap].
  by rewrite Hp.
Qed.

Lemma cmd_list_same_session w : same_session w (final (cmd_list w)).
Proof.
  unfold cmd_list. cbn [final].
  apply (foldl_print_line (λ e, Listed (e_name e) (e_created e))
           (history w) (print "Saved Conversations:" w)).
Qed.

Lemma cmd_help_same_session rows w :
  same_session w (final (cmd_help rows w)).
Proof.
  unfold cmd_help. cbn [final].
  apply (foldl_print_line
           (λ row : string * string,
              Line ("  " +:+ Py.ljust 16 row.1 +:+ " " +:+ row.2))
           rows (print "Commands:" w)).
Qed.
End printing.

(** [cmd_list] and [cmd_help] change nothing but the terminal.  [cmd_list]
    prints its header and then one line per record of [history], in the
    order of [history]; [cmd_help] prints its header and one line per
    row. *)
Theorem listing_commands_read_only (w : world)
    (rows : list (string * string)) :
  same_session w (final (cmd_list w))
  ∧ stdout (final (cmd_list w))
    = stdout w ++ Line "Saved Conversations:" :: listing (history w)
  ∧ same_session w (final (cmd_help rows w))
  ∧ stdout (final (cmd_help rows w))
    = stdout w ++ Line "Commands:"
        :: ((λ row, Line ("  " +:+ Py.ljust 16 row.1 +:+ " " +:+ row.2))
              <$> rows).
Proof.
  unfold cmd_list, cmd_help. cbn [final].
  destruct (foldl_print_line (λ e, Listed (e_name e) (e_created e))
              (history w) (print "Saved Conversations:" w)) as [H1 H2].
  destruct (foldl_print_line
              (λ row : string * string,
                 Line ("  " +:+ Py.ljust 16 row.1 +:+ " " +:+ row.2))
              rows (print "Commands:" w)) as [H3 H4].
  split; [exact H1|]. split.
  { cbn [print history] in H2 |- *. rewrite H2. cbn. by rewrite <- app_assoc. }
  split; [exact H3|].
  change (λ (w0 : world) (row : string * string),
            print ("  " +:+ Py.ljust 16 row.1 +:+ " " +:+ row.2) w0)
    with (λ (w0 : world) (row : string * string),
            print_line (Line ("  " +:+ Py.ljust 16 row.1 +:+ " " +:+ row.2))
              w0).
  rewrite H4. cbn. by rewrite <- app_assoc.
Qed.

(** [cmd_new] empties the active conversation in place and unbinds it;
    catalog, files and every other object stay.  What was in the
    conversation is gone for the program: a save right after is a no-op and
    an exit right after writes no file. *)
Theorem new_contract (E : env) (name : string) (w : world) :
  ∃ w',
    cmd_new w = Returns tt w'
    ∧ conversation_of w' = []
    ∧ current_name w' = None
    ∧ mem w' = mem w
    ∧ history w' = history w
    ∧ history_by_name w' = history_by_name w
    ∧ files w' = files w
    ∧ (∀ l, l ≠ mem w → heap w' !! l = heap w !! l)
    ∧ save_conversation E name w' = Returns tt w'
    ∧ cmd_exit E (generate_title_from_mem E) sanitize_filename
        (save_conversation E) w' = Raises SystemExit w'.
Proof.
  eexists. split; [reflexivity|].
  assert (conversation_of
            (print "Started a new conversation."
               (with_current_name None (obj_clear (mem w) w))) = []) as Hc
    by apply obj_clear_conversation.
  assert (mem_truthy
            (print "Started a new conversation."
               (with_current_name None (obj_clear (mem w) w))) = false) as Ht
    by apply obj_clear_falsy.
  split; [exact Hc|]. repeat (split; [done|]).
  split.
  { intros l Hl. by apply obj_clear_other. }
  split; [by apply save_conversation_empty | by apply cmd_exit_empty].
Qed.

(** [cmd_compress] on an empty conversation prints that there is nothing
    to compress and calls no model.  On a non-empty one, when the model
    answers, the active conversation becomes one assistant message holding
    the trimmed answer, in a new list object; the model was sent the
    conversation followed by the instruction; the bound name, the catalog
    and the files are as before.  When the active conversation is a dict
    with members (the copy of a record whose conversation is a JSON
    object), [append] raises before any model is called and nothing has
    changed. *)
Theorem compress_contract (E : env) (w : world) :
  (∀ reply : list json → world → result string,
     mem_truthy w = false →
     cmd_compress reply w = Returns tt (print "Nothing to compress." w))
  ∧ (conversation_of w = [] →
     (∀ m, heap w !! mem w = Some (PDict m) → m = []) →
     mem_truthy w = false)
  ∧ (∀ (reply : list json → world → result string) m,
       heap w !! mem w = Some (PDict m) → m ≠ [] →
       cmd_compress reply w = Raises AttributeError w)
  ∧ (∀ text,
       conversation_of w ≠ [] →
       chat E (conversation_of w ++ [message "user" COMPRESS_PROMPT])
         = Some text →
       ∃ w',
         cmd_compress (model_reply E) w = Returns tt w'
         ∧ conversation_of w' = [message "assistant" (Py.strip text)]
         ∧ mem w' ≠ mem w
         ∧ heap w' !! mem w
           = Some (PList
                     (conversation_of w ++ [message "user" COMPRESS_PROMPT]))
         ∧ current_name w' = current_name w
         ∧ history w' = history w
         ∧ history_by_name w' = history_by_name w
         ∧ files w' = files w
         ∧ stdout w' = stdout w ++ [Line "Conversation compressed."]).
Proof.
  split; [intros reply; apply compress_empty|].
  split.
  { intros Hc Hd. destruct (mem_truthy w) eqn:Ht; [|done]. exfalso.
    apply mem_truthy_cases in Ht as [H | (m & Hne & Hm)]; [done|].
    by apply Hne, Hd. }
  split; [intros reply m; apply compress_dict|].
  intros text Hc Hchat. rewrite compress_sends by done. cbv zeta.
  rewrite Hchat. eexists. split; [reflexivity|].
  pose proof (conversation_allocated w Hc) as Hm.
  pose proof (conversation_lookup w Hc) as Hl.
  split.
  { unfold conversation_of. cbn. unfold deref.
    rewrite lookup_app_r by (by rewrite length_alter).
    by rewrite length_alter, Nat.sub_diag. }
  split; [cbn; rewrite length_alter; lia|].
  split; [|done].
  cbn. rewrite lookup_app_l by (by rewrite length_alter).
  by rewrite list_lookup_alter_eq, Hl.
Qed.

Lemma compress_contract_witness :
  (conversation_of W_chat ≠ []
   ∧ chat E_title (conversation_of W_chat ++ [message "user" COMPRESS_PROMPT])
     = Some "  Trip to Rome ")
  ∧ ∃ w',
      cmd_compress (model_reply E_title) W_chat = Returns tt w'
      ∧ conversation_of w' = [message "assistant" "Trip to Rome"].
Proof.
  assert (conversation_of W_chat ≠ []) as H by discriminate.
  split; [done|].
  destruct (proj2 (proj2 (proj2 (compress_contract E_title W_chat)))
              _ H eq_refl) as (w' & H1 & H2 & _).
  by exists w'.
Defined.

(** A chat turn of the loop, on an active conversation that is a live
    list object: the raw line
    is appended as a user message and the whole conversation is sent to the
    model.  When the model answers, the trimmed answer is printed in yellow
    and appended as an assistant message: the conversation has grown by
    exactly these two messages.  When the model raises, the user message
    stays in the conversation and nothing is printed.  Bound name, catalog
    and files are as before in both cases. *)
Theorem chat_turn_contract (E : env) (user : string) (w : world) :
  heap w !! mem w = Some (PList (conversation_of w)) →
  (∀ text,
     chat E (conversation_of w ++ [message "user" user]) = Some text →
     ∃ w',
       chat_turn E user w = Continue w'
       ∧ conversation_of w'
         = conversation_of w
           ++ [message "user" user; message "assistant" (Py.strip text)]
       ∧ stdout w' = stdout w ++ [Line (YELLOW +:+ Py.strip text +:+ RESET)]
       ∧ mem w' = mem w ∧ current_name w' = current_name w
       ∧ history w' = history w
       ∧ history_by_name w' = history_by_name w ∧ files w' = files w)
  ∧ (chat E (conversation_of w ++ [message "user" user]) = None →
     ∃ w',
       chat_turn E user w = Crash ModelCallFailure w'
       ∧ conversation_of w' = conversation_of w ++ [message "user" user]
       ∧ stdout w' = stdout w
       ∧ mem w' = mem w ∧ current_name w' = current_name w
       ∧ history w' = history w
       ∧ history_by_name w' = history_by_name w ∧ files w' = files w).
Proof.
  intros Hm.
  destruct (conversation_append_live w (message "user" user) Hm)
    as (Ha & Hl & Hc).
  unfold chat_turn. cbv zeta. rewrite Ha. cbn [bind].
  unfold model_reply. rewrite Hc. split.
  - intros text ->. cbn [bind].
    set (w1 := print _ (list_push (mem w) (message "user" user) w)).
    assert (conversation_of w1 = conversation_of w ++ [message "user" user])
      as Hw1 by exact Hc.
    assert (heap w1 !! mem w1 = Some (PList (conversation_of w1))) as Hl1
      by (rewrite Hw1; exact Hl).
    destruct (conversation_append_live w1
                (message "assistant" (Py.strip text)) Hl1) as (Ha1 & _ & Hc1).
    rewrite Ha1. eexists. split; [reflexivity|].
    split; [by rewrite Hc1, Hw1, <- app_assoc|]. done.
  - intros ->. eexists. split; [reflexivity|]. done.
Qed.

Lemma chat_turn_contract_witness :
  heap W_chat !! mem W_chat = Some (PList (conversation_of W_chat))
  ∧ ∃ w',
      chat_turn E_title "where to?" W_chat = Continue w'
      ∧ conversation_of w'
        = conversation_of W_chat
          ++ [message "user" "where to?";
              message "assistant" "Trip to Rome"].
Proof.
  assert (heap W_chat !! mem W_chat = Some (PList (conversation_of W_chat)))
    as H by reflexivity.
  split; [exact H|].
  destruct (proj1 (chat_turn_contract E_title "where to?" W_chat H)
              "  Trip to Rome " eq_refl) as (w' & H1 & H2 & _).
  by exists w'.
Defined.

(** [run_command] reads the command word without regard to case and the
    line without regard to the whitespace around its parts: two lines with
    the same remainder whose first words agree up to case behave alike. *)
Theorem dispatch_ignores_case (table : list command)
    (line line' head head' rest : string) (w : world) :
  parsed line head rest → parsed line' head' rest →
  Py.lower head = Py.lower head' →
  run_command table line w = run_command table line' w.
Proof.
  intros Hp Hp' Hl.
  rewrite (run_command_parsed table line head rest w Hp).
  rewrite (run_command_parsed table line' head' rest w Hp').
  unfold lookup_command. by rewrite Hl.
Qed.

Lemma dispatch_ignores_case_witness :
  (parsed "LIST" "LIST" EmptyString ∧ parsed " list  " "list" EmptyString
   ∧ Py.lower "LIST" = Py.lower "list")
  ∧ run_command (command_table E_title) "LIST" W_chat
    = run_command (command_table E_title) " list  " W_chat.
Proof.
  assert (parsed "LIST" "LIST" EmptyString) as H1.
  { apply (parsed_bare _ EmptyString "LIST" EmptyString); try done.
    - constructor.
    - constructor.
    - split; [done | by repeat constructor]. }
  assert (parsed " list  " "list" EmptyString) as H2.
  { apply (parsed_bare _ " " "list" "  "); try done.
    - by repeat constructor.
    - by repeat constructor.
    - split; [done | by repeat constructor]. }
  split; [done|].
  exact (dispatch_ignores_case _ _ _ _ _ _ W_chat H1 H2 eq_refl).
Defined.

(** ** What every reachable session satisfies *)

Section settled.
Implicit Types (w : world) (n : string) (e : entry).

Lemma settled_gentle w w' : gentle w w' → settled w → settled w'.
Proof.
  intros (Hf & Hh & Hm & Hlen & Hheap & Hmem & Hlive & Hcur)
         (Hstep & Hb & Hlive0 & Hagree & Hrec).
  split; [by apply (in_step_same_store w)|]. split; [|split; [done|split]].
  - intros n Hn. rewrite Hm.
    destruct Hcur as [Hc|[Hc|(n' & Hc & Hk)]].
    + apply Hb. by rewrite <- Hc.
    + congruence.
    + rewrite Hc in Hn. by injection Hn as <-.
  - intros e. rewrite Hh, Hm. apply Hagree.
  - intros n e. rewrite Hm. intros He.
    destruct (Hrec n e He) as (Hname & Hloc & j & cv & Hfile & Hj & Hmir).
    split; [done|]. split.
    + intros l Hl. destruct (Hloc l Hl) as [H1 H2]. split; [lia|].
      destruct Hmem as [->|Hge]; [done | lia].
    + exists j, cv. rewrite Hf. split; [done|]. split; [done|].
      destruct cv as [| | | |conv|]; try done.
      destruct Hmir as (l & Hl & Hconv).
      exists l. split; [done|]. destruct (Hloc l Hl) as [H1 H2].
      by rewrite Hheap.
Qed.

Lemma gentle_refl w : mem w < length (heap w) → gentle w w.
Proof. intros H. repeat split; auto. Qed.

Lemma gentle_trans w1 w2 w3 : gentle w1 w2 → gentle w2 w3 → gentle w1 w3.
Proof.
  intros (Hf & Hh & Hm & Hlen & Hheap & Hmem & Hlive & Hcur)
         (Hf' & Hh' & Hm' & Hlen' & Hheap' & Hmem' & Hlive' & Hcur').
  split; [congruence|]. split; [congruence|]. split; [congruence|].
  split; [lia|]. split.
  { intros l Hl Hne. rewrite Hheap', Hheap; [done..| lia |].
    destruct Hmem as [->|Hge]; [done | lia]. }
  split.
  { destruct Hmem' as [->|Hge]; [done | right; lia]. }
  split; [done|].
  destruct Hcur' as [Hc|[Hc|(n & Hc & Hk)]].
  - rewrite Hc. done.
  - by right; left.
  - right; right. exists n. split; [done|]. by rewrite <- Hm.
Qed.

Lemma same_session_gentle w w' :
  mem w < length (heap w) → same_session w w' → gentle w w'.
Proof.
  intros H (Hm & Hc & Hh & Hk & Hheap & Hf). unfold gentle.
  rewrite Hm, Hc, Hh, Hk, Hheap, Hf. by apply gentle_refl.
Qed.

Lemma print_gentle s w : mem w < length (heap w) → gentle w (print s w).
Proof. intros H. by apply same_session_gentle. Qed.

Lemma list_push_gentle x w :
  mem w < length (heap w) → gentle w (list_push (mem w) x w).
Proof.
  intros H. unfold gentle, list_push. cbn. rewrite length_alter.
  repeat split; auto. intros l _ Hne. by rewrite list_lookup_alter_ne.
Qed.

Lemma list_append_gentle x w :
  mem w < length (heap w) → gentle w (final (list_append (mem w) x w)).
Proof.
  intros H. destruct (final_list_append w (mem w) x) as [-> | ->];
    [by apply list_push_gentle | by apply gentle_refl].
Qed.

Lemma list_append_live l x w :
  mem w < length (heap w) →
  mem (final (list_append l x w)) < length (heap (final (list_append l x w))).
Proof.
  intros H. destruct (final_list_append w l x) as [-> | ->]; [|done].
  cbn. by rewrite length_alter.
Qed.

Lemma obj_clear_gentle w :
  mem w < length (heap w) → gentle w (obj_clear (mem w) w).
Proof.
  intros H. unfold gentle, obj_clear. cbn. rewrite length_alter.
  repeat split; auto. intros l _ Hne. by rewrite list_lookup_alter_ne.
Qed.

Lemma unbind_gentle w :
  mem w < length (heap w) → gentle w (with_current_name None w).
Proof. intros H. unfold gentle. cbn. repeat split; auto. Qed.

Lemma fresh_mem_gentle (o : pyobj) w :
  mem w < length (heap w) →
  gentle w (with_mem (length (heap w)) (with_heap (heap w ++ [o]) w)).
Proof.
  intros H. unfold gentle. cbn. rewrite length_app. cbn.
  repeat split; auto; try lia. intros l Hl _. by rewrite lookup_app_l.
Qed.

Lemma loaded_gentle name (o : pyobj) w :
  mem w < length (heap w) →
  is_Some (history_by_name w !! KStr name) →
  gentle w (loaded name o w).
Proof.
  intros H Hk. unfold gentle, loaded. cbn. rewrite length_app. cbn.
  repeat split; auto; try lia.
  - intros l Hl _. by rewrite lookup_app_l.
  - right; right. eauto.
Qed.

(** Every outcome of [load_conversation]: a line printed, a fresh copy
    made the active conversation, or the error of a value without
    [copy]. *)
Lemma load_conversation_cases name w :
  load_conversation name w
  = Returns tt (print "No conversation found with that name." w)
    ∧ history_by_name w !! KStr name = None
  ∨ (∃ o, load_conversation name w = Returns tt (loaded name o w))
    ∧ is_Some (history_by_name w !! KStr name)
  ∨ load_conversation name w = Raises AttributeError w.
Proof.
  unfold load_conversation.
  destruct (history_by_name w !! KStr name) as [e|] eqn:Hk; [|by left].
  right. destruct (e_conversation e) as [l|[]]; cbn [copy_value bind];
    try (by right);
    left; (split; [|by eexists]); eexists; reflexivity.
Qed.

Lemma load_conversation_gentle name w :
  mem w < length (heap w) → gentle w (final (load_conversation name w)).
Proof.
  intros H.
  destruct (load_conversation_cases name w)
    as [[-> _] | [[[o ->] Hk] | ->]]; cbn [final].
  - by apply print_gentle.
  - by apply loaded_gentle.
  - by apply gentle_refl.
Qed.

Lemma cmd_load_gentle arg w :
  mem w < length (heap w) →
  gentle w (final (cmd_load arg load_conversation w)).
Proof.
  intros H. unfold cmd_load.
  destruct (negb _); [by apply print_gentle|].
  by apply load_conversation_gentle.
Qed.

Lemma cmd_new_gentle w :
  mem w < length (heap w) → gentle w (final (cmd_new w)).
Proof.
  intros H. unfold cmd_new. cbn [final].
  eapply gentle_trans; [by apply obj_clear_gentle|].
  eapply gentle_trans; [apply unbind_gentle|apply print_gentle];
    cbn; by rewrite length_alter.
Qed.

Lemma cmd_compress_gentle E w :
  mem w < length (heap w) →
  gentle w (final (cmd_compress (model_reply E) w)).
Proof.
  intros H. unfold cmd_compress.
  destruct (mem_truthy w); cbn [negb]; [|by apply print_gentle].
  pose proof (list_append_gentle (message "user" COMPRESS_PROMPT) w H) as Hg.
  pose proof (list_append_live (mem w) (message "user" COMPRESS_PROMPT) w H)
    as H1.
  destruct (list_append (mem w) (message "user" COMPRESS_PROMPT) w)
    as [[] w1|e w1]; cbn [bind final] in *; [|done].
  unfold model_reply.
  destruct (chat E _); cbn [bind final]; [|done].
  eapply gentle_trans; [exact Hg|].
  unfold alloc.
  eapply gentle_trans; [by apply fresh_mem_gentle|].
  apply print_gentle. cbn. rewrite length_app. cbn. lia.
Qed.

Lemma chat_turn_gentle E user w :
  mem w < length (heap w) → gentle w (round_world (chat_turn E user w)).
Proof.
  intros H. unfold chat_turn. cbv zeta.
  pose proof (list_append_gentle (message "user" user) w H) as Hg.
  pose proof (list_append_live (mem w) (message "user" user) w H) as H1.
  destruct (list_append (mem w) (message "user" user) w)
    as [[] w1|e w1]; cbn [bind final round_world] in *; [|done].
  unfold model_reply.
  destruct (chat E _) as [text|]; cbn [bind round_world]; [|done].
  set (w2 := print (YELLOW +:+ Py.strip text +:+ RESET) w1).
  assert (mem w2 < length (heap w2)) as H2 by exact H1.
  pose proof (list_append_gentle (message "assistant" (Py.strip text)) w2 H2)
    as Hg2.
  assert (gentle w w2) as Hg1
    by (eapply gentle_trans; [exact Hg | by apply print_gentle]).
  destruct (list_append (mem w2) (message "assistant" (Py.strip text)) w2)
    as [[] w3|e w3]; cbn [final round_world] in *;
    by eapply gentle_trans.
Qed.

Lemma cmd_list_gentle w :
  mem w < length (heap w) → gentle w (final (cmd_list w)).
Proof.
  intros H. apply same_session_gentle; [done|].
  apply cmd_list_same_session.
Qed.

Lemma cmd_help_gentle rows w :
  mem w < length (heap w) → gentle w (final (cmd_help rows w)).
Proof.
  intros H. apply same_session_gentle; [done|].
  apply cmd_help_same_session.
Qed.
End settled.

Section settled_store.
Implicit Types (w : world) (n : string) (e : entry).

Lemma mirrors_grow (h : list pyobj) (v : pyobj) cv r :
  mirrors h cv r → mirrors (h ++ [v]) cv r.
Proof.
  destruct cv as [| | | |conv|]; try done. intros (l & Hl & Hconv).
  exists l. split; [done|]. rewrite lookup_app_l; [done|].
  by apply lookup_lt_Some in Hconv.
Qed.

Lemma saved_settled E final w :
  settled w → conversation_of w ≠ [] →
  files w !! json_file final = None →
  settled (saved E final w).
Proof.
  intros (Hstep & Hb & Hlive & Hagree & Hrec) Hc Hfree.
  assert (history_by_name w !! KStr final = None) as Hnokey.
  { destruct Hstep as [_ [Hcons _]]. apply eq_None_not_Some.
    intros H%Hcons. rewrite Hfree in H. by destruct H. }
  split; [by apply saved_in_step|]. split; [|split; [|split]].
  - intros n. cbn. intros [= <-]. rewrite lookup_insert_eq. by eexists.
  - cbn. rewrite length_app. cbn. lia.
  - intros e. cbn. rewrite elem_of_app, list_elem_of_singleton, Hagree.
    split.
    + intros [(n & Hn)| ->].
      * exists n. rewrite lookup_insert_ne; [done|]. congruence.
      * exists final. by rewrite lookup_insert_eq.
    + intros (n & Hn). destruct (decide (n = final)) as [-> |Hne].
      * rewrite lookup_insert_eq in Hn. right. congruence.
      * rewrite lookup_insert_ne in Hn by congruence. left. eauto.
  - intros n e. cbn. destruct (decide (n = final)) as [-> |Hne].
    + rewrite lookup_insert_eq. intros [= <-]. cbn.
      split; [done|]. split.
      { intros l [= <-]. rewrite length_app. cbn. lia. }
      eexists _, _. rewrite lookup_insert_eq.
      split; [done|]. split; [apply as_record_dump|].
      cbn. exists (length (heap w)). split; [done|].
      rewrite lookup_app_r by lia. by rewrite Nat.sub_diag.
    + rewrite lookup_insert_ne by congruence. intros He.
      destruct (Hrec n e He) as (Hname & Hloc & j & cv & Hfile & Hj & Hmir).
      split; [done|]. split.
      { intros l Hl. destruct (Hloc l Hl). rewrite length_app. cbn. lia. }
      exists j, cv. rewrite lookup_insert_ne.
      * split; [done|]. split; [done|]. by apply mirrors_grow.
      * intros H. by apply json_file_inj in H.
Qed.

Lemma saved_dict_settled E final m w :
  settled w →
  files w !! json_file final = None →
  settled (saved_dict E final m w).
Proof.
  intros (Hstep & Hb & Hlive & Hagree & Hrec) Hfree.
  assert (history_by_name w !! KStr final = None) as Hnokey.
  { destruct Hstep as [_ [Hcons _]]. apply eq_None_not_Some.
    intros H%Hcons. rewrite Hfree in H. by destruct H. }
  split; [by apply saved_dict_in_step|]. split; [|split; [|split]].
  - intros n. cbn. intros [= <-]. rewrite lookup_insert_eq. by eexists.
  - done.
  - intros e. cbn. rewrite elem_of_app, list_elem_of_singleton, Hagree.
    split.
    + intros [(n & Hn)| ->].
      * exists n. rewrite lookup_insert_ne; [done|]. congruence.
      * exists final. by rewrite lookup_insert_eq.
    + intros (n & Hn). destruct (decide (n = final)) as [-> |Hne].
      * rewrite lookup_insert_eq in Hn. right. congruence.
      * rewrite lookup_insert_ne in Hn by congruence. left. eauto.
  - intros n e. cbn. destruct (decide (n = final)) as [-> |Hne].
    + rewrite lookup_insert_eq. intros [= <-]. cbn.
      split; [done|]. split; [done|].
      eexists _, _. rewrite lookup_insert_eq.
      split; [done|]. split; [apply as_record_dump|]. done.
    + rewrite lookup_insert_ne by congruence. intros He.
      destruct (Hrec n e He) as (Hname & Hloc & j & cv & Hfile & Hj & Hmir).
      split; [done|]. split; [done|].
      exists j, cv. rewrite lookup_insert_ne; [done|].
      intros H. by apply json_file_inj in H.
Qed.

Lemma copied_gentle w : mem w < length (heap w) → gentle w (copied w).
Proof.
  intros H. unfold gentle, copied. cbn. rewrite length_app. cbn.
  repeat split; auto; try lia. intros l Hl _. by rewrite lookup_app_l.
Qed.

Lemma save_conversation_settled E name w :
  settled w → settled (final (save_conversation E name w)).
Proof.
  intros H. assert (mem w < length (heap w)) as Hm by apply H.
  destruct (save_conversation_cases E name w)
    as [[_ ->] | (fin & _ & Hf & [[Hc [[_ ->]|[_ ->]]]
                                 |(m & _ & _ & [[_ ->]|[_ ->]])])];
    cbn [final]; try done.
  - by apply saved_settled.
  - eapply settled_gentle; [|done]. by apply copied_gentle.
  - by apply saved_dict_settled.
Qed.

Lemma deleted_settled arg w : settled w → settled (deleted arg w).
Proof.
  intros (Hstep & Hb & Hlive & Hagree & Hrec).
  split; [by apply deleted_in_step|]. split; [|split; [|split]].
  - intros n. cbn. destruct (bool_decide (current_name w = Some arg)) eqn:Hd;
      [done|]. intros Hn. apply bool_decide_eq_false in Hd.
    rewrite lookup_delete_ne by congruence. by apply Hb.
  - done.
  - intros e. cbn. rewrite filter_kept, json_ne_str_true, Hagree. split.
    + intros [(n & Hn) Hne]. exists n. rewrite lookup_delete_ne; [done|].
      intros [= <-]. destruct (Hrec arg e Hn) as [Hname _]. done.
    + intros (n & Hn). apply lookup_delete_Some in Hn as [Hne Hn].
      split; [eauto|]. destruct (Hrec n e Hn) as [-> _]. congruence.
  - intros n e. cbn. intros [Hne He]%lookup_delete_Some.
    destruct (Hrec n e He) as (Hname & Hloc & j & cv & Hfile & Hj & Hmir).
    split; [done|]. split; [done|]. exists j, cv.
    rewrite lookup_delete_ne; [done|].
    intros H%json_file_inj. congruence.
Qed.

Lemma cmd_delete_settled E arg w :
  settled w → settled (final (cmd_delete E arg w)).
Proof.
  intros H. assert (mem w < length (heap w)) as Hm by apply H.
  destruct (cmd_delete_cases E arg w) as [[s ->] | [[-> _] | ->]];
    cbn [final]; [|by apply deleted_settled | done].
  eapply settled_gentle; [|done]. by apply print_gentle.
Qed.

(** *** [load_history] *)

Lemma load_file_with_record w n j created cv :
  as_record j = Some (JStr n, created, cv) →
  load_file w (json_file n, Some j) = with_record n created cv w.
Proof.
  intros Hj. unfold load_file. rewrite json_file_endswith, Hj. cbn [negb].
  by destruct cv.
Qed.

Lemma with_record_frame n created cv w :
  files (with_record n created cv w) = files w
  ∧ mem (with_record n created cv w) = mem w
  ∧ current_name (with_record n created cv w) = current_name w
  ∧ stdout (with_record n created cv w) = stdout w
  ∧ (∀ k, is_Some (history_by_name (with_record n created cv w) !! k)
          ↔ k = KStr n ∨ is_Some (history_by_name w !! k)).
Proof.
  assert (∀ (e : entry) k,
            is_Some (<[KStr n := e]> (history_by_name w) !! k)
            ↔ k = KStr n ∨ is_Some (history_by_name w !! k)) as Hk.
  { intros e k. destruct (decide (k = KStr n)) as [-> |Hne].
    - rewrite lookup_insert_eq. split; [by left | by eexists].
    - rewrite lookup_insert_ne by done. split; [by right|].
      by intros [|]. }
  destruct cv; repeat split; try done; apply Hk.
Qed.

Lemma with_record_mirrored n j created cv w :
  mirrored w →
  history_by_name w !! KStr n = None →
  files w !! json_file n = Some (Some j) →
  as_record j = Some (JStr n, created, cv) →
  mirrored (with_record n created cv w).
Proof.
  intros (Hlive & Hagree & Hrec) Hnokey Hfile Hj.
  set (r := match cv with
            | JArr _ => RList (length (heap w))
            | _ => RVal cv
            end).
  set (h' := match cv with
             | JArr conv => heap w ++ [PList conv]
             | _ => heap w
             end).
  assert (with_record n created cv w
          = World (mem w) (current_name w)
              (history w ++ [Entry (JStr n) created r])
              (<[KStr n := Entry (JStr n) created r]> (history_by_name w))
              h' (files w) (stdout w)) as -> by (by destruct cv).
  assert (length (heap w) ≤ length h') as Hlen.
  { subst h'. destruct cv; try done. rewrite length_app. lia. }
  assert (∀ l, l < length (heap w) → h' !! l = heap w !! l) as Hold.
  { intros l Hl. subst h'. destruct cv; try done. by rewrite lookup_app_l. }
  split; [cbn; lia|]. split.
  - intros e. cbn. rewrite elem_of_app, list_elem_of_singleton, Hagree.
    split.
    + intros [(n' & Hn)| ->].
      * exists n'. rewrite lookup_insert_ne; [done|]. congruence.
      * exists n. by rewrite lookup_insert_eq.
    + intros (n' & Hn). destruct (decide (n' = n)) as [-> |Hne].
      * rewrite lookup_insert_eq in Hn. right. congruence.
      * rewrite lookup_insert_ne in Hn by congruence. left. eauto.
  - intros n' e. cbn. destruct (decide (n' = n)) as [-> |Hne].
    + rewrite lookup_insert_eq. intros [= <-]. cbn.
      split; [done|]. split.
      { intros l Hl. subst r h'. destruct cv; try done.
        injection Hl as <-. rewrite length_app. cbn. lia. }
      exists j, cv. split; [done|]. split; [done|].
      subst r h'. destruct cv as [| | | |conv|]; try done. cbn.
      exists (length (heap w)). split; [done|].
      rewrite lookup_app_r by lia. by rewrite Nat.sub_diag.
    + rewrite lookup_insert_ne by congruence. intros He.
      destruct (Hrec n' e He) as (Hname & Hloc & j' & cv' & Hf' & Hj' & Hmir).
      split; [done|]. split.
      { intros l Hl. destruct (Hloc l Hl). lia. }
      exists j', cv'. split; [done|]. split; [done|].
      destruct cv' as [| | | |conv'|]; try done.
      destruct Hmir as (l & Hl & Hconv). exists l. split; [done|].
      rewrite Hold; [done|]. by destruct (Hloc l Hl).
Qed.

Lemma load_files_mirrored (l : list (string * option json)) w :
  tidy (files w) →
  (∀ f c, (f, c) ∈ l → files w !! f = Some c) →
  NoDup l.*1 →
  (∀ k, is_Some (history_by_name w !! k) →
        ∃ n, k = KStr n ∧ json_file n ∉ l.*1) →
  mirrored w →
  mirrored (foldl load_file w l)
  ∧ mem (foldl load_file w l) = mem w
  ∧ current_name (foldl load_file w l) = current_name w
  ∧ stdout (foldl load_file w l) = stdout w.
Proof.
  revert w. induction l as [|[f c] l IH]; intros w Ht Hl Hnd Hkeys Hm;
    [done|].
  cbn [foldl]. apply NoDup_cons in Hnd as [Hnotin Hnd].
  assert (files w !! f = Some c) as Hfc by (apply Hl, elem_of_cons; by left).
  destruct (Ht f c Hfc) as (n & j & cr & cv & -> & -> & Hj).
  rewrite (load_file_with_record w n j cr cv Hj).
  destruct (with_record_frame n cr cv w) as (Hf & Hmem & Hcur & Hout & Hk).
  destruct (IH (with_record n cr cv w)) as (H1 & H2 & H3 & H4).
  - by rewrite Hf.
  - intros f' c' H. rewrite Hf. apply Hl, elem_of_cons. by right.
  - done.
  - intros k [-> |Hold]%Hk.
    + exists n. split; [done|]. exact Hnotin.
    + destruct (Hkeys k Hold) as (n' & -> & Hn'). exists n'. split; [done|].
      intros H. apply Hn'. cbn. apply elem_of_cons. by right.
  - apply (with_record_mirrored n j); try done.
    apply eq_None_not_Some. intros H.
    destruct (Hkeys _ H) as (n' & [= <-] & Hn'). apply Hn'. cbn.
    apply elem_of_cons. by left.
  - split; [done|]. rewrite H2, H3, H4. done.
Qed.

Lemma load_history_settled w :
  tidy (files w) → mem w < length (heap w) →
  (∀ n, current_name w = Some n → is_Some (files w !! json_file n)) →
  settled (load_history w).
Proof.
  intros Ht Hlive Hb.
  pose proof (load_history_in_step w Ht) as Hstep.
  split; [done|].
  destruct (load_files_mirrored (map_to_list (files w))
              (with_history_by_name ∅ (with_history [] w)))
    as (Hm & Hmem & Hcur & Hout).
  - done.
  - intros f c H. by apply elem_of_map_to_list in H.
  - apply NoDup_fst_map_to_list.
  - intros k H. cbn in H. rewrite lookup_empty in H. by destruct H.
  - split; [done|]. split.
    + intros e. cbn. split; [by intros H%elem_of_nil|].
      intros (n & H). by rewrite lookup_empty in H.
    + intros n e. cbn. by rewrite lookup_empty.
  - split.
    + intros n Hn. destruct Hstep as [_ [Hcons _]]. apply Hcons.
      rewrite load_history_files. apply Hb.
      unfold load_history in Hn. cbn in Hn. by rewrite Hcur in Hn.
    + unfold load_history. cbn.
      destruct Hm as (H1 & H2 & H3). done.
Qed.

Lemma boot_settled dir : tidy dir → settled (boot dir).
Proof.
  intros Ht. unfold boot. apply load_history_settled; cbn; [done | lia |].
  done.
Qed.

Lemma reload_settled w : settled w → settled (load_history w).
Proof.
  intros (Hstep & Hb & Hlive & Hagree & Hrec).
  apply load_history_settled; [apply Hstep | done |].
  intros n Hn. destruct Hstep as [_ [Hcons _]]. by apply Hcons, Hb.
Qed.
End settled_store.

Section settled_run.
Implicit Types (w : world) (n : string).

Lemma settled_live w : settled w → mem w < length (heap w).
Proof. intros H. apply H. Qed.

Lemma cmd_exit_settled E w :
  settled w →
  settled (final (cmd_exit E (generate_title_from_mem E) sanitize_filename
                    (save_conversation E) w)).
Proof.
  intros H. pose proof (settled_live w H) as Hm. unfold cmd_exit.
  destruct (mem_truthy w); [|done]. cbn [negb].
  destruct (bound_name w) as [n|] eqn:Hb.
  - pose proof (save_conversation_settled E n w H) as Hs.
    destruct (save_conversation E n w) as [[] w1|e w1]; cbn [bind final] in *;
      [|done].
    eapply settled_gentle; [|exact Hs]. by apply print_gentle, settled_live.
  - destruct (generate_title_cases E w) as [[e ->] | [title ->]];
      cbn [bind final]; [done|].
    match goal with
    | |- context [save_conversation E ?n ?w'] =>
        assert (settled (final (save_conversation E n w'))) as Hs
          by (apply save_conversation_settled;
              eapply settled_gentle; [by apply print_gentle | done]);
        destruct (save_conversation E n w') as [[] w1|e w1]
    end; cbn [bind final] in *; [|done].
    eapply settled_gentle; [|exact Hs]. by apply print_gentle, settled_live.
Qed.

Lemma command_table_settled E cmd arg w :
  In cmd (command_table E) →
  settled w → settled (final (func cmd arg w)).
Proof.
  intros Hin H. pose proof (settled_live w H) as Hm. cbn in Hin.
  destruct Hin as [<-|[<-|[<-|[<-|[<-|[<-|[<-|[<-|[]]]]]]]]]; cbn [func].
  - eapply settled_gentle; [by apply cmd_help_gentle | done].
  - eapply settled_gentle; [by apply cmd_list_gentle | done].
  - eapply settled_gentle; [by apply cmd_load_gentle | done].
  - by apply cmd_delete_settled.
  - eapply settled_gentle; [by apply cmd_compress_gentle | done].
  - by apply reload_settled.
  - eapply settled_gentle; [by apply cmd_new_gentle | done].
  - by apply cmd_exit_settled.
Qed.

Lemma run_command_settled E line w :
  settled w → settled (final (run_command (command_table E) line w)).
Proof.
  intros H. destruct (line_parses line) as [Hb|(head & rest & Hp)].
  { by rewrite run_command_blank. }
  rewrite (run_command_parsed _ line head rest w Hp).
  destruct (lookup_command (command_table E) head) as [cmd|] eqn:Hl; [|done].
  apply find_some in Hl as [Hin _].
  destruct (wants_arg cmd).
  { rewrite final_handled. by apply (command_table_settled E). }
  destruct (Py.truthy rest); [done|].
  rewrite final_handled. by apply (command_table_settled E).
Qed.

Lemma loop_round_settled E line w :
  settled w → settled (round_world (loop_round E line w)).
Proof.
  intros H. pose proof (run_command_settled E line w H) as Hr.
  unfold loop_round.
  destruct (run_command (command_table E) line w) as [[] w'|[] w'];
    cbn [final round_world] in *; try done.
  eapply settled_gentle; [|done]. by apply chat_turn_gentle, settled_live.
Qed.

Lemma apply_op_settled o w : settled w → settled (apply_op o w).
Proof.
  intros H. pose proof (settled_live w H) as Hm.
  destruct o; cbn [apply_op].
  - by apply save_conversation_settled.
  - by apply cmd_delete_settled.
  - by apply reload_settled.
  - eapply settled_gentle; [by apply load_conversation_gentle | done].
  - eapply settled_gentle; [by apply cmd_new_gentle | done].
  - eapply settled_gentle; [by apply cmd_compress_gentle | done].
  - by apply cmd_exit_settled.
  - by apply loop_round_settled.
  - apply boot_settled, H.
Qed.

Lemma run_settled ops w : settled w → settled (run ops w).
Proof.
  revert w. induction ops as [|o ops IH]; intros w H; [done|].
  cbn [run foldl]. apply IH. by apply apply_op_settled.
Qed.

Lemma reachable_settled dir ops : tidy dir → settled (run ops (boot dir)).
Proof. intros H. by apply run_settled, boot_settled. Qed.
End settled_run.

(** In every session the program reaches over a directory of its own
    records, a bound name is the name of a record of the catalog whose file
    exists. *)
Theorem bound_name_has_record (dir : gmap string (option json))
    (ops : list op) (n : string) :
  tidy dir →
  current_name (run ops (boot dir)) = Some n →
  is_Some (history_by_name (run ops (boot dir)) !! KStr n)
  ∧ is_Some (files (run ops (boot dir)) !! json_file n).
Proof.
  intros Ht Hn.
  destruct (reachable_settled dir ops Ht) as ([_ [Hcons _]] & Hb & _).
  split; [by apply Hb | by apply Hcons, Hb].
Qed.

Lemma bound_name_has_record_witness :
  (tidy ∅
   ∧ current_name (run [Input E_title "hello"; Exit E_title] (boot ∅))
     = Some "Trip to Rome")
  ∧ is_Some (files (run [Input E_title "hello"; Exit E_title] (boot ∅))
               !! json_file "Trip to Rome").
Proof.
  assert (current_name (run [Input E_title "hello"; Exit E_title] (boot ∅))
          = Some "Trip to Rome") as H by (vm_compute; reflexivity).
  split; [split; [exact tidy_empty | exact H]|].
  exact (proj2 (bound_name_has_record ∅ _ "Trip to Rome" tidy_empty H)).
Defined.

(** In every such session [history], which [cmd_list] prints, holds
    exactly the records that [history_by_name] can find, and each of them
    carries its key as its name. *)
Theorem history_lists_the_catalog (dir : gmap string (option json))
    (ops : list op) :
  tidy dir →
  (∀ e, e ∈ history (run ops (boot dir))
        ↔ ∃ n, history_by_name (run ops (boot dir)) !! KStr n = Some e)
  ∧ (∀ n e, history_by_name (run ops (boot dir)) !! KStr n = Some e →
            e_name e = JStr n).
Proof.
  intros Ht.
  destruct (reachable_settled dir ops Ht) as (_ & _ & _ & Hagree & Hrec).
  split; [done|]. intros n e He. by destruct (Hrec n e He).
Qed.

Lemma history_lists_the_catalog_witness :
  tidy ∅
  ∧ ∀ e, e ∈ history (run [Input E_title "hello"; Exit E_title] (boot ∅))
         ↔ ∃ n, history_by_name
                  (run [Input E_title "hello"; Exit E_title] (boot ∅))
                  !! KStr n = Some e.
Proof.
  split; [exact tidy_empty|].
  exact (proj1 (history_lists_the_catalog ∅ _ tidy_empty)).
Defined.

(** In every such session each record of the catalog mirrors its file: the
    file declares the record's name and creation time, and when its
    conversation is an array the record holds exactly those messages. *)
Theorem catalog_mirrors_files (dir : gmap string (option json))
    (ops : list op) (n : string) (e : entry) :
  tidy dir →
  history_by_name (run ops (boot dir)) !! KStr n = Some e →
  ∃ j cv,
    files (run ops (boot dir)) !! json_file n = Some (Some j)
    ∧ as_record j = Some (JStr n, e_created e, cv)
    ∧ mirrors (heap (run ops (boot dir))) cv (e_conversation e)
    ∧ ∀ conv, cv = JArr conv →
        stored_conversation (run ops (boot dir)) n = Some conv.
Proof.
  intros Ht He.
  destruct (reachable_settled dir ops Ht) as (_ & _ & _ & _ & Hrec).
  destruct (Hrec n e He) as (_ & _ & j & cv & Hf & Hj & Hmir).
  exists j, cv. repeat (split; [done|]).
  intros conv ->. destruct Hmir as (l & Hl & Hconv).
  unfold stored_conversation. by rewrite He, Hl, Hconv.
Qed.

Lemma catalog_mirrors_files_witness :
  (tidy ∅
   ∧ history_by_name
       (run [Input E_title "hello"; Exit E_title; Restart] (boot ∅))
       !! KStr "Trip to Rome"
     = Some (Entry (JStr "Trip to Rome") (JStr "2026-01-01T09:00:00")
               (RList 1)))
  ∧ ∃ j cv,
      files (run [Input E_title "hello"; Exit E_title; Restart] (boot ∅))
        !! json_file "Trip to Rome" = Some (Some j)
      ∧ as_record j
        = Some (JStr "Trip to Rome", JStr "2026-01-01T09:00:00", cv).
Proof.
  assert (history_by_name
            (run [Input E_title "hello"; Exit E_title; Restart] (boot ∅))
            !! KStr "Trip to Rome"
          = Some (Entry (JStr "Trip to Rome") (JStr "2026-01-01T09:00:00")
                    (RList 1))) as He by (vm_compute; reflexivity).
  split; [split; [exact tidy_empty | exact He]|].
  destruct (catalog_mirrors_files ∅ _ "Trip to Rome" _ tidy_empty He)
    as (j & cv & Hf & Hj & _).
  exists j, cv. split; [exact Hf | exact Hj].
Defined.

(** In every such session the active conversation is a live object (a
    list; a dict after the load of a record whose conversation is a JSON
    object) that no record of the catalog shares: whatever is appended to
    it or cleared from it in place, every record keeps its messages. *)
Theorem records_never_alias_the_conversation
    (dir : gmap string (option json)) (ops : list op)
    (ms : list mutation) (n : string) :
  tidy dir →
  mem (run ops (boot dir)) < length (heap (run ops (boot dir)))
  ∧ (∀ e l, history_by_name (run ops (boot dir)) !! KStr n = Some e →
            e_conversation e = RList l → l ≠ mem (run ops (boot dir)))
  ∧ stored_conversation (mutations ms (run ops (boot dir))) n
    = stored_conversation (run ops (boot dir)) n.
Proof.
  intros Ht.
  destruct (reachable_settled dir ops Ht) as (_ & _ & Hlive & _ & Hrec).
  split; [done|]. split.
  { intros e l He Hl. destruct (Hrec n e He) as (_ & Hloc & _).
    by destruct (Hloc l Hl). }
  destruct (history_by_name (run ops (boot dir)) !! KStr n) as [e|] eqn:He.
  - destruct (e_conversation e) as [l|j] eqn:Hl.
    + apply (stored_conversation_mutations ms _ n e l He Hl).
      destruct (Hrec n e He) as (_ & Hloc & _). by destruct (Hloc l Hl).
    + unfold stored_conversation.
      destruct (mutations_frame ms (run ops (boot dir)))
        as (_ & _ & _ & -> & _). by rewrite He, Hl.
  - unfold stored_conversation.
    destruct (mutations_frame ms (run ops (boot dir)))
      as (_ & _ & _ & -> & _). by rewrite He.
Qed.

Lemma records_never_alias_the_conversation_witness :
  tidy ∅
  ∧ stored_conversation
      (mutations [Clear; Append (message "user" "again")]
         (run [Input E_title "hello"; Exit E_title; Load "Trip to Rome"]
            (boot ∅))) "Trip to Rome"
    = stored_conversation
        (run [Input E_title "hello"; Exit E_title; Load "Trip to Rome"]
           (boot ∅)) "Trip to Rome".
Proof.
  split; [exact tidy_empty|].
  exact (proj2 (proj2 (records_never_alias_the_conversation ∅ _ _
                         "Trip to Rome" tidy_empty))).
Defined.

(** ** Loading, restarting and undoing a save *)

Section load_extras.
Implicit Types (w : world) (n name final : string) (e : entry).

Lemma tidy_insert_dump dir final created (conv : json) :
  tidy dir →
  tidy (<[json_file final := Some (dump_entry final created conv)]> dir).
Proof.
  intros Ht f c H.
  apply lookup_insert_Some in H as [[<- <-]|[_ H]]; [|by apply Ht].
  exists final, (dump_entry final created conv). eexists _, _.
  split; [done|]. split; [done|]. apply as_record_dump.
Qed.

Lemma unique_path_not_empty dir n final p :
  n ≠ EmptyString → unique_path dir n = Some (final, p) →
  final ≠ EmptyString.
Proof.
  intros Hn Hu.
  destruct (unique_path_resolves dir n) as (fin & Hu' & _ & Hid & Hsuf).
  rewrite Hu in Hu'. injection Hu' as -> ->.
  destruct (path_exists dir (json_file n)) eqn:He.
  - destruct (Hsuf eq_refl) as (i & _ & -> & _). unfold suffixed.
    by apply app_not_empty_r.
  - by rewrite (Hid eq_refl).
Qed.

Lemma filter_all {A} (f : A → bool) (l : list A) :
  (∀ x, x ∈ l → f x = true) → List.filter f l = l.
Proof.
  induction l as [|x l IH]; intros H; [done|]. cbn.
  rewrite (H x) by (apply elem_of_cons; by left). f_equal. apply IH.
  intros y Hy. apply H, elem_of_cons. by right.
Qed.
End load_extras.

(** ** [load_history] over any directory *)

Section load_any.
Implicit Types (w : world) (fc : string * option json).

Lemma load_file_skips w fc : record_file fc = false → load_file w fc = w.
Proof.
  destruct fc as [f c]. unfold record_file, load_file. cbn.
  destruct (Py.endswith (Py.lower f) ".json"); [|done]. cbn.
  destruct c as [j|]; [|done]. intros H%bool_decide_eq_false.
  destruct (as_record j) as [[[nm cr] cv]|]; [|done].
  destruct H. by eexists.
Qed.

Lemma load_file_takes w fc :
  record_file fc = true →
  ∃ e j cv extra,
    fc.2 = Some j ∧ as_record j = Some (e_name e, e_created e, cv)
    ∧ history (load_file w fc) = history w ++ [e]
    ∧ heap (load_file w fc) = heap w ++ extra
    ∧ history_by_name (load_file w fc)
      = match hash_key (e_name e) with
        | Some k => <[k := e]> (history_by_name w)
        | None => history_by_name w
        end
    ∧ mem (load_file w fc) = mem w
    ∧ current_name (load_file w fc) = current_name w
    ∧ stdout (load_file w fc) = stdout w.
Proof.
  destruct fc as [f c]. unfold record_file, load_file. cbn.
  destruct (Py.endswith (Py.lower f) ".json"); [|done]. cbn.
  destruct c as [j|]; [|done]. intros H%bool_decide_eq_true.
  destruct (as_record j) as [[[nm cr] cv]|] eqn:Hj; [|by destruct H].
  destruct cv as [| | | |conv|]; cbn.
  1-4,6: eexists (Entry nm cr (RVal _)), j, _, []; cbn;
    rewrite app_nil_r; destruct (hash_key nm); done.
  eexists (Entry nm cr (RList (length (heap w)))), j, _, [PList conv]; cbn.
  destruct (hash_key nm); done.
Qed.

Lemma load_files_any (l : list (string * option json)) w :
  length (history (foldl load_file w l))
  = length (history w) + length (List.filter record_file l)
  ∧ mem (foldl load_file w l) = mem w
  ∧ current_name (foldl load_file w l) = current_name w
  ∧ stdout (foldl load_file w l) = stdout w
  ∧ (∀ i, i < length (heap w) →
          heap (foldl load_file w l) !! i = heap w !! i)
  ∧ ((∀ k e, history_by_name w !! k = Some e →
             e ∈ history w ∧ hash_key (e_name e) = Some k) →
     ∀ k e, history_by_name (foldl load_file w l) !! k = Some e →
            e ∈ history (foldl load_file w l)
            ∧ hash_key (e_name e) = Some k)
  ∧ (∀ e, e ∈ history w → e ∈ history (foldl load_file w l))
  ∧ (∀ f j nm cr cv,
       (f, Some j) ∈ l → Py.endswith (Py.lower f) ".json" = true →
       as_record j = Some (nm, cr, cv) →
       ∃ e, e ∈ history (foldl load_file w l)
            ∧ e_name e = nm ∧ e_created e = cr).
Proof.
  revert w. induction l as [|fc l IH]; intros w.
  { cbn [foldl List.filter length]. split; [lia|].
    do 4 (split; [done|]). split; [by intros H|]. split; [done|].
    intros f j nm cr cv H. by apply elem_of_nil in H. }
  cbn [foldl List.filter].
  destruct (IH (load_file w fc)) as (H1 & H2 & H3 & H4 & H5 & H6 & H7 & H8).
  destruct (record_file fc) eqn:Hr.
  - destruct (load_file_takes w fc Hr)
      as (e & j & cv & extra & Hc & Hj & Hh & Hheap & Hk & Hm & Hcur & Ho).
    split; [rewrite H1, Hh, length_app; cbn; lia|].
    split; [congruence|]. split; [congruence|]. split; [congruence|].
    split.
    { intros i Hi. rewrite H5 by (rewrite Hheap, length_app; lia).
      rewrite Hheap. by rewrite lookup_app_l. }
    split.
    { intros Hinv. apply H6. intros k e' He'. rewrite Hh, Hk in *.
      rewrite elem_of_app, list_elem_of_singleton.
      destruct (hash_key (e_name e)) as [k0|] eqn:Hhash.
      - destruct (decide (k = k0)) as [->|Hne].
        + rewrite lookup_insert_eq in He'. injection He' as <-. by auto.
        + rewrite lookup_insert_ne in He' by done.
          destruct (Hinv k e' He'). auto.
      - destruct (Hinv k e' He'). auto. }
    split.
    { intros e' He'. apply H7. rewrite Hh, elem_of_app. by left. }
    intros f j' nm cr cv' Hin Hend Hj'.
    apply elem_of_cons in Hin as [<-|Hin]; [|by eapply H8].
    cbn in Hc. injection Hc as <-. rewrite Hj' in Hj.
    injection Hj as -> -> _. exists e. split; [|done].
    apply H7. rewrite Hh, elem_of_app, list_elem_of_singleton. by right.
  - rewrite (load_file_skips w fc Hr) in *.
    split; [done|]. repeat (split; [done|]).
    intros f j nm cr cv Hin Hend Hj.
    apply elem_of_cons in Hin as [<-|Hin]; [|by eapply H8].
    unfold record_file in Hr. cbn in Hr. rewrite Hend, Hj in Hr. cbn in Hr.
    discriminate Hr.
Qed.

Lemma load_history_session w :
  mem (load_history w) = mem w
  ∧ current_name (load_history w) = current_name w
  ∧ ∀ i, i < length (heap w) → heap (load_history w) !! i = heap w !! i.
Proof.
  destruct (load_files_any (map_to_list (files w))
              (with_history_by_name ∅ (with_history [] w)))
    as (_ & H2 & H3 & _ & H5 & _).
  unfold load_history. by cbn.
Qed.

(** A new process starts with an empty, unbound conversation. *)
Lemma boot_fresh (dir : gmap string (option json)) :
  conversation_of (boot dir) = [] ∧ current_name (boot dir) = None.
Proof.
  unfold boot.
  match goal with
  | |- context [load_history ?w0] =>
      destruct (load_history_session w0) as (Hm & Hc & Hh)
  end.
  split; [|exact Hc].
  unfold conversation_of, deref. rewrite Hm. cbn [mem print].
  rewrite Hh by (cbn; lia). done.
Qed.
End load_any.

(** What is saved survives the process: after a save of a non-empty
    conversation over a directory of the program's own records (the file
    system creating the file), a new process over that directory starts
    with an empty conversation, finds the record under its final name, and
    loading it there gives the saved messages, in order, and binds the
    name. *)
Theorem restart_roundtrip (E : env) (name final : string) (w : world) :
  tidy (files w) → conversation_of w ≠ [] →
  unique_path (files w) name = Some (final, json_file final) →
  writable E (json_file final) = true →
  ∃ w1 w2,
    save_conversation E name w = Returns tt w1
    ∧ current_name w1 = Some final
    ∧ conversation_of (boot (files w1)) = []
    ∧ current_name (boot (files w1)) = None
    ∧ load_conversation final (boot (files w1)) = Returns tt w2
    ∧ conversation_of w2 = conversation_of w
    ∧ current_name w2 = Some final.
Proof.
  intros Ht Hc Hu Hw.
  pose proof (save_conversation_writes E name final w Hc Hu Hw) as Hs.
  set (w1 := saved E final w) in *.
  assert (tidy (files w1)) as Ht1 by (by apply tidy_insert_dump).
  destruct (boot_settled (files w1) Ht1)
    as ([_ [Hcons _]] & _ & _ & _ & Hrec).
  assert (files (boot (files w1)) = files w1) as Hfb
    by (unfold boot; by rewrite load_history_files).
  assert (files w1 !! json_file final
          = Some (Some (dump_entry final (now_iso E)
                          (JArr (conversation_of w)))))
    as Hfile by apply lookup_insert_eq.
  destruct (proj2 (Hcons final)) as [e He].
  { rewrite Hfb, Hfile. by eexists. }
  destruct (Hrec final e He) as (_ & _ & j & cv & Hf & Hj & Hmir).
  rewrite Hfb, Hfile in Hf. injection Hf as <-.
  rewrite as_record_dump in Hj. injection Hj as _ <-.
  destruct Hmir as (l & Hl & Hconv).
  destruct (boot_fresh (files w1)) as [Hempty Hcur].
  exists w1, (loaded final (PList (conversation_of w)) (boot (files w1))).
  split; [done|]. split; [done|]. split; [exact Hempty|].
  split; [exact Hcur|]. split.
  { by rewrite (load_conversation_hit_list final _ e l _ He Hl Hconv). }
  split; [|done]. unfold conversation_of. cbn [loaded mem heap].
  apply deref_alloc.
Qed.

Lemma restart_roundtrip_witness :
  (tidy (files W_chat) ∧ conversation_of W_chat ≠ []
   ∧ unique_path (files W_chat) "trip" = Some ("trip", json_file "trip")
   ∧ writable E_title (json_file "trip") = true)
  ∧ ∃ w1 w2,
      save_conversation E_title "trip" W_chat = Returns tt w1
      ∧ load_conversation "trip" (boot (files w1)) = Returns tt w2
      ∧ conversation_of w2 = conversation_of W_chat.
Proof.
  assert (conversation_of W_chat ≠ []) as H by discriminate.
  assert (unique_path (files W_chat) "trip" = Some ("trip", json_file "trip"))
    as Hu by (vm_compute; reflexivity).
  assert (writable E_title (json_file "trip") = true) as Hw
    by (vm_compute; reflexivity).
  split; [split; [exact tidy_empty | split; [exact H | split; [exact Hu | exact Hw]]]|].
  destruct (restart_roundtrip E_title "trip" "trip" W_chat tidy_empty H Hu Hw)
    as (w1 & w2 & H1 & _ & _ & _ & H2 & H3 & _).
  exists w1, w2. split; [exact H1|]. split; [exact H2 | exact H3].
Defined.

(** Deleting the record that was just saved undoes the save: in a session
    the program has reached, after a save of a non-empty conversation under
    a non-empty desired name, on a file system that creates the file and
    removes it again, [cmd_delete] of the final name succeeds and leaves
    directory, catalog and [history] as they were before the save, the
    conversation in place and unbound. *)
Theorem save_then_delete (E : env) (name final : string) (w : world) :
  settled w → conversation_of w ≠ [] → name ≠ EmptyString →
  unique_path (files w) name = Some (final, json_file final) →
  writable E (json_file final) = true →
  removable E (json_file final) = true →
  ∃ w1 w2,
    save_conversation E name w = Returns tt w1
    ∧ current_name w1 = Some final
    ∧ is_Some (files w1 !! json_file final)
    ∧ cmd_delete E final w1 = Returns tt w2
    ∧ files w2 = files w
    ∧ history_by_name w2 = history_by_name w
    ∧ history w2 = history w
    ∧ current_name w2 = None
    ∧ conversation_of w2 = conversation_of w.
Proof.
  intros (Hstep & _ & Hlive & Hagree & Hrec) Hc Hname Hu Hw Hr.
  pose proof (save_conversation_writes E name final w Hc Hu Hw) as Hs.
  assert (files w !! json_file final = None) as Hf.
  { destruct (resolved name w) as (fin & Hu' & Hf).
    rewrite Hu in Hu'. by injection Hu' as <-. }
  pose proof (unique_path_not_empty _ _ _ _ Hname Hu) as Hfin.
  assert (history_by_name w !! KStr final = None) as Hnokey.
  { destruct Hstep as [_ [Hcons _]]. apply eq_None_not_Some.
    intros H%Hcons. rewrite Hf in H. by destruct H. }
  exists (saved E final w), (deleted final (saved E final w)).
  split; [done|]. split; [done|].
  split; [cbn; rewrite lookup_insert_eq; by eexists|].
  split.
  { apply cmd_delete_deletes; [done| | |done]; cbn; rewrite lookup_insert_eq;
      by eexists. }
  split; [cbn; by rewrite delete_insert_eq, delete_id|].
  split; [cbn; by rewrite delete_insert_eq, delete_id|].
  split.
  { cbn [deleted saved history]. rewrite List.filter_app. cbn.
    rewrite String.eqb_refl. cbn. rewrite app_nil_r.
    apply filter_all. intros e He. apply json_ne_str_true.
    apply Hagree in He as (n & Hn). destruct (Hrec n e Hn) as [-> _].
    intros [= ->]. congruence. }
  split; [cbn; by rewrite bool_decide_eq_true_2|].
  unfold conversation_of. cbn. by rewrite deref_alloc_old.
Qed.

Lemma save_then_delete_witness :
  (settled (run [Input E_title "hello"] (boot ∅))
   ∧ conversation_of (run [Input E_title "hello"] (boot ∅)) ≠ []
   ∧ "trip" ≠ EmptyString
   ∧ unique_path (files (run [Input E_title "hello"] (boot ∅))) "trip"
     = Some ("trip", json_file "trip")
   ∧ writable E_title (json_file "trip") = true
   ∧ removable E_title (json_file "trip") = true)
  ∧ ∃ w1 w2,
      save_conversation E_title "trip" (run [Input E_title "hello"] (boot ∅))
        = Returns tt w1
      ∧ cmd_delete E_title "trip" w1 = Returns tt w2
      ∧ files w2 = files (run [Input E_title "hello"] (boot ∅)).
Proof.
  assert (settled (run [Input E_title "hello"] (boot ∅))) as H1
    by exact (reachable_settled ∅ _ tidy_empty).
  assert (conversation_of (run [Input E_title "hello"] (boot ∅)) ≠ []) as H2
    by (vm_compute; discriminate).
  assert ("trip" ≠ EmptyString) as H3 by discriminate.
  assert (unique_path (files (run [Input E_title "hello"] (boot ∅))) "trip"
          = Some ("trip", json_file "trip")) as H4
    by (vm_compute; reflexivity).
  assert (writable E_title (json_file "trip") = true) as H5
    by (vm_compute; reflexivity).
  assert (removable E_title (json_file "trip") = true) as H6
    by reflexivity.
  split.
  { split; [exact H1|]. split; [exact H2|]. split; [exact H3|].
    split; [exact H4|]. split; [exact H5 | exact H6]. }
  destruct (save_then_delete E_title "trip" "trip" _ H1 H2 H3 H4 H5 H6)
    as (w1 & w2 & Hs & _ & _ & Hd & Hf & _).
  exists w1, w2. split; [exact Hs|]. split; [exact Hd | exact Hf].
Defined.

(** [load_conversation]: a name the catalog lacks changes nothing but the
    terminal; a record whose conversation is a live list makes a copy of it
    the active conversation, in a new list object, and binds the name,
    leaving the catalog, the files and the previous list objects as they
    were; with no argument [cmd_load] prints its usage line. *)
Theorem load_contract (name : string) (w : world) :
  (history_by_name w !! KStr name = None →
   load_conversation name w
   = Returns tt (print "No conversation found with that name." w))
  ∧ (∀ e l,
       history_by_name w !! KStr name = Some e →
       e_conversation e = RList l → l < length (heap w) →
       ∃ w',
         load_conversation name w = Returns tt w'
         ∧ conversation_of w' = deref (heap w) l
         ∧ current_name w' = Some name
         ∧ mem w' = length (heap w)
         ∧ (∀ l', l' < length (heap w) → heap w' !! l' = heap w !! l')
         ∧ stored_conversation w' name = stored_conversation w name
         ∧ history w' = history w
         ∧ history_by_name w' = history_by_name w
         ∧ files w' = files w)
  ∧ cmd_load EmptyString load_conversation w
    = Returns tt (print "Usage: load <name>" w)
  ∧ (name ≠ EmptyString →
     cmd_load name load_conversation w = load_conversation name w).
Proof.
  split; [apply load_conversation_missing|]. split.
  { intros e l He Hl Hlive.
    exists (loaded name (default (PList []) (heap w !! l)) w).
    split; [by apply (load_conversation_hit name w e l)|].
    split.
    { unfold conversation_of, deref. cbn [loaded mem heap].
      rewrite lookup_app_r by lia. rewrite Nat.sub_diag. cbn.
      by destruct (heap w !! l) as [[]|]. }
    split; [done|]. split; [done|]. split.
    { intros l' Hl'. cbn. by rewrite lookup_app_l. }
    split; [|done].
    unfold stored_conversation. cbn [loaded history_by_name heap].
    rewrite He, Hl. by rewrite lookup_app_l. }
  split; [done|]. intros Hn. unfold cmd_load.
  apply truthy_true in Hn. by rewrite Hn.
Qed.

Lemma load_contract_witness :
  (history_by_name W_bound !! KStr "trip"
   = Some (Entry (JStr "trip") (JStr "2025-12-31T08:00:00") (RList 1))
   ∧ 1 < length (heap W_bound))
  ∧ ∃ w',
      load_conversation "trip" W_bound = Returns tt w'
      ∧ conversation_of w' = [message "user" "hello"].
Proof.
  assert (history_by_name W_bound !! KStr "trip"
          = Some (Entry (JStr "trip") (JStr "2025-12-31T08:00:00")
                    (RList 1))) as H1 by (vm_compute; reflexivity).
  assert (1 < length (heap W_bound)) as H2 by (cbn; lia).
  split; [split; [exact H1 | exact H2]|].
  destruct (proj1 (proj2 (load_contract "trip" W_bound)) _ 1 H1 eq_refl H2)
    as (w' & Hl & Hc & _).
  exists w'. split; [exact Hl | exact Hc].
Defined.


(** [load_history] over any directory, foreign files included.  It takes
    the files whose name ends in [.json], whatever the case, that parse to
    an object with the three keys, and skips all others without a trace:
    [history] gets one record per file taken and the count of them is
    printed.  Every record of [history_by_name] is in [history] under the
    key that is its declared name; a record whose declared name cannot be
    a key is in [history] all the same.  The active conversation, the
    bound name, the files and the objects that existed are as
    before. *)
Theorem load_history_any_directory (w : world) :
  length (history (load_history w))
  = length (List.filter record_file (map_to_list (files w)))
  ∧ stdout (load_history w)
    = stdout w
      ++ [Line ("Loaded " +:+ pretty (length (history (load_history w)))
                +:+ " conversations from history.")]
  ∧ (∀ k e, history_by_name (load_history w) !! k = Some e →
            e ∈ history (load_history w) ∧ hash_key (e_name e) = Some k)
  ∧ (∀ f j nm cr cv,
       files w !! f = Some (Some j) →
       Py.endswith (Py.lower f) ".json" = true →
       as_record j = Some (nm, cr, cv) →
       ∃ e, e ∈ history (load_history w) ∧ e_name e = nm
            ∧ e_created e = cr)
  ∧ mem (load_history w) = mem w
  ∧ current_name (load_history w) = current_name w
  ∧ files (load_history w) = files w
  ∧ (∀ i, i < length (heap w) → heap (load_history w) !! i = heap w !! i).
Proof.
  destruct (load_files_any (map_to_list (files w))
              (with_history_by_name ∅ (with_history [] w)))
    as (H1 & H2 & H3 & H4 & H5 & H6 & _ & H8).
  unfold load_history. cbn [print history stdout history_by_name mem
    current_name files heap with_history with_history_by_name] in *.
  split; [rewrite H1; cbn; lia|]. split; [by rewrite H4|]. split.
  { apply H6. intros k e H. by rewrite lookup_empty in H. }
  split.
  { intros f j nm cr cv Hf. apply H8. by apply elem_of_map_to_list. }
  split; [exact H2|]. split; [exact H3|].
  split; [by rewrite load_files_files | exact H5].
Qed.

(** A record whose conversation is not an array.  When it is a JSON
    object, [load_conversation] makes a dict with its members the active
    conversation, in a new object, binds the name and reports the load;
    catalog, files and the objects that existed are as before.  On that
    conversation, when it has members, a chat turn and [cmd_compress] end
    in the error of [append], before any model is called and with nothing
    changed, and [generate_title_from_mem] ends in the error of adding a
    list to a dict.  When the value is neither an array nor an object,
    [copy] raises and [load_conversation] has changed nothing. *)
Theorem load_object_record (E : env) (name : string) (w : world)
    (e : entry) :
  history_by_name w !! KStr name = Some e →
  (∀ m, e_conversation e = RVal (JObj m) →
     ∃ w',
       load_conversation name w = Returns tt w'
       ∧ heap w' !! mem w' = Some (PDict m)
       ∧ heap w !! mem w' = None
       ∧ conversation_of w' = []
       ∧ mem_truthy w' = negb (bool_decide (m = []))
       ∧ current_name w' = Some name
       ∧ stdout w' = stdout w ++ [Line ("Loaded conversation: " +:+ name)]
       ∧ history w' = history w
       ∧ history_by_name w' = history_by_name w
       ∧ files w' = files w
       ∧ (∀ l, l < length (heap w) → heap w' !! l = heap w !! l)
       ∧ (∀ user, chat_turn E user w' = Crash AttributeError w')
       ∧ (m ≠ [] →
          cmd_compress (model_reply E) w' = Raises AttributeError w')
       ∧ generate_title_from_mem E w' = Raises TypeError w')
  ∧ (∀ j, e_conversation e = RVal j →
          (∀ v, j ≠ JArr v) → (∀ m, j ≠ JObj m) →
          load_conversation name w = Raises AttributeError w).
Proof.
  intros He. split.
  - intros m Hm. exists (loaded name (PDict m) w).
    assert (heap (loaded name (PDict m) w) !! mem (loaded name (PDict m) w)
            = Some (PDict m)) as Hd.
    { cbn. rewrite lookup_app_r by lia. by rewrite Nat.sub_diag. }
    split; [by apply (load_conversation_hit_dict name w e m)|].
    split; [exact Hd|].
    split; [cbn; apply lookup_ge_None; lia|].
    split; [unfold conversation_of, deref; by rewrite Hd|].
    split; [unfold mem_truthy; rewrite Hd; by destruct m|].
    repeat (split; [done|]).
    split; [intros l Hl; cbn; by rewrite lookup_app_l|].
    split.
    { intros user. unfold chat_turn. cbv zeta.
      by rewrite (list_append_dict _ _ m _ Hd). }
    split; [intros Hne; by apply (compress_dict _ m)|].
    unfold generate_title_from_mem. by rewrite Hd.
  - intros j Hj Harr Hobj. unfold load_conversation. rewrite He, Hj.
    destruct j; try done; [by destruct (Harr l) | by destruct (Hobj m)].
Qed.

Lemma load_object_record_witness :
  (tidy dir_object
   ∧ history_by_name (boot dir_object) !! KStr "r"
     = Some (Entry (JStr "r") (JStr "2025-12-31T08:00:00")
               (RVal (JObj [("role", JStr "user")]))))
  ∧ ∃ w',
      load_conversation "r" (boot dir_object) = Returns tt w'
      ∧ heap w' !! mem w' = Some (PDict [("role", JStr "user")])
      ∧ current_name w' = Some "r"
      ∧ chat_turn E_title "hello" w' = Crash AttributeError w'.
Proof.
  assert (tidy dir_object) as Ht.
  { intros f c H. unfold dir_object in H.
    apply lookup_singleton_Some in H as [<- <-].
    by eexists "r", _, _, _. }
  assert (history_by_name (boot dir_object) !! KStr "r"
          = Some (Entry (JStr "r") (JStr "2025-12-31T08:00:00")
                    (RVal (JObj [("role", JStr "user")])))) as He
    by (vm_compute; reflexivity).
  split; [split; [exact Ht | exact He]|].
  destruct (proj1 (load_object_record E_title "r" (boot dir_object) _ He)
              _ eq_refl)
    as (w' & H1 & H2 & _ & _ & _ & H3 & _ & _ & _ & _ & _ & H4 & _).
  exists w'. split; [exact H1|]. split; [exact H2|].
  split; [exact H3 | exact (H4 "hello")].
Defined.
